(** * The screening engine of J1Marcus/screener: embedding and properties

    Sources embedded here: [contract.ts] (types, [DEFAULT_PARAMS],
    [FIXED_FILTERS], [assertFixedFilters], [validateParams]),
    [data/indexLists.ts] (the constituent tables and the functions over
    them) and [engine.ts] ([runEngine] and every function it calls).

    Numbers.  A JavaScript [number] is modelled as an exact rational [Q]:
    comparisons, sums, products and quotients are the exact ones, rounding
    is not modelled, and there is no NaN and no infinity.  Statements about
    whole runs are statements about this arithmetic.  Three places where
    the source can leave the rationals are handled as follows.
    - [x / 0]: the model gives [0] where JavaScript gives NaN or an
      infinity.  In a run of the engine the only divisors that are not
      guarded or constant are the first close of the trend window and the
      20-bar average close, both positive on series of positive prices.
      The statements about [rsi] and [stochasticK] on their own carry the
      hypotheses that keep their divisors and windows meaningful.
    - [Math.max()] and [Math.min()] of no arguments (minus and plus
      infinity in JavaScript) are [0] in the model; they are only reached on
      an empty candle array.
    - [candles[candles.length - 1]] on an empty array is [undefined] in
      JavaScript and reading a field of it throws; the model reads a candle
      of zeros.  [runEngine] only calls these functions on at least
      [FIXED_FILTERS.minBars] candles.
    Of the single functions, the properties stated beyond the worked
    scenarios are ranges, signs, orderings, monotonicity and the data a
    result depends on, which the rounded arithmetic of JavaScript keeps;
    none says that a computed value equals an exact one.

    Objects.  [timeseries] and [metadata] are association lists in the
    order of [Object.entries].  [Object.entries(timeseries)] reads own keys
    only; [metadata[ticker]] also finds the names every object inherits
    from [Object.prototype] ([metadata_at]).

    [Math.sqrt], the clock ([new Date()]), [Date] parsing and
    [String.prototype.toUpperCase] are parameters of the development. *)

From Stdlib Require Import String Ascii.
From Stdlib Require Import QArith Qminmax Qabs Qround ZArith List Bool Lia Lqa Sorted Permutation.
Import ListNotations.

Local Open Scope string_scope.
Local Open Scope Q_scope.

(** ** JavaScript primitives *)

Definition Qlt_bool (x y : Q) : bool := negb (Qle_bool y x).

Declare Scope js_scope.
Delimit Scope js_scope with js.
Notation "x <? y" := (Qlt_bool x y) : js_scope.
Notation "x <=? y" := (Qle_bool x y) : js_scope.
Notation "x >? y" := (Qlt_bool y x) (at level 70) : js_scope.
Notation "x >=? y" := (Qle_bool y x) (at level 70) : js_scope.
Notation "x =? y" := (Qeq_bool x y) : js_scope.
Local Open Scope js_scope.

(** [array.length] as a number. *)
Definition Qn (n : nat) : Q := inject_Z (Z.of_nat n).

Definition len {A : Type} (l : list A) : Q := Qn (length l).

(** [Number.isInteger]. *)
Definition isInteger (x : Q) : bool := Pos.eqb (Qden (Qred x)) 1.

(** Truncation towards zero, as [ToIntegerOrInfinity] does. *)
Definition Qtrunc (x : Q) : Z := Z.quot (Qnum x) (Zpos (Qden x)).

(** The count a validated lookback stands for. *)
Definition to_count (x : Q) : nat := Z.to_nat (Qtrunc x).

(** [array.slice(-n)] for a count [n]: the last [n] elements, the whole
    array when [n] exceeds the length, and the whole array when [n] is [0]
    (since [-0] is [0]). *)
Definition slice_last {A : Type} (n : nat) (l : list A) : list A :=
  match n with
  | O => l
  | _ => skipn (length l - n) l
  end.

(** [array.slice(0, k)]: [k] is truncated to an integer; a negative [k]
    counts from the end. *)
Definition slice_to {A : Type} (k : Q) (l : list A) : list A :=
  let k' := Qtrunc k in
  if (k' <? 0)%Z
  then firstn (Z.to_nat (Z.max (Z.of_nat (length l) + k') 0)) l
  else firstn (Z.to_nat k') l.

(** [Math.max(...xs)] and [Math.min(...xs)]. *)
Definition Math_max (xs : list Q) : Q :=
  match xs with
  | [] => 0
  | x :: t => fold_left Qmax t x
  end.

Definition Math_min (xs : list Q) : Q :=
  match xs with
  | [] => 0
  | x :: t => fold_left Qmin t x
  end.

(** [values.reduce((sum, val) => sum + val, 0)]. *)
Definition sum (xs : list Q) : Q := fold_left Qplus xs 0.

(** [x || d] on an optional number: [null], [undefined] and [0] give [d]. *)
Definition num_or (o : option Q) (d : Q) : Q :=
  match o with
  | Some x => if x =? 0 then d else x
  | None => d
  end.

(** [!x] on an optional number. *)
Definition falsy (o : option Q) : bool :=
  match o with
  | Some x => x =? 0
  | None => true
  end.

(** [x || null] on an optional number, string and boolean. *)
Definition num_or_null (o : option Q) : option Q :=
  match o with
  | Some x => if x =? 0 then None else Some x
  | None => None
  end.

Definition str_or_null (o : option string) : option string :=
  match o with
  | Some s => if String.eqb s "" then None else Some s
  | None => None
  end.

Definition bool_or_null (o : option bool) : option bool :=
  match o with
  | Some true => Some true
  | _ => None
  end.

(** [xs.includes(s)] on an array of strings. *)
Definition includes (xs : list string) (s : string) : bool :=
  existsb (String.eqb s) xs.

(** The names every object literal inherits from [Object.prototype]; the
    [in] operator finds them as well as the literal's own keys. *)
Definition Object_prototype_keys : list string :=
  [ "constructor"; "__proto__"; "hasOwnProperty"; "isPrototypeOf";
    "propertyIsEnumerable"; "toLocaleString"; "toString"; "valueOf";
    "__defineGetter__"; "__defineSetter__"; "__lookupGetter__";
    "__lookupSetter__" ].

(** [key in obj] for an object literal [obj] with the own keys [own]. *)
Definition js_in (key : string) (own : list string) : bool :=
  includes own key || includes Object_prototype_keys key.

(** ** contract.ts *)

Inductive Trend := up | down | sideways.

Definition Trend_name (t : Trend) : string :=
  match t with
  | up => "up"
  | down => "down"
  | sideways => "sideways"
  end.

Inductive SetupReason :=
  | Breakout
  | Momentum
  | Pullback
  | Fib_Pullback
  | Consolidation
  | Reversal
  | Reversal_Accumulation
  | Reversal_Distribution
  | BB_Lower_Bounce
  | BB_Upper_Reject
  | Stoch_Oversold_Reversal
  | Stoch_Overbought_Reversal.

Definition SetupReason_eqb (a b : SetupReason) : bool :=
  match a, b with
  | Breakout, Breakout
  | Momentum, Momentum
  | Pullback, Pullback
  | Fib_Pullback, Fib_Pullback
  | Consolidation, Consolidation
  | Reversal, Reversal
  | Reversal_Accumulation, Reversal_Accumulation
  | Reversal_Distribution, Reversal_Distribution
  | BB_Lower_Bounce, BB_Lower_Bounce
  | BB_Upper_Reject, BB_Upper_Reject
  | Stoch_Oversold_Reversal, Stoch_Oversold_Reversal
  | Stoch_Overbought_Reversal, Stoch_Overbought_Reversal => true
  | _, _ => false
  end.

Inductive CandlestickPattern :=
  | doji
  | hammer
  | long_lower_shadow
  | gravestone_doji
  | shooting_star
  | engulfing_bullish
  | engulfing_bearish
  | none.

Definition CandlestickPattern_name (p : CandlestickPattern) : string :=
  match p with
  | doji => "doji"
  | hammer => "hammer"
  | long_lower_shadow => "long_lower_shadow"
  | gravestone_doji => "gravestone_doji"
  | shooting_star => "shooting_star"
  | engulfing_bullish => "engulfing_bullish"
  | engulfing_bearish => "engulfing_bearish"
  | none => "none"
  end.

Definition CandlestickPattern_eqb (a b : CandlestickPattern) : bool :=
  String.eqb (CandlestickPattern_name a) (CandlestickPattern_name b).

Inductive VolumeShift := buyer | seller | neutral.

Inductive BBPosition := pos_lower_bounce | pos_upper_reject | pos_middle.

Inductive StochPosition := oversold | overbought | stoch_neutral.

(** [ScreenerParams] as the engine receives it at run time: the fields the
    TypeScript types restrict to a union of literals are strings here,
    since [validateParams] is the guard that checks them. *)
Record ScreenerParams := {
  user_sector : string;
  user_industry : string;
  market_cap_min : Q;
  market_cap_max : Q;
  rsi_min : Q;
  rsi_max : Q;
  stoch_k_min : Q;
  stoch_k_max : Q;
  trend_type : string;
  trend_lookback : Q;
  ma_cross : string;
  sr_proximity_pct : Q;
  adx_min : Q;
  atr_lookback : Q;
  fib_reference : string;
  fib_zone : string;
  max_results : Q;
  as_of_date : string;
  leo_mode_enabled : bool;
  index_filters : list string;
  min_price_leo : Q;
  candlestick_patterns : list string;
  require_volume_shift : bool;
  bb_bounce_enabled : bool;
  stoch_oversold_threshold : Q;
  stoch_overbought_threshold : Q;
  earnings_warning_days : Q;
  timeframe : string
}.

(** [DEFAULT_PARAMS]; [today] is [new Date().toISOString().split('T')[0]]. *)
Definition DEFAULT_PARAMS (today : string) : ScreenerParams := {|
  user_sector := "*";
  user_industry := "*";
  market_cap_min := 2000000000;
  market_cap_max := 10000000000000;
  rsi_min := 0;
  rsi_max := 100;
  stoch_k_min := 0;
  stoch_k_max := 100;
  trend_type := "*";
  trend_lookback := 60;
  ma_cross := "none";
  sr_proximity_pct := 3;
  adx_min := 0;
  atr_lookback := 14;
  fib_reference := "swing_low_to_high";
  fib_zone := "*";
  max_results := 50;
  as_of_date := today;
  leo_mode_enabled := false;
  index_filters := ["sp500"; "dowjones"; "nasdaq100"];
  min_price_leo := 50;
  candlestick_patterns := ["doji"; "hammer"; "long_lower_shadow"];
  require_volume_shift := true;
  bb_bounce_enabled := true;
  stoch_oversold_threshold := 20;
  stoch_overbought_threshold := 80;
  earnings_warning_days := 30;
  timeframe := "weekly"
|}.

Record FixedFilters := {
  minPrice : Q;
  minAvgVol20 : Q;
  minRelativeVol : Q;
  minBars : Q
}.

Definition FIXED_FILTERS : FixedFilters := {|
  minPrice := 30;
  minAvgVol20 := 1000000;
  minRelativeVol := 1;
  minBars := 250
|}.

(** What the engine can throw.  The constructors of the validation errors
    stand for the thrown [Error] and its message. *)
Inductive EngineError :=
  | FixedFiltersMismatch      (* FIXED_FILTERS mismatch: must be {...} *)
  | AsOfDateFormat            (* as_of_date must be ISO YYYY-MM-DD *)
  | MarketCapBounds           (* market_cap_min must be <= market_cap_max *)
  | RsiBounds                 (* RSI bounds must be within 0-100 and rsi_min <= rsi_max *)
  | StochBounds               (* Stochastic %K bounds must be within 0-100 and ... *)
  | TrendLookback             (* trend_lookback must be a positive integer *)
  | MaxResults                (* max_results must be a positive integer *)
  | SrProximity               (* sr_proximity_pct must be a non-negative number *)
  | AdxMin                    (* adx_min must be a non-negative number *)
  | AtrLookback               (* atr_lookback must be a positive integer *)
  | MaCrossEnum               (* ma_cross must be one of 20>50 | 50>200 | 20>200 | none *)
  | TrendTypeEnum             (* trend_type must be up | down | sideways | * *)
  | FibReferenceEnum          (* fib_reference must be swing_high_to_low | swing_low_to_high *)
  | FibZoneEnum               (* fib_zone invalid *)
  | IndexTypeError.           (* TypeError: INDEX_CONSTITUENTS[idx] is undefined *)

Definition Exc (A : Type) : Type := (EngineError + A)%type.

Definition ret {A : Type} (a : A) : Exc A := inr a.
Definition throw {A : Type} (e : EngineError) : Exc A := inl e.

Definition bind {A B : Type} (m : Exc A) (k : A -> Exc B) : Exc B :=
  match m with
  | inl e => inl e
  | inr a => k a
  end.

Notation "x <- m ;; k" := (bind m (fun x => k))
  (at level 61, m at next level, right associativity).

(** [if (c) throw e;] *)
Definition throw_if (c : bool) (e : EngineError) : Exc unit :=
  if c then throw e else ret tt.

Definition assertFixedFilters : Exc unit :=
  let F := FIXED_FILTERS in
  throw_if (negb (minPrice F =? 30) || negb (minAvgVol20 F =? 1000000) ||
            negb (minRelativeVol F =? 1) || negb (minBars F =? 250))
           FixedFiltersMismatch.

Record Candle := {
  t : string;
  o : Q;
  h : Q;
  l : Q;
  c : Q;
  v : Q
}.

Inductive FVGType := bullish | bearish.

Record FVGZone := {
  fvg_type : FVGType;
  topPrice : Q;
  bottomPrice : Q;
  midpoint : Q;
  startDate : string;
  endDate : string;
  isFilled : bool
}.

Inductive SwingType := swing_high | swing_low.

Record SwingPoint := {
  sp_date : string;
  sp_price : Q;
  sp_type : SwingType;
  sp_strength : nat
}.

Inductive PriceTargetType := pt_fvg | pt_swing | pt_imbalance | pt_percentage.

Record PriceTarget := {
  pt_type : PriceTargetType;
  pt_price : Q;
  pt_description : string;
  pt_confidence : Q
}.

Record VolumeAnalysis := {
  va_shift : VolumeShift;
  va_strength : Q;
  buyerVolume : Q;
  sellerVolume : Q
}.

Record TickerMeta := {
  ticker : string;
  company : option string;
  sector : option string;
  industry : option string;
  marketCap : option Q;
  nextEarningsDate : option string;
  lastCompletedBar : option string
}.

Record Indicators := {
  sma20 : option Q;
  sma50 : option Q;
  sma200 : option Q;
  rsi14 : option Q;
  stochK : option Q;
  atr_ : option Q;
  adx14 : option Q;
  avgVol20 : option Q;
  relVol : option Q;
  hh20 : option Q;
  ll20 : option Q;
  bbWidth : option Q;
  trend : option Trend;
  srDistancePct : option Q;
  fibHit : option bool;
  reactionBullish : option bool;
  bbUpper : option Q;
  bbLower : option Q;
  bbMiddle : option Q;
  bbPercentB : option Q;
  stochD : option Q;
  candlestickPattern : option CandlestickPattern;
  volumeShift : option VolumeShift;
  volumeShiftStrength : option Q;
  fvgZones : option (list FVGZone);
  swingHighs : option (list SwingPoint);
  swingLows : option (list SwingPoint);
  earningsWithin30Days : option bool;
  entryConfirmed : option bool
}.

Record ClassifiedPick := {
  Ticker : string;
  Company : option string;
  Price : Q;
  MarketCap : option Q;
  Volume : Q;
  RelativeVolume : Q;
  RSI : Q;
  Sector : option string;
  Trend_ : Trend;
  NextEarningsDate : option string;
  SelectionReason : SetupReason;
  CandlestickPattern_ : option CandlestickPattern;
  VolumeShift_ : option VolumeShift;
  VolumeShiftStrength : option Q;
  BBPosition_ : option BBPosition;
  BBPercentB : option Q;
  StochPosition_ : option StochPosition;
  StochK : option Q;
  EarningsWarning : option bool;
  PriceTargets : option (list PriceTarget);
  EntryConfirmed : option bool;
  ReversalTimeline : option string
}.

(** [timeseries] and [metadata] are objects keyed by ticker: [timeseries]
    is held as its [Object.entries] list, [metadata] as an association list
    read by key. *)
Record EngineInput := {
  params : ScreenerParams;
  timeseries : option (list (string * list Candle));
  metadata : option (list (string * TickerMeta))
}.

Record EngineOutput := {
  out_as_of_date : string;
  picks : list ClassifiedPick
}.

(** [/^\d{4}-\d{2}-\d{2}$/.test(s)] *)
Definition is_digit (a : ascii) : bool :=
  let n := nat_of_ascii a in (48 <=? n)%nat && (n <=? 57)%nat.

Definition is_hyphen (a : ascii) : bool := Ascii.eqb a "-"%char.

Definition matches_iso_date (s : string) : bool :=
  match list_ascii_of_string s with
  | [y1; y2; y3; y4; s1; m1; m2; s2; d1; d2] =>
      is_digit y1 && is_digit y2 && is_digit y3 && is_digit y4 &&
      is_hyphen s1 && is_digit m1 && is_digit m2 &&
      is_hyphen s2 && is_digit d1 && is_digit d2
  | _ => false
  end.

(** [Number.isFinite]: every rational is finite. *)
Definition isFinite (x : Q) : bool := true.

Definition inRange (x a b : Q) : bool := isFinite x && (x >=? a) && (x <=? b).

Definition maSet : list string := ["20>50"; "50>200"; "20>200"; "none"].
Definition trendSet : list string := ["up"; "down"; "sideways"; "*"].
Definition fibRefSet : list string := ["swing_high_to_low"; "swing_low_to_high"].
Definition fibZoneSet : list string :=
  ["38.2-50"; "50-61.8"; "38.2-61.8"; "extension-127"; "extension-161.8"; "*"].

(** [validateParams]: [p] has every field, so [{ ...DEFAULT_PARAMS, ...p }]
    is [p]. *)
Definition validateParams (p : ScreenerParams) : Exc ScreenerParams :=
  let m := p in
  _ <- throw_if (negb (matches_iso_date (as_of_date m))) AsOfDateFormat ;;
  _ <- throw_if (market_cap_min m >? market_cap_max m) MarketCapBounds ;;
  _ <- throw_if (negb (inRange (rsi_min m) 0 100) || negb (inRange (rsi_max m) 0 100) ||
                 (rsi_min m >? rsi_max m)) RsiBounds ;;
  _ <- throw_if (negb (inRange (stoch_k_min m) 0 100) ||
                 negb (inRange (stoch_k_max m) 0 100) ||
                 (stoch_k_min m >? stoch_k_max m)) StochBounds ;;
  _ <- throw_if (negb (isInteger (trend_lookback m)) || (trend_lookback m <=? 0))
                TrendLookback ;;
  _ <- throw_if (negb (isInteger (max_results m)) || (max_results m <=? 0)) MaxResults ;;
  _ <- throw_if (negb (isFinite (sr_proximity_pct m)) || (sr_proximity_pct m <? 0))
                SrProximity ;;
  _ <- throw_if (negb (isFinite (adx_min m)) || (adx_min m <? 0)) AdxMin ;;
  _ <- throw_if (negb (isFinite (atr_lookback m)) || (atr_lookback m <=? 0) ||
                 negb (isInteger (atr_lookback m))) AtrLookback ;;
  _ <- throw_if (negb (js_in (ma_cross m) maSet)) MaCrossEnum ;;
  _ <- throw_if (negb (js_in (trend_type m) trendSet)) TrendTypeEnum ;;
  _ <- throw_if (negb (js_in (fib_reference m) fibRefSet)) FibReferenceEnum ;;
  _ <- throw_if (negb (js_in (fib_zone m) fibZoneSet)) FibZoneEnum ;;
  ret m.

(** ** engine.ts *)

Record StockAnalysis := {
  sa_ticker : string;
  sa_meta : TickerMeta;
  sa_candles : list Candle;
  sa_indicators : Indicators;
  setupReason : SetupReason;
  score : Q
}.

(** What [candles[i]] reads outside the array in the model. *)
Definition no_candle : Candle := {| t := ""; o := 0; h := 0; l := 0; c := 0; v := 0 |}.

(** [candles[candles.length - 1]] and [candles[candles.length - 2]]. *)
Definition last_candle (candles : list Candle) : Candle := last candles no_candle.

Definition prev_candle (candles : list Candle) : Candle :=
  nth (length candles - 2) candles no_candle.

(** [Array.prototype.sort(compare)]: the sort is stable, and [compare a b > 0]
    puts [a] after [b]. *)
Section Sort.
Context {A : Type} (compare : A -> A -> Q).

Fixpoint sort_insert (x : A) (xs : list A) : list A :=
  match xs with
  | [] => [x]
  | y :: ys => if compare x y >? 0 then y :: sort_insert x ys else x :: xs
  end.

Definition js_sort (xs : list A) : list A := fold_right sort_insert [] xs.
End Sort.

Definition passesFixedFilters (candles : list Candle) (meta : TickerMeta) : bool :=
  if len candles <? minBars FIXED_FILTERS then false else
  let lastCandle := last_candle candles in
  if c lastCandle <=? minPrice FIXED_FILTERS then false else
  let last20 := slice_last 20 candles in
  let avgVol20 := fold_left (fun s k => s + v k) last20 0 / len last20 in
  if avgVol20 <? minAvgVol20 FIXED_FILTERS then false else
  let relVol := v lastCandle / avgVol20 in
  if relVol <? minRelativeVol FIXED_FILTERS then false else
  true.

Definition passesUserFilters (meta : TickerMeta) (params : ScreenerParams) : bool :=
  if negb (String.eqb (user_sector params) "*") &&
     negb (match sector meta with
           | Some s => String.eqb s (user_sector params)
           | None => false
           end)
  then false else
  if negb (String.eqb (user_industry params) "*") &&
     negb (match industry meta with
           | Some s => String.eqb s (user_industry params)
           | None => false
           end)
  then false else
  let marketCap := num_or (marketCap meta) 0 in
  if (marketCap <? market_cap_min params) || (marketCap >? market_cap_max params)
  then false else
  true.

Definition sma (values : list Q) (period : nat) : option Q :=
  if (length values <? period)%nat then None else
  let slice := slice_last period values in
  Some (sum slice / Qn period).

Definition rsi (closes : list Q) (period : nat) : option Q :=
  if (length closes <? period + 1)%nat then None else
  let '(gains, losses) :=
    fold_left
      (fun '(gains, losses) i =>
         let change := nth i closes 0 - nth (i - 1) closes 0 in
         if change >? 0 then (gains + change, losses) else (gains, losses - change))
      (seq (length closes - period) period) (0, 0) in
  let avgGain := gains / Qn period in
  let avgLoss := losses / Qn period in
  if avgLoss =? 0 then Some 100 else
  let rs := avgGain / avgLoss in
  Some (100 - 100 / (1 + rs)).

Definition stochasticK (candles : list Candle) (kPeriod dPeriod : nat) : option Q :=
  if (length candles <? kPeriod)%nat then None else
  let slice := slice_last kPeriod candles in
  let high := Math_max (map h slice) in
  let low := Math_min (map l slice) in
  let close := c (last_candle candles) in
  if high =? low then Some 50 else
  Some ((close - low) / (high - low) * 100).

(** The pairs [(candles[i - 1], candles[i])] for [i] from [1]. *)
Definition bar_pairs (candles : list Candle) : list (Candle * Candle) :=
  combine candles (tl candles).

Definition atr (candles : list Candle) (period : nat) : option Q :=
  if (length candles <? period + 1)%nat then None else
  let trs :=
    map (fun '(previous, current) =>
           Qmax (Qmax (h current - l current) (Qabs (h current - c previous)))
                (Qabs (l current - c previous)))
        (bar_pairs candles) in
  sma trs period.

Definition adx (candles : list Candle) (period : nat) : option Q :=
  if (length candles <? period * 2)%nat then None else
  let dms :=
    map (fun '(previous, current) =>
           let upMove := h current - h previous in
           let downMove := l previous - l current in
           let plusDM := if (upMove >? downMove) && (upMove >? 0) then upMove else 0 in
           let minusDM := if (downMove >? upMove) && (downMove >? 0) then downMove else 0 in
           (plusDM, minusDM))
        (bar_pairs candles) in
  let plusDI := num_or (sma (map fst dms) period) 0 in
  let minusDI := num_or (sma (map snd dms) period) 0 in
  if plusDI + minusDI =? 0 then Some 0 else
  Some (Qabs (plusDI - minusDI) / (plusDI + minusDI) * 100).

Definition determineTrend (candles : list Candle) (lookback : nat) : Trend :=
  if (length candles <? lookback)%nat then sideways else
  let slice := slice_last lookback candles in
  let firstClose := c (hd no_candle slice) in
  let lastClose := c (last_candle slice) in
  let change := (lastClose - firstClose) / firstClose in
  if change >? 5 # 100 then up else
  if change <? - (5 # 100) then down else
  sideways.

Definition calculateSRDistance (candles : list Candle) (proximityPct : Q) : option Q :=
  if (length candles <? 20)%nat then None else
  let currentPrice := c (last_candle candles) in
  let highs := map h (slice_last 20 candles) in
  let lows := map l (slice_last 20 candles) in
  let resistance := Math_max highs in
  let support := Math_min lows in
  let distanceToResistance := Qabs (currentPrice - resistance) / currentPrice * 100 in
  let distanceToSupport := Qabs (currentPrice - support) / currentPrice * 100 in
  Some (Qmin distanceToResistance distanceToSupport).

Definition analyzeFibonacci (candles : list Candle) (reference zone : string)
  : bool * bool :=
  if (length candles <? 50)%nat then (false, false) else
  let slice := slice_last 50 candles in
  let swingHigh0 := Math_max (map h slice) in
  let swingLow0 := Math_min (map l slice) in
  let '(swingHigh, swingLow) :=
    if String.eqb reference "swing_high_to_low"
    then (swingLow0, swingHigh0) else (swingHigh0, swingLow0) in
  let range := swingHigh - swingLow in
  let currentPrice := c (last_candle candles) in
  let fib382 := swingLow + range * (382 # 1000) in
  let fib50 := swingLow + range * (5 # 10) in
  let fib618 := swingLow + range * (618 # 1000) in
  let fib127 := swingHigh + range * (27 # 100) in
  let fib1618 := swingHigh + range * (618 # 1000) in
  let tolerance := range * (1 # 100) in
  let hit :=
    if String.eqb zone "38.2-50" then
      (currentPrice >=? fib382 - tolerance) && (currentPrice <=? fib50 + tolerance)
    else if String.eqb zone "50-61.8" then
      (currentPrice >=? fib50 - tolerance) && (currentPrice <=? fib618 + tolerance)
    else if String.eqb zone "38.2-61.8" then
      (currentPrice >=? fib382 - tolerance) && (currentPrice <=? fib618 + tolerance)
    else if String.eqb zone "extension-127" then
      Qabs (currentPrice - fib127) <=? tolerance
    else if String.eqb zone "extension-161.8" then
      Qabs (currentPrice - fib1618) <=? tolerance
    else if String.eqb zone "*" then true
    else false in
  let bullishReaction :=
    hit && (2 <=? length candles)%nat &&
    (c (last_candle candles) >? c (prev_candle candles)) in
  (hit, bullishReaction).

(** *** Setup predicates and scores *)

Definition isBreakout (candles : list Candle) (indicators : Indicators) : bool :=
  if falsy (hh20 indicators) || falsy (ll20 indicators) then false else
  let currentPrice := c (last_candle candles) in
  let volume := v (last_candle candles) in
  let avgVol := num_or (avgVol20 indicators) 0 in
  match hh20 indicators with
  | Some hh => (currentPrice >? hh) && (volume >? avgVol * (15 # 10))
  | None => false
  end.

Definition trend_is (indicators : Indicators) (x : Trend) : bool :=
  match trend indicators with
  | Some y => String.eqb (Trend_name y) (Trend_name x)
  | None => false
  end.

Definition isMomentum (candles : list Candle) (indicators : Indicators) : bool :=
  match rsi14 indicators, adx14 indicators with
  | Some rsi, Some adx => (rsi >? 60) && (adx >? 25) && trend_is indicators up
  | _, _ => false
  end.

Definition isPullback (candles : list Candle) (indicators : Indicators) : bool :=
  match sma20 indicators, rsi14 indicators with
  | Some sma20, Some rsi =>
      if sma20 =? 0 then false else
      let currentPrice := c (last_candle candles) in
      trend_is indicators up && (currentPrice <=? sma20 * (102 # 100)) &&
      (rsi <? 50) && (rsi >? 30)
  | _, _ => false
  end.

Definition isConsolidation (candles : list Candle) (indicators : Indicators) : bool :=
  match bbWidth indicators, adx14 indicators with
  | Some bbWidth, Some adx => (bbWidth <? 1 # 10) && (adx <? 20)
  | _, _ => false
  end.

Definition isReversal (candles : list Candle) (indicators : Indicators) : bool :=
  match rsi14 indicators, srDistancePct indicators with
  | Some rsi, Some srDistance =>
      (((rsi <? 30) && trend_is indicators down) ||
       ((rsi >? 70) && trend_is indicators up)) &&
      (srDistance <? 2)
  | _, _ => false
  end.

Definition calculateBreakoutScore (candles : list Candle) (indicators : Indicators) : Q :=
  let volume := v (last_candle candles) in
  let avgVol := num_or (avgVol20 indicators) 1 in
  let relVol := volume / avgVol in
  Qmin (relVol * 10) 100.

Definition calculateMomentumScore (candles : list Candle) (indicators : Indicators) : Q :=
  let rsi := num_or (rsi14 indicators) 50 in
  let adx := num_or (adx14 indicators) 0 in
  (rsi - 50) + adx.

Definition calculatePullbackScore (candles : list Candle) (indicators : Indicators) : Q :=
  let rsi := num_or (rsi14 indicators) 50 in
  let sma20 := num_or (sma20 indicators) 0 in
  let currentPrice := c (last_candle candles) in
  let priceScore := Qmax 0 (100 - Qabs (currentPrice - sma20) / sma20 * 100) in
  let rsiScore := Qmax 0 (50 - rsi) in
  priceScore + rsiScore.

Definition calculateFibPullbackScore (candles : list Candle) (indicators : Indicators) : Q :=
  calculatePullbackScore candles indicators * (12 # 10).

Definition calculateConsolidationScore (candles : list Candle) (indicators : Indicators) : Q :=
  let bbWidth := num_or (bbWidth indicators) 1 in
  let adx := num_or (adx14 indicators) 50 in
  Qmax 0 (100 - bbWidth * 1000) + Qmax 0 (50 - adx).

Definition calculateReversalScore (candles : list Candle) (indicators : Indicators) : Q :=
  let rsi := num_or (rsi14 indicators) 50 in
  let srDistance := num_or (srDistancePct indicators) 10 in
  let rsiExtreme := Qmax 0 (Qabs (rsi - 50) - 20) in
  let proximityScore := Qmax 0 (10 - srDistance) * 10 in
  rsiExtreme + proximityScore.

(** *** Leo methodology *)

Definition detectCandlestickPattern (candles : list Candle) (atrValue : option Q)
  : CandlestickPattern :=
  if (length candles <? 2)%nat || falsy atrValue then none else
  let atrValue := num_or atrValue 0 in
  let current := last_candle candles in
  let previous := prev_candle candles in
  let body := Qabs (c current - o current) in
  let range := h current - l current in
  let upperShadow := h current - Qmax (o current) (c current) in
  let lowerShadow := Qmin (o current) (c current) - l current in
  let isBullish := c current >? o current in
  if (body <? atrValue * (1 # 10)) && (range >? 0) then
    if (upperShadow >=? body * 2) && (lowerShadow <? body * (5 # 10))
    then gravestone_doji else doji
  else
  if (lowerShadow >=? body * 2) && (upperShadow <? body * (5 # 10)) && isBullish
  then hammer else
  if (range >? 0) && (lowerShadow >? range * (6 # 10)) then long_lower_shadow else
  if (upperShadow >=? body * 2) && (lowerShadow <? body * (5 # 10)) && negb isBullish
  then shooting_star else
  let prevBody := Qabs (c previous - o previous) in
  let prevIsBullish := c previous >? o previous in
  if isBullish && negb prevIsBullish && (body >? prevBody) &&
     (o current <=? c previous) && (c current >=? o previous)
  then engulfing_bullish else
  if negb isBullish && prevIsBullish && (body >? prevBody) &&
     (o current >=? c previous) && (c current <=? o previous)
  then engulfing_bearish else
  none.

Definition analyzeVolumeShift (candles : list Candle) (lookback : nat) : VolumeAnalysis :=
  let nothing :=
    {| va_shift := neutral; va_strength := 0; buyerVolume := 0; sellerVolume := 0 |} in
  if (length candles <? lookback)%nat then nothing else
  let recent := slice_last lookback candles in
  let '(buyerVolume, sellerVolume) :=
    fold_left
      (fun '(buyerVolume, sellerVolume) candle =>
         if c candle >? o candle then (buyerVolume + v candle, sellerVolume)
         else if c candle <? o candle then (buyerVolume, sellerVolume + v candle)
         else (buyerVolume + v candle / 2, sellerVolume + v candle / 2))
      recent (0, 0) in
  let total := buyerVolume + sellerVolume in
  if total =? 0 then nothing else
  let buyerRatio := buyerVolume / total in
  if buyerRatio >? 6 # 10 then
    {| va_shift := buyer; va_strength := Qmin ((buyerRatio - (5 # 10)) * 200) 100;
       buyerVolume := buyerVolume; sellerVolume := sellerVolume |}
  else if buyerRatio <? 4 # 10 then
    {| va_shift := seller; va_strength := Qmin (((5 # 10) - buyerRatio) * 200) 100;
       buyerVolume := buyerVolume; sellerVolume := sellerVolume |}
  else
    {| va_shift := neutral; va_strength := 0;
       buyerVolume := buyerVolume; sellerVolume := sellerVolume |}.

Definition detectFVGs (candles : list Candle) (lookback : nat) : list FVGZone :=
  if (length candles <? lookback + 2)%nat then [] else
  let recentCandles := slice_last (lookback + 2) candles in
  let currentPrice := c (last_candle candles) in
  flat_map
    (fun '(prev, current) =>
       ((if l current >? h prev then
          [ {| fvg_type := bullish; topPrice := l current; bottomPrice := h prev;
               midpoint := (l current + h prev) / 2;
               startDate := t prev; endDate := t current;
               isFilled := (currentPrice <=? l current) && (currentPrice >=? h prev) |} ]
        else []) ++
       (if h current <? l prev then
          [ {| fvg_type := bearish; topPrice := l prev; bottomPrice := h current;
               midpoint := (l prev + h current) / 2;
               startDate := t prev; endDate := t current;
               isFilled := (currentPrice >=? h current) && (currentPrice <=? l prev) |} ]
        else []))%list)
    (combine recentCandles (skipn 2 recentCandles)).

Definition detectSwingPoints (candles : list Candle) (strength : nat)
  : list SwingPoint * list SwingPoint :=
  if (length candles <? strength * 2 + 1)%nat then ([], []) else
  let at_ i := nth i candles no_candle in
  let positions := seq strength (length candles - strength - strength) in
  let isHigh i :=
    forallb (fun j => negb ((h (at_ (i - j)%nat) >=? h (at_ i)) || (h (at_ (i + j)%nat) >=? h (at_ i))))
            (seq 1 strength) in
  let isLow i :=
    forallb (fun j => negb ((l (at_ (i - j)%nat) <=? l (at_ i)) || (l (at_ (i + j)%nat) <=? l (at_ i))))
            (seq 1 strength) in
  (flat_map (fun i => if isHigh i
                      then [ {| sp_date := t (at_ i); sp_price := h (at_ i);
                                sp_type := swing_high; sp_strength := strength |} ]
                      else []) positions,
   flat_map (fun i => if isLow i
                      then [ {| sp_date := t (at_ i); sp_price := l (at_ i);
                                sp_type := swing_low; sp_strength := strength |} ]
                      else []) positions).

Definition checkEntryConfirmation (candles : list Candle) : bool :=
  if (length candles <? 2)%nat then false else
  let current := last_candle candles in
  let previous := prev_candle candles in
  c current >? h previous.

Definition calculatePriceTargetsFromIndicators
    (candles : list Candle) (indicators : Indicators) : list PriceTarget :=
  if (length candles <? 20)%nat then [] else
  let currentPrice := c (last_candle candles) in
  let fvgTargets :=
    match fvgZones indicators with
    | Some zones =>
        flat_map
          (fun fvg =>
             if negb (isFilled fvg) then
               match fvg_type fvg with
               | bullish =>
                   if midpoint fvg >? currentPrice
                   then [ {| pt_type := pt_fvg; pt_price := midpoint fvg;
                             pt_description := "FVG 50% retracement";
                             pt_confidence := 80 |} ]
                   else []
               | bearish =>
                   if midpoint fvg <? currentPrice
                   then [ {| pt_type := pt_fvg; pt_price := midpoint fvg;
                             pt_description := "FVG 50% retracement";
                             pt_confidence := 80 |} ]
                   else []
               end
             else [])
          zones
    | None => []
    end in
  let swingTargets :=
    match swingHighs indicators with
    | Some highs =>
        flat_map
          (fun high =>
             if sp_price high >? currentPrice
             then [ {| pt_type := pt_swing; pt_price := sp_price high;
                       pt_description := "Previous swing high (" ++ sp_date high ++ ")";
                       pt_confidence := 70 |} ]
             else [])
          (slice_last 3 highs)
    | None => []
    end in
  let percentageTarget :=
    {| pt_type := pt_percentage; pt_price := currentPrice * (110 # 100);
       pt_description := "Maximum realistic target (~10%)";
       pt_confidence := 50 |} in
  let targets := (fvgTargets ++ swingTargets ++ [percentageTarget])%list in
  slice_to 5 (js_sort (fun a b => pt_price a - pt_price b) targets).

Inductive Direction := dir_bullish | dir_bearish.

Definition calculateLeoReversalScore
    (indicators : Indicators) (direction : Direction) (volumeStrength : Q) : Q :=
  let score := 70 in
  let score :=
    match bbPercentB indicators with
    | Some pb =>
        match direction with
        | dir_bullish => score + ((2 # 10) - pb) * 50
        | dir_bearish => score + (pb - (8 # 10)) * 50
        end
    | None => score
    end in
  let score :=
    match stochK indicators with
    | Some k =>
        match direction with
        | dir_bullish => score + (30 - k) / 2
        | dir_bearish => score + (k - 70) / 2
        end
    | None => score
    end in
  let score := score + volumeStrength * (2 # 10) in
  let score :=
    match entryConfirmed indicators with
    | Some true => score + 10
    | _ => score
    end in
  Qmin score 100.

Definition bullishPatterns : list CandlestickPattern :=
  [doji; hammer; long_lower_shadow; engulfing_bullish].

Definition bearishPatterns : list CandlestickPattern :=
  [gravestone_doji; shooting_star; engulfing_bearish].

Definition pattern_in (ps : list CandlestickPattern) (p : option CandlestickPattern) : bool :=
  match p with
  | Some p => existsb (CandlestickPattern_eqb p) ps
  | None => false
  end.

Definition shift_is (indicators : Indicators) (s : VolumeShift) : bool :=
  match volumeShift indicators, s with
  | Some buyer, buyer | Some seller, seller | Some neutral, neutral => true
  | _, _ => false
  end.

Definition classifyLeoReversal
    (candles : list Candle) (indicators : Indicators) (params : ScreenerParams)
  : option (SetupReason * Q) :=
  if negb (leo_mode_enabled params) then None else
  let bb := bbPercentB indicators in
  let stochK := stochK indicators in
  let pattern := candlestickPattern indicators in
  let volumeStrength := num_or (volumeShiftStrength indicators) 0 in
  let patternMatches :=
    (length (candlestick_patterns params) =? 0)%nat ||
    match pattern with
    | Some p => includes (candlestick_patterns params) (CandlestickPattern_name p)
    | None => false
    end in
  let bullishBlock :=
    match bb, stochK with
    | Some bb, Some stochK =>
        if (bb <? 2 # 10) && (stochK <? stoch_oversold_threshold params) then
          let hasBullishPattern := pattern_in bullishPatterns pattern in
          let byPattern :=
            if hasBullishPattern && patternMatches then
              if shift_is indicators buyer &&
                 (negb (require_volume_shift params) || (volumeStrength >? 30))
              then Some (Reversal_Accumulation,
                         calculateLeoReversalScore indicators dir_bullish volumeStrength)
              else if bb_bounce_enabled params
              then Some (BB_Lower_Bounce, 75 + (100 - bb * 100))
              else None
            else None in
          match byPattern with
          | Some r => Some r
          | None =>
              if stochK <? 20
              then Some (Stoch_Oversold_Reversal, 65 + (20 - stochK))
              else None
          end
        else None
    | _, _ => None
    end in
  match bullishBlock with
  | Some r => Some r
  | None =>
      match bb, stochK with
      | Some bb, Some stochK =>
          if (bb >? 8 # 10) && (stochK >? stoch_overbought_threshold params) then
            let hasBearishPattern := pattern_in bearishPatterns pattern in
            let byPattern :=
              if hasBearishPattern && patternMatches then
                if shift_is indicators seller &&
                   (negb (require_volume_shift params) || (volumeStrength >? 30))
                then Some (Reversal_Distribution,
                           calculateLeoReversalScore indicators dir_bearish volumeStrength)
                else if bb_bounce_enabled params
                then Some (BB_Upper_Reject, 75 + (bb - (8 # 10)) * 500)
                else None
              else None in
            match byPattern with
            | Some r => Some r
            | None =>
                if stochK >? 80
                then Some (Stoch_Overbought_Reversal, 65 + (stochK - 80))
                else None
            end
          else None
      | _, _ => None
      end
  end.

Definition is_true (o : option bool) : bool :=
  match o with
  | Some true => true
  | _ => false
  end.

Definition classifySetup
    (candles : list Candle) (indicators : Indicators) (params : ScreenerParams)
  : option (SetupReason * Q) :=
  match (if leo_mode_enabled params
         then classifyLeoReversal candles indicators params else None) with
  | Some leoResult => Some leoResult
  | None =>
      if isBreakout candles indicators
      then Some (Breakout, calculateBreakoutScore candles indicators) else
      if isMomentum candles indicators
      then Some (Momentum, calculateMomentumScore candles indicators) else
      if is_true (fibHit indicators) && is_true (reactionBullish indicators)
      then Some (Fib_Pullback, calculateFibPullbackScore candles indicators) else
      if isPullback candles indicators
      then Some (Pullback, calculatePullbackScore candles indicators) else
      if isConsolidation candles indicators
      then Some (Consolidation, calculateConsolidationScore candles indicators) else
      if isReversal candles indicators
      then Some (Reversal, calculateReversalScore candles indicators) else
      None
  end.

(** *** What the engine takes from its environment *)

Section Engine.

(** [Math.sqrt]. *)
Variable Math_sqrt : Q -> Q.

(** [new Date().getTime()], read as one instant for the whole run, and
    [new Date(s).getTime()], [None] standing for the NaN of an invalid
    date. *)
Variable now_ms : Q.
Variable Date_getTime : string -> option Q.

(** [String.prototype.toUpperCase]. *)
Variable toUpperCase : string -> string.

(** indexLists.ts: the constituent lists and [INDEX_CONSTITUENTS[idx]],
    [None] when [idx] is not one of the table's own keys. *)
Definition DOW_JONES : list string :=
  [ "AAPL"; "AMGN"; "AXP"; "BA"; "CAT"; "CRM"; "CSCO"; "CVX"; "DIS"; "DOW"; "GS"; "HD";
    "HON"; "IBM"; "INTC"; "JNJ"; "JPM"; "KO"; "MCD"; "MMM"; "MRK"; "MSFT"; "NKE"; "PG";
    "TRV"; "UNH"; "V"; "VZ"; "WBA"; "WMT" ].

Definition NASDAQ_100 : list string :=
  [ "AAPL"; "ABNB"; "ADBE"; "ADI"; "ADP"; "ADSK"; "AEP"; "AMAT"; "AMD"; "AMGN"; "AMZN";
    "ANSS"; "ARM"; "ASML"; "AVGO"; "AZN"; "BIIB"; "BKNG"; "BKR"; "CCEP"; "CDNS"; "CDW";
    "CEG"; "CHTR"; "CMCSA"; "COST"; "CPRT"; "CRWD"; "CSCO"; "CSGP"; "CSX"; "CTAS";
    "CTSH"; "DASH"; "DDOG"; "DLTR"; "DXCM"; "EA"; "EXC"; "FANG"; "FAST"; "FTNT"; "GEHC";
    "GFS"; "GILD"; "GOOG"; "GOOGL"; "HON"; "IDXX"; "ILMN"; "INTC"; "INTU"; "ISRG";
    "KDP"; "KHC"; "KLAC"; "LIN"; "LRCX"; "LULU"; "MAR"; "MCHP"; "MDB"; "MDLZ"; "MELI";
    "META"; "MNST"; "MRNA"; "MRVL"; "MSFT"; "MU"; "NFLX"; "NVDA"; "NXPI"; "ODFL"; "ON";
    "ORLY"; "PANW"; "PAYX"; "PCAR"; "PDD"; "PEP"; "PYPL"; "QCOM"; "REGN"; "ROP"; "ROST";
    "SBUX"; "SMCI"; "SNPS"; "TEAM"; "TMUS"; "TSLA"; "TTD"; "TTWO"; "TXN"; "VRSK";
    "VRTX"; "WBD"; "WDAY"; "ZS" ].

Definition SP500 : list string :=
  [ "AAPL"; "MSFT"; "AMZN"; "NVDA"; "GOOGL"; "META"; "BRK.B"; "LLY"; "AVGO"; "JPM";
    "TSLA"; "UNH"; "V"; "XOM"; "MA"; "JNJ"; "HD"; "PG"; "COST"; "MRK"; "ABBV"; "CVX";
    "CRM"; "NFLX"; "AMD"; "KO"; "PEP"; "BAC"; "ADBE"; "WMT"; "TMO"; "MCD"; "CSCO";
    "ACN"; "LIN"; "ABT"; "ORCL"; "DHR"; "QCOM"; "INTU"; "CMCSA"; "TXN"; "WFC"; "VZ";
    "DIS"; "PM"; "INTC"; "IBM"; "AMGN"; "NKE"; "CAT"; "RTX"; "GE"; "SPGI"; "HON";
    "ISRG"; "NOW"; "GS"; "NEE"; "BKNG"; "UNP"; "LOW"; "T"; "ELV"; "AMAT"; "PFE"; "AXP";
    "MS"; "SYK"; "BLK"; "VRTX"; "TJX"; "DE"; "SBUX"; "MDT"; "LRCX"; "PLD"; "MDLZ";
    "GILD"; "ADP"; "AMT"; "C"; "MMC"; "ADI"; "REGN"; "SCHW"; "CB"; "ETN"; "MO"; "CI";
    "ZTS"; "PANW"; "SO"; "DUK"; "CME"; "BDX"; "KLAC"; "SNPS"; "ICE"; "CDNS"; "PNC";
    "CL"; "EOG"; "EQIX"; "MU"; "SHW"; "MCO"; "AON"; "ITW"; "NOC"; "APD"; "FDX"; "USB";
    "HUM"; "CMG"; "TGT"; "GD"; "ORLY"; "MAR"; "CTAS"; "PGR"; "TDG"; "MSI"; "FCX"; "EMR";
    "AJG"; "PSA"; "NSC"; "SLB"; "CARR"; "WM"; "ROP"; "ECL"; "APH"; "COF"; "PCAR"; "AZO";
    "MCHP"; "ADSK"; "ROST"; "OXY"; "CCI"; "WELL"; "HLT"; "AFL"; "F"; "GM"; "CPRT";
    "AEP"; "MNST"; "JCI"; "MET"; "AIG"; "SRE"; "TFC"; "PSX"; "PAYX"; "MSCI"; "NXPI";
    "KMB"; "SPG"; "NEM"; "VLO"; "DHI"; "FTNT"; "DLR"; "TEL"; "HES"; "IDXX"; "O"; "GWW";
    "KMI"; "COR"; "D"; "A"; "BK"; "YUM"; "ODFL"; "CMI"; "ALL"; "KHC"; "IQV"; "PRU";
    "FAST"; "PCG"; "CTVA"; "GIS"; "LHX"; "OTIS"; "PEG"; "HSY"; "VRSK"; "EA"; "EW";
    "CTSH"; "ED"; "IT"; "XEL"; "VMC"; "HAL"; "GEHC"; "RCL"; "BIIB"; "CHTR"; "KR";
    "FANG"; "MTD"; "WAB"; "CBRE"; "EXC"; "ACGL"; "MLM"; "ON"; "EIX"; "DAL"; "PPG";
    "HWM"; "KEYS"; "DOW"; "AWK"; "WEC"; "EFX"; "ROK"; "ANSS"; "CDW"; "FTV"; "GRMN";
    "STZ"; "SYY"; "MTB"; "NUE"; "RMD"; "TROW"; "HPQ"; "WTW"; "ZBH"; "DTE"; "VICI";
    "GLW"; "BRO"; "AVB"; "CHD"; "PPL"; "AMP"; "ES"; "SBAC"; "LYB"; "FE"; "EQR"; "ULTA" ].

Definition RUSSELL_2000_SAMPLE : list string :=
  [ "AMC"; "GME"; "PLUG"; "SIRI"; "RIOT"; "MARA"; "SOFI"; "HOOD"; "LCID"; "RIVN";
    "PLTR"; "SNAP"; "RBLX"; "DKNG"; "COIN"; "AFRM"; "PATH"; "U"; "CRSP"; "BEAM"; "ROKU";
    "BILL"; "NET"; "SNOW"; "DOCU"; "ZM"; "OKTA"; "TWLO"; "SQ"; "SHOP"; "BYND"; "SPCE";
    "NKLA"; "LAZR"; "WKHS"; "GOEV"; "FSR"; "QS"; "BLNK"; "CHPT"; "STEM"; "RUN"; "NOVA";
    "ENPH"; "SEDG"; "FSLR"; "ARRY"; "JKS"; "MAXN"; "SPWR"; "WOLF"; "CRNC"; "DQ"; "CSIQ";
    "SOL"; "GEVO"; "BE"; "BLDP"; "PLUG"; "FCEL"; "APPS"; "CRSR"; "HEAR"; "GPRO"; "SONO";
    "OLED"; "MTCH"; "PINS"; "ETSY"; "W"; "CHWY"; "PTON"; "OPEN"; "CVNA"; "CARG"; "VRM";
    "SFT"; "RIDE"; "ARVL"; "REE"; "XPEV"; "LI"; "NIO"; "PSNY"; "FFIE"; "MULN"; "GOEV";
    "FSR"; "LCID"; "RIVN"; "JOBY"; "ACHR"; "EVTL"; "LILM"; "EVGO"; "CHPT"; "BLNK";
    "DCFC"; "AMPX"; "PTRA" ].

Definition INDEX_CONSTITUENTS (idx : string) : option (list string) :=
  if String.eqb idx "sp500" then Some SP500
  else if String.eqb idx "dowjones" then Some DOW_JONES
  else if String.eqb idx "nasdaq100" then Some NASDAQ_100
  else if String.eqb idx "russell2000" then Some RUSSELL_2000_SAMPLE
  else if String.eqb idx "*" then Some []
  else None.

Record Bands := {
  upper : Q;
  lower : Q;
  band_middle : Q
}.

Definition bollingerBands (closes : list Q) (period : nat) (stdDev : Q) : option Bands :=
  if (length closes <? period)%nat then None else
  match sma closes period with
  | None => None
  | Some middle =>
      let slice := slice_last period closes in
      let variance :=
        fold_left (fun s val => s + (val - middle) * (val - middle)) slice 0 / Qn period in
      let std := Math_sqrt variance in
      Some {| upper := middle + std * stdDev;
              lower := middle - std * stdDev;
              band_middle := middle |}
  end.

Record BandsExtended := {
  ext_upper : Q;
  ext_middle : Q;
  ext_lower : Q;
  percentB : Q
}.

Definition bollingerBandsExtended (closes : list Q) (period : nat) (stdDevMult : Q)
  : option BandsExtended :=
  if (length closes <? period)%nat then None else
  match sma closes period with
  | None => None
  | Some middle =>
      let slice := slice_last period closes in
      let variance :=
        fold_left (fun s val => s + (val - middle) * (val - middle)) slice 0 / Qn period in
      let std := Math_sqrt variance in
      let upper := middle + std * stdDevMult in
      let lower := middle - std * stdDevMult in
      let currentPrice := last closes 0 in
      let percentB :=
        if negb (upper =? lower) then (currentPrice - lower) / (upper - lower)
        else 5 # 10 in
      Some {| ext_upper := upper; ext_middle := middle; ext_lower := lower;
              percentB := percentB |}
  end.

Definition checkEarningsWarning (meta : TickerMeta) (warningDays : Q) : bool :=
  match str_or_null (nextEarningsDate meta) with
  | None => false
  | Some date =>
      match Date_getTime date with
      | None => false
      | Some earnings_ms =>
          let diffMs := earnings_ms - now_ms in
          let diffDays := diffMs / (1000 * 60 * 60 * 24) in
          (diffDays >=? 0) && (diffDays <=? warningDays)
      end
  end.

(** [isTickerInIndices]: calling [.includes] on a property of
    [INDEX_CONSTITUENTS] that is not an array throws a [TypeError]. *)
Fixpoint index_loop (upperTicker : string) (indexFilters : list string) : Exc bool :=
  match indexFilters with
  | [] => ret false
  | idx :: rest =>
      match INDEX_CONSTITUENTS idx with
      | None => throw IndexTypeError
      | Some tickers =>
          if includes tickers upperTicker then ret true
          else index_loop upperTicker rest
      end
  end.

Definition isTickerInIndices (ticker : string) (indexFilters : list string) : Exc bool :=
  if (length indexFilters =? 0)%nat then ret true else
  let upperTicker := toUpperCase ticker in
  index_loop upperTicker indexFilters.

Definition calculateIndicators
    (candles : list Candle) (params : ScreenerParams) (meta : option TickerMeta)
  : Indicators :=
  let closes := map c candles in
  let sma20 := sma closes 20 in
  let sma50 := sma closes 50 in
  let sma200 := sma closes 200 in
  let rsi14 := rsi closes 14 in
  let stochK := stochasticK candles 14 3 in
  let atr := atr candles (to_count (atr_lookback params)) in
  let adx14 := adx candles 14 in
  let volumes := map v candles in
  let avgVol20 := sma volumes 20 in
  let relVol :=
    if falsy avgVol20 then None
    else Some (v (last_candle candles) / num_or avgVol20 0) in
  let highs := map h candles in
  let lows := map l candles in
  let hh20 := Math_max (slice_last 20 highs) in
  let ll20 := Math_min (slice_last 20 lows) in
  let bb := bollingerBands closes 20 2 in
  let bbWidth :=
    match bb with
    | Some bb =>
        if falsy sma20 then None
        else Some ((upper bb - lower bb) / num_or sma20 0)
    | None => None
    end in
  let trend := determineTrend candles (to_count (trend_lookback params)) in
  let srDistancePct := calculateSRDistance candles (sr_proximity_pct params) in
  let fibResult := analyzeFibonacci candles (fib_reference params) (fib_zone params) in
  let leo := leo_mode_enabled params in
  let bbExt := if leo then bollingerBandsExtended closes 20 2 else None in
  let volumeAnalysis := analyzeVolumeShift candles 5 in
  let swingPoints := detectSwingPoints candles 3 in
  {| sma20 := sma20;
     sma50 := sma50;
     sma200 := sma200;
     rsi14 := rsi14;
     stochK := stochK;
     atr_ := atr;
     adx14 := adx14;
     avgVol20 := avgVol20;
     relVol := relVol;
     hh20 := Some hh20;
     ll20 := Some ll20;
     bbWidth := bbWidth;
     trend := Some trend;
     srDistancePct := srDistancePct;
     fibHit := Some (fst fibResult);
     reactionBullish := Some (snd fibResult);
     bbUpper := option_map ext_upper bbExt;
     bbLower := option_map ext_lower bbExt;
     bbMiddle := option_map ext_middle bbExt;
     bbPercentB := option_map percentB bbExt;
     stochD := None;
     candlestickPattern :=
       if leo then Some (detectCandlestickPattern candles atr) else None;
     volumeShift := if leo then Some (va_shift volumeAnalysis) else None;
     volumeShiftStrength := if leo then Some (va_strength volumeAnalysis) else None;
     fvgZones := if leo then Some (detectFVGs candles 20) else None;
     swingHighs := if leo then Some (fst swingPoints) else None;
     swingLows := if leo then Some (snd swingPoints) else None;
     earningsWithin30Days :=
       if leo then
         match meta with
         | Some meta => Some (checkEarningsWarning meta (earnings_warning_days params))
         | None => None
         end
       else None;
     entryConfirmed := if leo then Some (checkEntryConfirmation candles) else None |}.

Definition passesIndicatorFilters (indicators : Indicators) (params : ScreenerParams)
  : bool :=
  if match rsi14 indicators with
     | None => true
     | Some rsi14 => (rsi14 <? rsi_min params) || (rsi14 >? rsi_max params)
     end
  then false else
  if negb (leo_mode_enabled params) &&
     match stochK indicators with
     | None => true
     | Some stochK => (stochK <? stoch_k_min params) || (stochK >? stoch_k_max params)
     end
  then false else
  if negb (String.eqb (trend_type params) "*") &&
     negb (match trend indicators with
           | Some x => String.eqb (Trend_name x) (trend_type params)
           | None => false
           end)
  then false else
  if match adx14 indicators with
     | None => true
     | Some adx14 => adx14 <? adx_min params
     end
  then false else
  if negb (String.eqb (ma_cross params) "none") &&
     match sma20 indicators, sma50 indicators, sma200 indicators with
     | Some sma20, Some sma50, Some sma200 =>
         if String.eqb (ma_cross params) "20>50" then sma20 <=? sma50
         else if String.eqb (ma_cross params) "50>200" then sma50 <=? sma200
         else if String.eqb (ma_cross params) "20>200" then sma20 <=? sma200
         else false
     | _, _, _ => true
     end
  then false else
  if match srDistancePct indicators with
     | Some d => d >? sr_proximity_pct params
     | None => false
     end
  then false else
  true.

(** [obj[key]] among the object's own keys. *)
Fixpoint lookup {A : Type} (key : string) (entries : list (string * A)) : option A :=
  match entries with
  | [] => None
  | (k, a) :: rest => if String.eqb k key then Some a else lookup key rest
  end.

(** What [metadata[ticker]] holds for a name inherited from
    [Object.prototype]: a function, or the prototype itself for
    [__proto__].  It is truthy, and every property the engine reads from
    a [TickerMeta] ([company], [sector], [industry], [marketCap],
    [nextEarningsDate]) is [undefined] on it; [ticker] is never read. *)
Definition inherited_meta : TickerMeta :=
  {| ticker := ""; company := None; sector := None; industry := None;
     marketCap := None; nextEarningsDate := None; lastCompletedBar := None |}.

(** [metadata[ticker]]: an own key of the object, else a name it inherits
    from [Object.prototype]. *)
Definition metadata_at (metadata : list (string * TickerMeta)) (ticker : string)
  : option TickerMeta :=
  match lookup ticker metadata with
  | Some meta => Some meta
  | None =>
      if includes Object_prototype_keys ticker then Some inherited_meta else None
  end.

(** The Leo filters of the loop body: [true] when the ticker goes on. *)
Definition passesLeoFilters
    (ticker : string) (candles : list Candle) (params : ScreenerParams) : Exc bool :=
  if leo_mode_enabled params then
    if c (last_candle candles) <? min_price_leo params then ret false else
    if (0 <? length (index_filters params))%nat then
      inIndices <- isTickerInIndices ticker (index_filters params) ;;
      ret inIndices
    else ret true
  else ret true.

(** One turn of the loop over [Object.entries(timeseries)]: [None] is a
    [continue], [Some] the analysis pushed. *)
Definition analyzeTicker
    (params : ScreenerParams) (metadata : list (string * TickerMeta))
    (entry : string * list Candle) : Exc (option StockAnalysis) :=
  let '(ticker, candles) := entry in
  match metadata_at metadata ticker with
  | None => ret None
  | Some meta =>
      if len candles <? minBars FIXED_FILTERS then ret None else
      if negb (passesFixedFilters candles meta) then ret None else
      if negb (passesUserFilters meta params) then ret None else
      leoOk <- passesLeoFilters ticker candles params ;;
      if negb leoOk then ret None else
      let indicators := calculateIndicators candles params (Some meta) in
      if negb (passesIndicatorFilters indicators params) then ret None else
      match classifySetup candles indicators params with
      | None => ret None
      | Some (reason, score) =>
          ret (Some {| sa_ticker := ticker; sa_meta := meta; sa_candles := candles;
                       sa_indicators := indicators;
                       setupReason := reason; score := score |})
      end
  end.

Fixpoint analyzeAll
    (params : ScreenerParams) (metadata : list (string * TickerMeta))
    (entries : list (string * list Candle)) : Exc (list StockAnalysis) :=
  match entries with
  | [] => ret []
  | entry :: rest =>
      analysis <- analyzeTicker params metadata entry ;;
      analyses <- analyzeAll params metadata rest ;;
      ret (match analysis with
           | Some a => a :: analyses
           | None => analyses
           end)
  end.

(** [setupGroups]: twelve empty arrays, then one [push] per analysis. *)
Definition SetupGroups : Type := SetupReason -> list StockAnalysis.

Definition emptyGroups : SetupGroups := fun _ => [].

Definition push_group (groups : SetupGroups) (analysis : StockAnalysis) : SetupGroups :=
  fun reason =>
    if SetupReason_eqb reason (setupReason analysis)
    then (groups reason ++ [analysis])%list
    else groups reason.

Definition groupAnalyses (analyses : list StockAnalysis) : SetupGroups :=
  fold_left push_group analyses emptyGroups.

Definition sortGroups (groups : SetupGroups) : SetupGroups :=
  fun reason => js_sort (fun a b => score b - score a) (groups reason).

Definition leoPriorityOrder : list SetupReason :=
  [ Reversal_Accumulation; BB_Lower_Bounce; Stoch_Oversold_Reversal;
    Reversal_Distribution; BB_Upper_Reject; Stoch_Overbought_Reversal;
    Breakout; Momentum; Pullback; Fib_Pullback; Consolidation; Reversal ].

Definition standardPriorityOrder : list SetupReason :=
  [ Breakout; Momentum; Pullback; Fib_Pullback; Consolidation; Reversal;
    Reversal_Accumulation; Reversal_Distribution; BB_Lower_Bounce;
    BB_Upper_Reject; Stoch_Oversold_Reversal; Stoch_Overbought_Reversal ].

Definition priorityOrder (params : ScreenerParams) : list SetupReason :=
  if leo_mode_enabled params then leoPriorityOrder else standardPriorityOrder.

(** The merge loop, from a given [remaining]. *)
Fixpoint mergeGroups
    (setupGroups : SetupGroups) (order : list SetupReason) (remaining : Q)
  : list StockAnalysis :=
  match order with
  | [] => []
  | reason :: rest =>
      let group := setupGroups reason in
      let take := Qmin (len group) remaining in
      let remaining := remaining - take in
      (slice_to take group ++
       (if remaining <=? 0 then [] else mergeGroups setupGroups rest remaining))%list
  end.

Definition finalPicks (params : ScreenerParams) (analyses : list StockAnalysis)
  : list StockAnalysis :=
  mergeGroups (sortGroups (groupAnalyses analyses)) (priorityOrder params)
              (max_results params).

Definition toPick (params : ScreenerParams) (analysis : StockAnalysis) : ClassifiedPick :=
  let ind := sa_indicators analysis in
  let lastCandle := last_candle (sa_candles analysis) in
  let bbPosition :=
    match bbPercentB ind with
    | Some pb =>
        if pb <? 1 # 10 then Some pos_lower_bounce
        else if pb >? 9 # 10 then Some pos_upper_reject
        else Some pos_middle
    | None => None
    end in
  let stochPosition :=
    match stochK ind with
    | Some k =>
        if k <? stoch_oversold_threshold params then Some oversold
        else if k >? stoch_overbought_threshold params then Some overbought
        else Some stoch_neutral
    | None => None
    end in
  {| Ticker := sa_ticker analysis;
     Company := str_or_null (company (sa_meta analysis));
     Price := c lastCandle;
     MarketCap := num_or_null (marketCap (sa_meta analysis));
     Volume := v lastCandle;
     RelativeVolume := num_or (relVol ind) 0;
     RSI := num_or (rsi14 ind) 0;
     Sector := str_or_null (sector (sa_meta analysis));
     Trend_ := match trend ind with Some x => x | None => sideways end;
     NextEarningsDate := str_or_null (nextEarningsDate (sa_meta analysis));
     SelectionReason := setupReason analysis;
     CandlestickPattern_ := candlestickPattern ind;
     VolumeShift_ := volumeShift ind;
     VolumeShiftStrength := num_or_null (volumeShiftStrength ind);
     BBPosition_ := bbPosition;
     BBPercentB := num_or_null (bbPercentB ind);
     StochPosition_ := stochPosition;
     StochK := num_or_null (stochK ind);
     EarningsWarning := bool_or_null (earningsWithin30Days ind);
     PriceTargets := Some (calculatePriceTargetsFromIndicators (sa_candles analysis) ind);
     EntryConfirmed := bool_or_null (entryConfirmed ind);
     ReversalTimeline := Some "3-5 candles" |}.

Definition runEngine (input : EngineInput) : Exc EngineOutput :=
  _ <- assertFixedFilters ;;
  params <- validateParams (params input) ;;
  let timeseries := match timeseries input with Some x => x | None => [] end in
  let metadata := match metadata input with Some x => x | None => [] end in
  analyses <- analyzeAll params metadata timeseries ;;
  let finalPicks := finalPicks params analyses in
  ret {| out_as_of_date := as_of_date params;
         picks := map (toPick params) finalPicks |}.

(** ** The claims' own words, as definitions *)

(** The members of one setup group, in discovery order. *)
Definition group_members (reason : SetupReason) (analyses : list StockAnalysis)
  : list StockAnalysis :=
  filter (fun a => SetupReason_eqb reason (setupReason a)) analyses.

(** A group's members sorted by score, highest first. *)
Definition sorted_members (reason : SetupReason) (analyses : list StockAnalysis)
  : list StockAnalysis :=
  js_sort (fun a b => score b - score a) (group_members reason analyses).

(** Walking the groups in priority order with a running count: a group
    that fits under the cap is appended whole; the first group that would
    exceed the cap is cut to the remaining slots and the walk stops. *)
Fixpoint walk_groups {A : Type} (cap count : nat) (groups : list (list A)) : list A :=
  match groups with
  | [] => []
  | group :: rest =>
      if (count + length group <=? cap)%nat
      then (group ++ walk_groups cap (count + length group) rest)%list
      else firstn (cap - count) group
  end.

Definition isLeoSetup (reason : SetupReason) : bool :=
  match reason with
  | Reversal_Accumulation | Reversal_Distribution | BB_Lower_Bounce
  | BB_Upper_Reject | Stoch_Oversold_Reversal | Stoch_Overbought_Reversal => true
  | _ => false
  end.

(** The setup predicates as an ordered list of predicate and outcome,
    Leo predicates first when Leo mode is enabled. *)
Definition leo_rules (indicators : Indicators) (params : ScreenerParams)
  : list (bool * (SetupReason * Q)) :=
  match bbPercentB indicators, stochK indicators with
  | Some bb, Some k =>
      let volumeStrength := num_or (volumeShiftStrength indicators) 0 in
      let pattern := candlestickPattern indicators in
      let allowed :=
        match candlestick_patterns params with
        | [] => true
        | _ =>
            match pattern with
            | Some p => includes (candlestick_patterns params) (CandlestickPattern_name p)
            | None => false
            end
        end in
      let volume_ok := negb (require_volume_shift params) || (volumeStrength >? 30) in
      let bullish_zone := (bb <? 2 # 10) && (k <? stoch_oversold_threshold params) in
      let bearish_zone := (bb >? 8 # 10) && (k >? stoch_overbought_threshold params) in
      let bullish_pattern := pattern_in bullishPatterns pattern && allowed in
      let bearish_pattern := pattern_in bearishPatterns pattern && allowed in
      [ (bullish_zone && bullish_pattern && shift_is indicators buyer && volume_ok,
         (Reversal_Accumulation,
          calculateLeoReversalScore indicators dir_bullish volumeStrength));
        (bullish_zone && bullish_pattern && bb_bounce_enabled params,
         (BB_Lower_Bounce, 75 + (100 - bb * 100)));
        (bullish_zone && (k <? 20),
         (Stoch_Oversold_Reversal, 65 + (20 - k)));
        (bearish_zone && bearish_pattern && shift_is indicators seller && volume_ok,
         (Reversal_Distribution,
          calculateLeoReversalScore indicators dir_bearish volumeStrength));
        (bearish_zone && bearish_pattern && bb_bounce_enabled params,
         (BB_Upper_Reject, 75 + (bb - (8 # 10)) * 500));
        (bearish_zone && (k >? 80),
         (Stoch_Overbought_Reversal, 65 + (k - 80))) ]
  | _, _ => []
  end.

Definition standard_rules (candles : list Candle) (indicators : Indicators)
  : list (bool * (SetupReason * Q)) :=
  [ (isBreakout candles indicators,
     (Breakout, calculateBreakoutScore candles indicators));
    (isMomentum candles indicators,
     (Momentum, calculateMomentumScore candles indicators));
    (is_true (fibHit indicators) && is_true (reactionBullish indicators),
     (Fib_Pullback, calculateFibPullbackScore candles indicators));
    (isPullback candles indicators,
     (Pullback, calculatePullbackScore candles indicators));
    (isConsolidation candles indicators,
     (Consolidation, calculateConsolidationScore candles indicators));
    (isReversal candles indicators,
     (Reversal, calculateReversalScore candles indicators)) ].

Definition setup_rules
    (candles : list Candle) (indicators : Indicators) (params : ScreenerParams)
  : list (bool * (SetupReason * Q)) :=
  ((if leo_mode_enabled params then leo_rules indicators params else []) ++
   standard_rules candles indicators)%list.

(** The outcome of the first rule whose predicate holds. *)
Definition first_match {A : Type} (rules : list (bool * A)) : option A :=
  option_map snd (find fst rules).

(** The outcomes of all the rules whose predicate holds. *)
Definition all_matches {A : Type} (rules : list (bool * A)) : list A :=
  map snd (filter fst rules).

(** Price targets, candidate by candidate. *)
Definition fvg_target (fvg : FVGZone) : PriceTarget :=
  {| pt_type := pt_fvg; pt_price := midpoint fvg;
     pt_description := "FVG 50% retracement"; pt_confidence := 80 |}.

Definition swing_target (high : SwingPoint) : PriceTarget :=
  {| pt_type := pt_swing; pt_price := sp_price high;
     pt_description := "Previous swing high (" ++ sp_date high ++ ")";
     pt_confidence := 70 |}.

Definition percentage_target (currentPrice : Q) : PriceTarget :=
  {| pt_type := pt_percentage; pt_price := currentPrice * (110 # 100);
     pt_description := "Maximum realistic target (~10%)"; pt_confidence := 50 |}.

(** An unfilled bullish zone above the price or an unfilled bearish zone
    below it. *)
Definition fvg_eligible (currentPrice : Q) (fvg : FVGZone) : bool :=
  negb (isFilled fvg) &&
  match fvg_type fvg with
  | bullish => midpoint fvg >? currentPrice
  | bearish => midpoint fvg <? currentPrice
  end.

Definition above (currentPrice : Q) (high : SwingPoint) : bool :=
  sp_price high >? currentPrice.

Definition by_price (a b : PriceTarget) : Q := pt_price a - pt_price b.

Definition zones_of (indicators : Indicators) : list FVGZone :=
  match fvgZones indicators with Some zones => zones | None => [] end.

Definition highs_of (indicators : Indicators) : list SwingPoint :=
  match swingHighs indicators with Some highs => highs | None => [] end.

(** The list as the claim words it: the swing targets are the three most
    recent of the swing highs that lie above the current price. *)
Definition price_targets_three_above
    (candles : list Candle) (indicators : Indicators) : list PriceTarget :=
  let currentPrice := c (last_candle candles) in
  firstn 5
    (js_sort by_price
       (map fvg_target (filter (fvg_eligible currentPrice) (zones_of indicators)) ++
        map swing_target
          (slice_last 3 (filter (above currentPrice) (highs_of indicators))) ++
        [percentage_target currentPrice])%list).

(** The list with the swing targets read the other way round: those of
    the three most recent swing highs that lie above the current price. *)
Definition price_targets_of_last_three
    (candles : list Candle) (indicators : Indicators) : list PriceTarget :=
  let currentPrice := c (last_candle candles) in
  firstn 5
    (js_sort by_price
       (map fvg_target (filter (fvg_eligible currentPrice) (zones_of indicators)) ++
        map swing_target
          (filter (above currentPrice) (slice_last 3 (highs_of indicators))) ++
        [percentage_target currentPrice])%list).

(** Malformed parameters, as the claim lists them. *)
Definition bounds_malformed (lo hi : Q) : Prop :=
  ~ (0 <= lo /\ lo <= 100) \/ ~ (0 <= hi /\ hi <= 100) \/ hi < lo.

Definition numbers_malformed (p : ScreenerParams) : Prop :=
  market_cap_max p < market_cap_min p \/
  matches_iso_date (as_of_date p) = false \/
  bounds_malformed (rsi_min p) (rsi_max p) \/
  bounds_malformed (stoch_k_min p) (stoch_k_max p) \/
  trend_lookback p <= 0 \/
  atr_lookback p <= 0 \/
  max_results p <= 0.

Definition timeframes : list string := ["daily"; "weekly"; "monthly"].
Definition index_names : list string := ["sp500"; "dowjones"; "nasdaq100"; "russell2000"].
Definition pattern_names : list string :=
  map CandlestickPattern_name
      [doji; hammer; long_lower_shadow; gravestone_doji; shooting_star;
       engulfing_bullish; engulfing_bearish; none].

(** A field typed as a union of literals holds a string outside it. *)
Definition invalid_enum (p : ScreenerParams) : Prop :=
  ~ In (ma_cross p) maSet \/
  ~ In (trend_type p) trendSet \/
  ~ In (fib_reference p) fibRefSet \/
  ~ In (fib_zone p) fibZoneSet \/
  ~ In (timeframe p) timeframes \/
  (exists x, In x (index_filters p) /\ ~ In x index_names) \/
  (exists x, In x (candlestick_patterns p) /\ ~ In x pattern_names).

Definition malformed (p : ScreenerParams) : Prop :=
  numbers_malformed p \/ invalid_enum p.

(** A string the enum guard of [validateParams] turns down: neither a
    literal of the union nor a name inherited from [Object.prototype]. *)
Definition unknown_key (s : string) (literals : list string) : Prop :=
  ~ In s literals /\ ~ In s Object_prototype_keys.

Definition guarded_enum_invalid (p : ScreenerParams) : Prop :=
  unknown_key (ma_cross p) maSet \/
  unknown_key (trend_type p) trendSet \/
  unknown_key (fib_reference p) fibRefSet \/
  unknown_key (fib_zone p) fibZoneSet.

(** ** Concrete inputs *)

Definition flat_bar (vol : Q) : Candle :=
  {| t := "2025-10-30"; o := 100; h := 100; l := 100; c := 100; v := vol |}.

Definition rising_bar (close vol : Q) : Candle :=
  {| t := "2025-10-31"; o := 100; h := close; l := 100; c := close; v := vol |}.

(** 260 flat bars, then a bar closing 5% above the prior 20-bar high on
    twice the volume. *)
Definition breakout_candles : list Candle :=
  (repeat (flat_bar 1500000) 260 ++ [rising_bar 105 3000000])%list.

(** Every bar on 1,000,000 shares: the 20-bar average volume is exactly
    1,000,000 and the relative volume exactly 1. *)
Definition boundary_candles : list Candle :=
  (repeat (flat_bar 1000000) 260 ++ [rising_bar 106 1000000])%list.

(** The 20-bar average volume is exactly 1,000,000 and the last volume
    lies above it. *)
Definition avg_boundary_candles : list Candle :=
  (repeat (flat_bar 990000) 260 ++ [rising_bar 106 1190000])%list.

(** The last close is exactly 30. *)
Definition price_boundary_candles : list Candle :=
  (repeat (flat_bar 1500000) 260 ++
   [ {| t := "2025-10-31"; o := 29; h := 30; l := 29; c := 30; v := 3000000 |} ])%list.

Definition flat_meta : TickerMeta :=
  {| ticker := "FLAT"; company := Some "Flat Corp";
     sector := Some "Industrials"; industry := Some "Machinery";
     marketCap := Some 25000000000;
     nextEarningsDate := Some "2025-12-12"; lastCompletedBar := Some "2025-10-31" |}.

Definition default_params : ScreenerParams := DEFAULT_PARAMS "2025-10-31".

Definition input_of (p : ScreenerParams) (candles : list Candle) : EngineInput :=
  {| params := p;
     timeseries := Some [("FLAT", candles)];
     metadata := Some [("FLAT", flat_meta)] |}.

(** [{ ...p, leo_mode_enabled, ma_cross, timeframe }] *)
Definition override (p : ScreenerParams) (leo : bool) (ma tf : string) : ScreenerParams :=
  {| user_sector := user_sector p;
     user_industry := user_industry p;
     market_cap_min := market_cap_min p;
     market_cap_max := market_cap_max p;
     rsi_min := rsi_min p;
     rsi_max := rsi_max p;
     stoch_k_min := stoch_k_min p;
     stoch_k_max := stoch_k_max p;
     trend_type := trend_type p;
     trend_lookback := trend_lookback p;
     ma_cross := ma;
     sr_proximity_pct := sr_proximity_pct p;
     adx_min := adx_min p;
     atr_lookback := atr_lookback p;
     fib_reference := fib_reference p;
     fib_zone := fib_zone p;
     max_results := max_results p;
     as_of_date := as_of_date p;
     leo_mode_enabled := leo;
     index_filters := index_filters p;
     min_price_leo := min_price_leo p;
     candlestick_patterns := candlestick_patterns p;
     require_volume_shift := require_volume_shift p;
     bb_bounce_enabled := bb_bounce_enabled p;
     stoch_oversold_threshold := stoch_oversold_threshold p;
     stoch_overbought_threshold := stoch_overbought_threshold p;
     earnings_warning_days := earnings_warning_days p;
     timeframe := tf |}.

(** Default parameters with a timeframe outside the union. *)
Definition hourly_params : ScreenerParams := override default_params false "none" "hourly".

(** Default parameters with an inherited property name as [ma_cross]. *)
Definition toString_params : ScreenerParams :=
  override default_params false "toString" "weekly".

(** Default parameters with Leo mode switched on. *)
Definition leo_params : ScreenerParams := override default_params true "none" "weekly".

(** 260 flat bars, then a bar closing 5% above the prior 20-bar high on
    twice the 20-bar average volume, the bar itself counted in. *)
Definition breakout_candles_avg20 : list Candle :=
  (repeat (flat_bar 1800000) 260 ++ [rising_bar 105 3800000])%list.

(** Bars with swing highs of 120, 90, 90 and 90, oldest first, and a last
    close of 100. *)
Definition swing_bar (high : Q) : Candle :=
  {| t := "2025-10-01"; o := 45; h := high; l := 40; c := 45; v := 1000000 |}.

Definition swing_candles : list Candle :=
  (map swing_bar [50; 50; 50; 120; 50; 50; 50; 50; 50; 50; 90; 50; 50; 50;
                  50; 50; 50; 90; 50; 50; 50; 50; 50; 50; 90; 50; 50; 50] ++
   [ {| t := "2025-10-31"; o := 45; h := 100; l := 40; c := 100; v := 1000000 |} ])%list.

(** An environment to run the engine in: a square root to six decimals,
    midnight UTC of 2025-10-31 as the clock, the one date the sample
    metadata uses, and upper-casing of the letters a to z. *)
Definition sqrt_micro (x : Q) : Q :=
  inject_Z (Z.sqrt (Qfloor (x * 1000000000000))) / 1000000.

Definition sample_now : Q := 1761868800000.

Definition sample_dates (s : string) : option Q :=
  if String.eqb s "2025-12-12" then Some 1765497600000 else None.

Definition upper_ascii (a : ascii) : ascii :=
  let n := nat_of_ascii a in
  if ((97 <=? n) && (n <=? 122))%nat then ascii_of_nat (n - 32) else a.

Definition upper_letters (s : string) : string :=
  string_of_list_ascii (map upper_ascii (list_ascii_of_string s)).

(** Indicators of the Leo accumulation scenario: a hammer at %B 0.05 and
    %K 10 with a buyer volume shift of strength 60. *)
Definition accumulation_indicators : Indicators :=
  {| sma20 := Some 100; sma50 := Some 101; sma200 := Some 102;
     rsi14 := Some 28; stochK := Some 10; atr_ := Some 2; adx14 := Some 30;
     avgVol20 := Some 1500000; relVol := Some (12 # 10);
     hh20 := Some 104; ll20 := Some 94; bbWidth := Some (8 # 100);
     trend := Some down; srDistancePct := Some 1;
     fibHit := Some false; reactionBullish := Some false;
     bbUpper := Some 104; bbLower := Some 96; bbMiddle := Some 100;
     bbPercentB := Some (5 # 100); stochD := None;
     candlestickPattern := Some hammer;
     volumeShift := Some buyer; volumeShiftStrength := Some 60;
     fvgZones := Some []; swingHighs := Some []; swingLows := Some [];
     earningsWithin30Days := Some false; entryConfirmed := Some false |}.

(** Default parameters with a [ma_cross] outside its union. *)
Definition bad_ma_params : ScreenerParams := override default_params false "21>50" "weekly".

(** A Leo series: 240 flat bars at 200, nineteen bars each closing 5
    lower than the one before on a small up-candle, and a final hammer
    at 100. *)
Definition level_bar (price vol : Q) : Candle :=
  {| t := "2025-09-01"; o := price; h := price; l := price; c := price; v := vol |}.

Definition falling_bar (k : nat) : Candle :=
  let close := 200 - 5 * Qn k in
  {| t := "2025-10-01"; o := close - 1; h := close; l := close - 1; c := close;
     v := 1500000 |}.

Definition hammer_bar : Candle :=
  {| t := "2025-10-31"; o := 992 # 10; h := 100; l := 975 # 10; c := 100; v := 2000000 |}.

Definition hammer_candles : list Candle :=
  (repeat (level_bar 200 1500000) 240 ++ map falling_bar (seq 1 19) ++ [hammer_bar])%list.

Definition leo_input : EngineInput :=
  {| params := leo_params;
     timeseries := Some [("aapl", hammer_candles)];
     metadata := Some [("aapl", flat_meta)] |}.

(** [{ ...p, market_cap_min, max_results }] *)
Definition with_limits (p : ScreenerParams) (capMin maxResults : Q) : ScreenerParams :=
  {| user_sector := user_sector p;
     user_industry := user_industry p;
     market_cap_min := capMin;
     market_cap_max := market_cap_max p;
     rsi_min := rsi_min p;
     rsi_max := rsi_max p;
     stoch_k_min := stoch_k_min p;
     stoch_k_max := stoch_k_max p;
     trend_type := trend_type p;
     trend_lookback := trend_lookback p;
     ma_cross := ma_cross p;
     sr_proximity_pct := sr_proximity_pct p;
     adx_min := adx_min p;
     atr_lookback := atr_lookback p;
     fib_reference := fib_reference p;
     fib_zone := fib_zone p;
     max_results := maxResults;
     as_of_date := as_of_date p;
     leo_mode_enabled := leo_mode_enabled p;
     index_filters := index_filters p;
     min_price_leo := min_price_leo p;
     candlestick_patterns := candlestick_patterns p;
     require_volume_shift := require_volume_shift p;
     bb_bounce_enabled := bb_bounce_enabled p;
     stoch_oversold_threshold := stoch_oversold_threshold p;
     stoch_overbought_threshold := stoch_overbought_threshold p;
     earnings_warning_days := earnings_warning_days p;
     timeframe := timeframe p |}.

(** 259 flat bars, a bar that falls to [low], and a bar that closes at
    106: a momentum series whose score grows with [low]. *)
Definition dip_candles (low : Q) : list Candle :=
  (repeat (flat_bar 1000000) 259 ++
   [ {| t := "2025-10-30"; o := 100; h := 100; l := low; c := low; v := 1000000 |};
     {| t := "2025-10-31"; o := low; h := 106; l := low; c := 106; v := 1000000 |} ])%list.

Definition meta_of (name : string) : TickerMeta :=
  {| ticker := name; company := None;
     sector := Some "Industrials"; industry := Some "Machinery";
     marketCap := Some 25000000000;
     nextEarningsDate := None; lastCompletedBar := Some "2025-10-31" |}.

(** Four tickers: three momentum series of different scores, entered in
    neither order of score, and one Fibonacci pullback between them. *)
Definition ranked_timeseries : list (string * list Candle) :=
  [ ("DIP", dip_candles 98); ("FIB", breakout_candles);
    ("TOP", boundary_candles); ("MID", dip_candles 99) ].

Definition ranked_metadata : list (string * TickerMeta) :=
  map (fun name => (name, meta_of name)) ["DIP"; "FIB"; "TOP"; "MID"].

Definition ranked_input : EngineInput :=
  {| params := default_params;
     timeseries := Some ranked_timeseries;
     metadata := Some ranked_metadata |}.

(** The same four tickers with room for two picks. *)
Definition capped_params : ScreenerParams := with_limits default_params 2000000000 2.

Definition capped_input : EngineInput :=
  {| params := capped_params;
     timeseries := Some ranked_timeseries;
     metadata := Some ranked_metadata |}.

(** The swing series behind 250 bars without a swing, long enough for
    the engine to classify it in Leo mode. *)
Definition classified_swing_candles : list Candle :=
  (repeat (swing_bar 50) 250 ++ swing_candles)%list.

Definition swing_input : EngineInput :=
  {| params := leo_params;
     timeseries := Some [("aapl", classified_swing_candles)];
     metadata := Some [("aapl", meta_of "aapl")] |}.

(** A ticker named like a member of [Object.prototype], without any
    metadata, under a market-cap floor of 0. *)
Definition inherited_input : EngineInput :=
  {| params := with_limits default_params 0 50;
     timeseries := Some [("constructor", boundary_candles)];
     metadata := None |}.

(** ** Orders and views used in the statements *)

(** Ascending order of a key. *)
Definition key_le {A : Type} (key : A -> Q) (x y : A) : Prop := key x <= key y.

(** Later members of a sorted group never score higher. *)
Definition never_higher (a b : StockAnalysis) : Prop := score b <= score a.

(** Picks of one group never score higher further down the list. *)
Definition group_ordered (a b : StockAnalysis) : Prop :=
  setupReason a = setupReason b -> score b <= score a.

Definition price_le (a b : PriceTarget) : Prop := pt_price a <= pt_price b.

(** The conditions [validateParams] throws on, in the order it tests
    them. *)
Definition guard_conditions (m : ScreenerParams) : list (bool * EngineError) :=
  [ (negb (matches_iso_date (as_of_date m)), AsOfDateFormat);
    (market_cap_min m >? market_cap_max m, MarketCapBounds);
    (negb (inRange (rsi_min m) 0 100) || negb (inRange (rsi_max m) 0 100) ||
     (rsi_min m >? rsi_max m), RsiBounds);
    (negb (inRange (stoch_k_min m) 0 100) || negb (inRange (stoch_k_max m) 0 100) ||
     (stoch_k_min m >? stoch_k_max m), StochBounds);
    (negb (isInteger (trend_lookback m)) || (trend_lookback m <=? 0), TrendLookback);
    (negb (isInteger (max_results m)) || (max_results m <=? 0), MaxResults);
    (negb (isFinite (sr_proximity_pct m)) || (sr_proximity_pct m <? 0), SrProximity);
    (negb (isFinite (adx_min m)) || (adx_min m <? 0), AdxMin);
    (negb (isFinite (atr_lookback m)) || (atr_lookback m <=? 0) ||
     negb (isInteger (atr_lookback m)), AtrLookback);
    (negb (js_in (ma_cross m) maSet), MaCrossEnum);
    (negb (js_in (trend_type m) trendSet), TrendTypeEnum);
    (negb (js_in (fib_reference m) fibRefSet), FibReferenceEnum);
    (negb (js_in (fib_zone m) fibZoneSet), FibZoneEnum) ].

Definition entries_of (input : EngineInput) : list (string * list Candle) :=
  match timeseries input with Some x => x | None => [] end.

Definition metadata_of (input : EngineInput) : list (string * TickerMeta) :=
  match metadata input with Some x => x | None => [] end.

Definition outcome (r : Exc EngineOutput) : Exc (list (string * SetupReason)) :=
  match r with
  | inl e => inl e
  | inr out => inr (map (fun pick => (Ticker pick, SelectionReason pick)) (picks out))
  end.

(** ** indexLists.ts, the list functions *)

(** [new Set(xs)], held in insertion order, and [set.add(x)]. *)
Definition set_add (s : list string) (x : string) : list string :=
  if includes s x then s else (s ++ [x])%list.

Definition Set_of (xs : list string) : list string := fold_left set_add xs [].

(** [filterByIndex]: [new Set(undefined)] is the empty set, while a
    property inherited from [Object.prototype] is not iterable. *)
Definition filterByIndex (tickers : list string) (indexFilter : string)
  : Exc (list string) :=
  if String.eqb indexFilter "*" then ret tickers else
  match INDEX_CONSTITUENTS indexFilter with
  | Some constituents =>
      let indexTickers := Set_of constituents in
      ret (filter (fun ticker => includes indexTickers (toUpperCase ticker)) tickers)
  | None =>
      if includes Object_prototype_keys indexFilter then throw IndexTypeError
      else ret (filter (fun _ => false) tickers)
  end.

(** The loop of [filterByIndices] that fills [combinedTickers]. *)
Fixpoint combine_indices (combinedTickers : list string) (indexFilters : list string)
  : Exc (list string) :=
  match indexFilters with
  | [] => ret combinedTickers
  | idx :: rest =>
      match INDEX_CONSTITUENTS idx with
      | None => throw IndexTypeError
      | Some constituents =>
          combine_indices (fold_left set_add constituents combinedTickers) rest
      end
  end.

Definition filterByIndices (tickers : list string) (indexFilters : list string)
  : Exc (list string) :=
  if (length indexFilters =? 0)%nat then ret tickers else
  combinedTickers <- combine_indices [] indexFilters ;;
  ret (filter (fun ticker => includes combinedTickers (toUpperCase ticker)) tickers).

Definition getIndexTickers (indexFilter : string) : Exc (list string) :=
  if String.eqb indexFilter "*" then
    ret (Set_of (DOW_JONES ++ NASDAQ_100 ++ SP500 ++ RUSSELL_2000_SAMPLE)%list)
  else
    match INDEX_CONSTITUENTS indexFilter with
    | Some constituents => ret constituents
    | None => throw IndexTypeError
    end.

(** What [isTickerInIndices] answers when it does not throw. *)
Definition in_some_index (ticker : string) (indexFilters : list string) : bool :=
  match isTickerInIndices ticker indexFilters with
  | inr answer => answer
  | inl _ => false
  end.

(** ** Comparisons and extrema *)

Lemma Qlt_bool_iff (x y : Q) : (x <? y) = true <-> x < y.
Proof.
  unfold Qlt_bool. rewrite negb_true_iff. split; intro H.
  - apply Qnot_le_lt. intro Hle. apply Qle_bool_iff in Hle. congruence.
  - destruct (Qle_bool y x) eqn:E; [|reflexivity].
    apply Qle_bool_iff in E. exfalso. exact (Qlt_not_le _ _ H E).
Qed.

Lemma Qlt_bool_false_iff (x y : Q) : (x <? y) = false <-> y <= x.
Proof.
  unfold Qlt_bool. rewrite negb_false_iff. apply Qle_bool_iff.
Qed.

Lemma Qle_bool_false_iff (x y : Q) : (x <=? y) = false <-> y < x.
Proof.
  rewrite <- Qlt_bool_iff. unfold Qlt_bool.
  destruct (Qle_bool x y); simpl; split; congruence.
Qed.

Lemma fold_max_ge_init (xs : list Q) (a : Q) : a <= fold_left Qmax xs a.
Proof.
  revert a. induction xs as [|x xs IH]; intro a; simpl.
  - apply Qle_refl.
  - eapply Qle_trans; [apply (Q.le_max_l a x) | apply IH].
Qed.

Lemma fold_max_ge_in (xs : list Q) (a x : Q) : In x xs -> x <= fold_left Qmax xs a.
Proof.
  revert a. induction xs as [|y xs IH]; intros a Hin; simpl in *.
  - contradiction.
  - destruct Hin as [-> | Hin].
    + eapply Qle_trans; [apply (Q.le_max_r a x) | apply fold_max_ge_init].
    + apply IH, Hin.
Qed.

Lemma Math_max_ge (xs : list Q) (x : Q) : In x xs -> x <= Math_max xs.
Proof.
  destruct xs as [|a xs]; simpl; [contradiction|].
  intros [-> | Hin]; [apply fold_max_ge_init | apply fold_max_ge_in, Hin].
Qed.

Lemma last_in_skipn {A : Type} (xs : list A) (d : A) (k : nat) :
  (k < length xs)%nat -> In (last xs d) (skipn k xs).
Proof.
  revert k. induction xs as [|x xs IH]; intros k Hk; simpl in Hk; [lia|].
  destruct k as [|k].
  - rewrite skipn_O. destruct xs as [|y ys]; [now left|].
    right. apply (IH 0%nat). simpl. lia.
  - change (skipn (S k) (x :: xs)) with (skipn k xs).
    destruct xs as [|y ys]; [simpl in Hk; lia|].
    apply IH. simpl in *. lia.
Qed.

Lemma last_in_slice_last {A : Type} (xs : list A) (d : A) (n : nat) :
  xs <> [] -> In (last xs d) (slice_last n xs).
Proof.
  intro Hne. destruct xs as [|x xs]; [congruence|].
  destruct n as [|n]; unfold slice_last.
  - apply (last_in_skipn (x :: xs) d 0). simpl. lia.
  - apply last_in_skipn. simpl. lia.
Qed.

Lemma last_map_candle {B : Type} (f : Candle -> B) (xs : list Candle) (d : Candle) :
  last (map f xs) (f d) = f (last xs d).
Proof.
  induction xs as [|x xs IH]; [reflexivity|].
  destruct xs as [|y ys]; [reflexivity|].
  exact IH.
Qed.

Lemma last_candle_in (candles : list Candle) :
  candles <> [] -> In (last_candle candles) candles.
Proof.
  intro Hne. unfold last_candle.
  destruct candles as [|x xs]; [congruence|].
  apply (last_in_skipn (x :: xs) no_candle 0). simpl. lia.
Qed.

(** The latest bar's high is one of the highs the 20-bar high is taken
    over. *)
Lemma hh20_covers_last_bar (candles : list Candle) :
  candles <> [] ->
  h (last_candle candles) <= Math_max (slice_last 20 (map h candles)).
Proof.
  intro Hne. apply Math_max_ge.
  unfold last_candle. rewrite <- (last_map_candle h).
  apply last_in_slice_last.
  destruct candles; [congruence | discriminate].
Qed.

Lemma classifyLeoReversal_reason candles indicators params reason s :
  classifyLeoReversal candles indicators params = Some (reason, s) ->
  isLeoSetup reason = true.
Proof.
  unfold classifyLeoReversal. cbv zeta.
  destruct (bbPercentB indicators) as [bb|], (stochK indicators) as [k|];
    repeat (match goal with
            | |- context [if ?b then _ else _] => destruct b
            end; cbv iota);
    intro H; inversion H; reflexivity.
Qed.

(** ** The breakout predicate *)

Lemma hh20_calculateIndicators candles params meta :
  hh20 (calculateIndicators candles params meta) =
  Some (Math_max (slice_last 20 (map h candles))).
Proof. reflexivity. Qed.

Lemma isBreakout_true_inv candles indicators :
  isBreakout candles indicators = true ->
  exists hh, hh20 indicators = Some hh /\ hh < c (last_candle candles) /\
             num_or (avgVol20 indicators) 0 * (15 # 10) < v (last_candle candles).
Proof.
  unfold isBreakout.
  destruct (falsy (hh20 indicators) || falsy (ll20 indicators)); [discriminate|].
  destruct (hh20 indicators) as [hh|]; [|discriminate].
  intro H. apply andb_true_iff in H. destruct H as [H1 H2].
  exists hh. repeat split; [apply Qlt_bool_iff, H1 | apply Qlt_bool_iff, H2].
Qed.

Lemma classifySetup_Breakout_inv candles indicators params s :
  classifySetup candles indicators params = Some (Breakout, s) ->
  isBreakout candles indicators = true.
Proof.
  unfold classifySetup.
  destruct (if leo_mode_enabled params
            then classifyLeoReversal candles indicators params else None)
    as [[reason s']|] eqn:Hleo.
  - intro H. inversion H; subst.
    destruct (leo_mode_enabled params); [|discriminate].
    apply classifyLeoReversal_reason in Hleo. discriminate.
  - destruct (isBreakout candles indicators); [reflexivity|].
    repeat match goal with
           | |- context [if ?b then _ else _] => destruct b
           end; discriminate.
Qed.

(** C10.  On a candle list of at least 20 bars whose highs are never
    below their closes, the breakout predicate is false on the indicators
    computed from that list, and the classifier never assigns [Breakout]:
    the 20-bar high the latest close is compared with is taken over the
    last 20 bars, the latest bar among them. *)
Theorem breakout_never_on_wellformed_bars candles params meta :
  (20 <= length candles)%nat ->
  (forall k, In k candles -> c k <= h k) ->
  isBreakout candles (calculateIndicators candles params meta) = false /\
  (forall s, classifySetup candles (calculateIndicators candles params meta) params
             <> Some (Breakout, s)) /\
  h (last_candle candles) <= Math_max (slice_last 20 (map h candles)).
Proof.
  intros Hlen Hwf.
  assert (Hne : candles <> []) by (destruct candles; [simpl in Hlen; lia | discriminate]).
  assert (Hfalse : isBreakout candles (calculateIndicators candles params meta) = false).
  { destruct (isBreakout candles (calculateIndicators candles params meta)) eqn:E;
      [|reflexivity].
    apply isBreakout_true_inv in E. destruct E as [hh [Hhh [Hlt _]]].
    rewrite hh20_calculateIndicators in Hhh. inversion Hhh; subst hh.
    exfalso. apply (Qlt_not_le _ _ Hlt).
    eapply Qle_trans; [apply Hwf, last_candle_in, Hne|].
    apply hh20_covers_last_bar, Hne. }
  split; [exact Hfalse|]. split.
  - intros s H. apply classifySetup_Breakout_inv in H. congruence.
  - apply hh20_covers_last_bar, Hne.
Qed.

(** ** RSI and Stochastic %K on degenerate windows *)

Lemma rsi_fold_flat (closes : list Q) (idx : list nat) (g ls : Q) :
  (forall i, In i idx -> nth i closes 0 - nth (i - 1) closes 0 == 0) ->
  g == 0 -> ls == 0 ->
  let '(gains, losses) :=
    fold_left
      (fun '(gains, losses) i =>
         let change := nth i closes 0 - nth (i - 1) closes 0 in
         if change >? 0 then (gains + change, losses) else (gains, losses - change))
      idx (g, ls) in
  gains == 0 /\ losses == 0.
Proof.
  revert g ls. induction idx as [|i idx IH]; intros g ls Hflat Hg Hls; simpl.
  - split; assumption.
  - assert (Hi : nth i closes 0 - nth (i - 1) closes 0 == 0) by (apply Hflat; now left).
    assert (Hc : (nth i closes 0 - nth (i - 1) closes 0 >? 0) = false).
    { apply Qlt_bool_false_iff. rewrite Hi. apply Qle_refl. }
    rewrite Hc. apply IH.
    + intros j Hj. apply Hflat. now right.
    + exact Hg.
    + rewrite Hi, Hls. reflexivity.
Qed.

Lemma rsi_flat (closes : list Q) (period : nat) :
  (0 < period)%nat ->
  (period + 1 <= length closes)%nat ->
  (forall x y, In x closes -> In y closes -> x == y) ->
  rsi closes period = Some 100.
Proof.
  intros Hpos Hlen Hflat. unfold rsi.
  destruct (length closes <? period + 1)%nat eqn:E;
    [apply Nat.ltb_lt in E; lia|].
  pose proof (rsi_fold_flat closes (seq (length closes - period) period) 0 0) as Hfold.
  destruct (fold_left _ (seq (length closes - period) period) (0, 0))
    as [gains losses] eqn:Ef.
  destruct Hfold as [_ Hlosses]; try reflexivity.
  { intros i Hi. apply in_seq in Hi.
    rewrite (Hflat (nth i closes 0) (nth (i - 1) closes 0)).
    - ring.
    - apply nth_In. lia.
    - apply nth_In. lia. }
  assert (Hz : (losses / Qn period =? 0) = true).
  { apply Qeq_bool_iff. rewrite Hlosses. unfold Qdiv. ring. }
  rewrite Hz. reflexivity.
Qed.

Lemma stochasticK_zero_range (candles : list Candle) (kPeriod dPeriod : nat) :
  (kPeriod <= length candles)%nat ->
  Math_max (map h (slice_last kPeriod candles)) ==
  Math_min (map l (slice_last kPeriod candles)) ->
  stochasticK candles kPeriod dPeriod = Some 50.
Proof.
  intros Hlen Heq. unfold stochasticK.
  destruct (length candles <? kPeriod)%nat eqn:E; [apply Nat.ltb_lt in E; lia|].
  apply Qeq_bool_iff in Heq. cbv zeta. rewrite Heq. reflexivity.
Qed.

(** C6.  On a window of at least [period + 1] closes that are all equal,
    [rsi] returns exactly 100; on a window of at least [kPeriod] candles
    whose highest high equals its lowest low, [stochasticK] returns
    exactly 50. *)
Theorem rsi_stochastic_degenerate :
  (forall closes period,
      (0 < period)%nat ->
      (period + 1 <= length closes)%nat ->
      (forall x y, In x closes -> In y closes -> x == y) ->
      rsi closes period = Some 100) /\
  (forall candles kPeriod dPeriod,
      candles <> [] ->
      (kPeriod <= length candles)%nat ->
      Math_max (map h (slice_last kPeriod candles)) ==
      Math_min (map l (slice_last kPeriod candles)) ->
      stochasticK candles kPeriod dPeriod = Some 50).
Proof.
  split.
  - exact rsi_flat.
  - intros candles kPeriod dPeriod _. apply stochasticK_zero_range.
Qed.

(** ** First match wins *)

Ltac case_conditions :=
  repeat (match goal with
          | |- context [if ?b then _ else _] => destruct b
          end; cbn [andb orb negb find fst snd option_map]).

Lemma classifyLeoReversal_first_match candles indicators params :
  leo_mode_enabled params = true ->
  classifyLeoReversal candles indicators params = first_match (leo_rules indicators params).
Proof.
  intro Hleo. unfold classifyLeoReversal, first_match, leo_rules.
  rewrite Hleo. cbv zeta. cbn [negb].
  destruct (bbPercentB indicators) as [bb|], (stochK indicators) as [k|];
    try reflexivity.
  assert (Hallowed :
    ((length (candlestick_patterns params) =? 0)%nat ||
     match candlestickPattern indicators with
     | Some p => includes (candlestick_patterns params) (CandlestickPattern_name p)
     | None => false
     end) =
    match candlestick_patterns params with
    | [] => true
    | _ => match candlestickPattern indicators with
           | Some p => includes (candlestick_patterns params) (CandlestickPattern_name p)
           | None => false
           end
    end) by (destruct (candlestick_patterns params); reflexivity).
  rewrite Hallowed. clear Hallowed.
  generalize (match candlestick_patterns params with
    | [] => true
    | _ => match candlestickPattern indicators with
           | Some p => includes (candlestick_patterns params) (CandlestickPattern_name p)
           | None => false
           end
    end) as allowed.
  intro allowed.
  generalize (calculateLeoReversalScore indicators dir_bullish
                (num_or (volumeShiftStrength indicators) 0)) as s1.
  generalize (calculateLeoReversalScore indicators dir_bearish
                (num_or (volumeShiftStrength indicators) 0)) as s2.
  generalize (num_or (volumeShiftStrength indicators) 0 >? 30) as strong.
  generalize (bb <? 2 # 10) (k <? stoch_oversold_threshold params)
             (bb >? 8 # 10) (k >? stoch_overbought_threshold params)
             (k <? 20) (k >? 80)
             (pattern_in bullishPatterns (candlestickPattern indicators))
             (pattern_in bearishPatterns (candlestickPattern indicators))
             (shift_is indicators buyer) (shift_is indicators seller)
             (require_volume_shift params) (bb_bounce_enabled params).
  intros b1 b2 b3 b4 b5 b6 b7 b8 b9 b10 b11 b12 strong s2 s1.
  destruct b1, b2; cbn [andb]; 
    destruct b3, b4; cbn [andb];
    destruct b7, allowed, b9, b11, strong, b12, b5; cbn;
    try reflexivity;
    destruct b8, b10, b6; reflexivity.
Qed.

Lemma find_over_app {A : Type} (f : A -> bool) (xs ys : list A) :
  find f (xs ++ ys) = match find f xs with
                      | Some x => Some x
                      | None => find f ys
                      end.
Proof.
  induction xs as [|x xs IH]; simpl; [reflexivity|].
  destruct (f x); [reflexivity | exact IH].
Qed.

Lemma classifySetup_first_match candles indicators params :
  classifySetup candles indicators params =
  first_match (setup_rules candles indicators params).
Proof.
  unfold classifySetup, setup_rules.
  destruct (leo_mode_enabled params) eqn:Hleo.
  - rewrite (classifyLeoReversal_first_match _ _ _ Hleo).
    unfold first_match. rewrite find_over_app.
    destruct (find fst (leo_rules indicators params)) as [[b r]|]; [reflexivity|].
    cbn [option_map app]. unfold standard_rules. cbn [find fst].
    case_conditions; reflexivity.
  - unfold first_match, standard_rules. cbn [app find fst].
    case_conditions; reflexivity.
Qed.

Lemma first_match_hd_error {A : Type} (rules : list (bool * A)) :
  first_match rules = hd_error (all_matches rules).
Proof.
  unfold first_match, all_matches.
  induction rules as [|[b r] rules IH]; [reflexivity|].
  simpl. destruct b; [reflexivity | exact IH].
Qed.

(** C4.  The classifier returns the outcome of the first rule that holds
    in the ordered rule list, Leo rules before standard rules when Leo
    mode is enabled, so a ticker gets at most one reason however many
    rules hold; and two evaluations on identical candles, indicators and
    parameters return the identical reason and score. *)
Theorem single_classification candles indicators params :
  classifySetup candles indicators params =
    hd_error (all_matches (setup_rules candles indicators params)) /\
  (leo_mode_enabled params = true ->
   forall r, classifyLeoReversal candles indicators params = Some r ->
             classifySetup candles indicators params = Some r) /\
  (forall reason1 score1 reason2 score2,
      classifySetup candles indicators params = Some (reason1, score1) ->
      classifySetup candles indicators params = Some (reason2, score2) ->
      reason1 = reason2 /\ score1 = score2) /\
  (forall candles' indicators' params',
      candles' = candles -> indicators' = indicators -> params' = params ->
      classifySetup candles' indicators' params' =
      classifySetup candles indicators params).
Proof.
  split; [|split; [|split]].
  - rewrite classifySetup_first_match. apply first_match_hd_error.
  - intros Hleo r Hr. unfold classifySetup. rewrite Hleo, Hr. reflexivity.
  - intros reason1 score1 reason2 score2 H1 H2.
    rewrite H1 in H2. inversion H2. split; reflexivity.
  - intros candles' indicators' params' -> -> ->. reflexivity.
Qed.

(** ** The Leo accumulation scenario *)

Lemma num_or_nonzero (x d : Q) : ~ x == 0 -> num_or (Some x) d = x.
Proof.
  intro Hx. unfold num_or.
  destruct (x =? 0) eqn:E; [|reflexivity].
  apply Qeq_bool_iff in E. contradiction.
Qed.

(** C7.  With Leo mode enabled, the default allowed-pattern list and the
    default oversold threshold of 20, a ticker whose final bar is a
    hammer, whose %B is 0.05, whose %K is 10 and whose volume shift is
    buyer with strength 60 is classified [Reversal_Accumulation]. *)
Theorem leo_accumulation_scenario candles indicators params pb k strength :
  leo_mode_enabled params = true ->
  candlestick_patterns params = candlestick_patterns default_params ->
  stoch_oversold_threshold params == 20 ->
  candlestickPattern indicators = Some hammer ->
  bbPercentB indicators = Some pb -> pb == 5 # 100 ->
  stochK indicators = Some k -> k == 10 ->
  volumeShift indicators = Some buyer ->
  volumeShiftStrength indicators = Some strength -> strength == 60 ->
  classifySetup candles indicators params =
    Some (Reversal_Accumulation,
          calculateLeoReversalScore indicators dir_bullish strength).
Proof.
  intros Hleo Hpatterns Hthreshold Hpattern Hbb Hpb Hk Hk10 Hshift Hstrength Hs60.
  unfold classifySetup, classifyLeoReversal. rewrite Hleo. cbv zeta. cbn [negb].
  rewrite Hbb, Hk, Hpattern, Hpatterns, Hstrength.
  unfold shift_is. rewrite Hshift.
  assert (Hnz : ~ strength == 0) by (rewrite Hs60; discriminate).
  rewrite (num_or_nonzero _ _ Hnz).
  assert (H1 : (pb <? 2 # 10) = true) by (apply Qlt_bool_iff; rewrite Hpb; reflexivity).
  assert (H2 : (k <? stoch_oversold_threshold params) = true)
    by (apply Qlt_bool_iff; rewrite Hk10, Hthreshold; reflexivity).
  assert (H3 : (strength >? 30) = true) by (apply Qlt_bool_iff; rewrite Hs60; reflexivity).
  rewrite H1, H2, H3. cbn. rewrite orb_true_r. reflexivity.
Qed.

(** ** Sorting *)

Section SortFacts.
Context {A : Type} (compare : A -> A -> Q) (key : A -> Q).
Hypothesis compare_key : forall x y, (compare x y >? 0) = (key x >? key y).

Lemma sort_insert_In (x z : A) (xs : list A) :
  In z (sort_insert compare x xs) <-> z = x \/ In z xs.
Proof using Type.
  induction xs as [|y ys IH]; simpl.
  - split; (intros [H | H]; [left; symmetry; exact H | contradiction]).
  - destruct (compare x y >? 0); simpl; rewrite ?IH; split.
    + intros [H | [H | H]]; auto.
    + intros [H | [H | H]]; auto.
    + intros [H | [H | H]]; auto.
    + intros [H | [H | H]]; auto.
Qed.

Lemma js_sort_In (z : A) (xs : list A) : In z (js_sort compare xs) <-> In z xs.
Proof using Type.
  induction xs as [|x xs IH]; simpl; [reflexivity|].
  rewrite sort_insert_In, IH. split; (intros [H | H]; [left; symmetry; exact H | now right]).
Qed.

Lemma sort_insert_length (x : A) (xs : list A) :
  length (sort_insert compare x xs) = S (length xs).
Proof.
  induction xs as [|y ys IH]; simpl; [reflexivity|].
  destruct (compare x y >? 0); simpl; [rewrite IH|]; reflexivity.
Qed.

Lemma js_sort_length (xs : list A) : length (js_sort compare xs) = length xs.
Proof.
  induction xs as [|x xs IH]; simpl; [reflexivity|].
  rewrite sort_insert_length, IH. reflexivity.
Qed.

Lemma sort_insert_sorted (x : A) (xs : list A) :
  StronglySorted (key_le key) xs -> StronglySorted (key_le key) (sort_insert compare x xs).
Proof using compare_key.
  induction xs as [|y ys IH]; intro Hs; simpl.
  - constructor; constructor.
  - apply StronglySorted_inv in Hs. destruct Hs as [Hys Hy].
    destruct (compare x y >? 0) eqn:E.
    + rewrite compare_key in E. apply Qlt_bool_iff in E.
      constructor; [apply IH, Hys|].
      apply Forall_forall. intros z Hz. apply sort_insert_In in Hz.
      destruct Hz as [-> | Hz].
      * apply Qlt_le_weak, E.
      * rewrite Forall_forall in Hy. apply Hy, Hz.
    + rewrite compare_key in E. apply Qlt_bool_false_iff in E.
      constructor; [constructor; assumption|].
      constructor; [exact E|].
      rewrite Forall_forall in *. intros z Hz.
      unfold key_le. eapply Qle_trans; [exact E | apply Hy, Hz].
Qed.

Lemma js_sort_sorted (xs : list A) : StronglySorted (key_le key) (js_sort compare xs).
Proof using compare_key.
  induction xs as [|x xs IH]; simpl; [constructor | apply sort_insert_sorted, IH].
Qed.
End SortFacts.

Lemma descending_compare_key (a b : StockAnalysis) :
  (score b - score a >? 0) = (- score a >? - score b).
Proof.
  destruct (- score a >? - score b) eqn:E.
  - apply Qlt_bool_iff in E. apply Qlt_bool_iff.
    apply Qopp_lt_compat in E. rewrite !Qopp_involutive in E.
    rewrite <- (Qplus_opp_r (score a)). apply Qplus_lt_l. exact E.
  - apply Qlt_bool_false_iff in E. apply Qlt_bool_false_iff.
    apply Qopp_le_compat in E. rewrite !Qopp_involutive in E.
    rewrite <- (Qplus_opp_r (score a)). apply Qplus_le_l. exact E.
Qed.

Lemma ascending_compare_key (a b : PriceTarget) :
  (by_price a b >? 0) = (pt_price a >? pt_price b).
Proof.
  unfold by_price.
  destruct (pt_price a >? pt_price b) eqn:E.
  - apply Qlt_bool_iff in E. apply Qlt_bool_iff.
    rewrite <- (Qplus_opp_r (pt_price b)). apply Qplus_lt_l. exact E.
  - apply Qlt_bool_false_iff in E. apply Qlt_bool_false_iff.
    rewrite <- (Qplus_opp_r (pt_price b)). apply Qplus_le_l. exact E.
Qed.

Lemma sorted_members_descending reason analyses :
  StronglySorted never_higher (sorted_members reason analyses).
Proof.
  unfold sorted_members.
  pose proof (js_sort_sorted (fun a b => score b - score a) (fun a => - score a)
                descending_compare_key (group_members reason analyses)) as Hs.
  induction Hs as [|x xs Hxs IH Hall]; constructor; [exact IH|].
  rewrite Forall_forall in *. intros z Hz.
  specialize (Hall z Hz). unfold key_le in Hall. unfold never_higher.
  apply Qopp_le_compat in Hall. rewrite !Qopp_involutive in Hall. exact Hall.
Qed.

Lemma sort_insert_perm {A : Type} (compare : A -> A -> Q) (x : A) (xs : list A) :
  Permutation (sort_insert compare x xs) (x :: xs).
Proof.
  induction xs as [|y ys IH]; simpl; [apply Permutation_refl|].
  destruct (compare x y >? 0); [|apply Permutation_refl].
  eapply Permutation_trans; [apply perm_skip, IH | apply perm_swap].
Qed.

Lemma js_sort_perm {A : Type} (compare : A -> A -> Q) (xs : list A) :
  Permutation (js_sort compare xs) xs.
Proof.
  induction xs as [|x xs IH]; simpl; [apply Permutation_refl|].
  eapply Permutation_trans; [apply sort_insert_perm | apply perm_skip, IH].
Qed.

Lemma sorted_members_perm reason analyses :
  Permutation (sorted_members reason analyses) (group_members reason analyses).
Proof. apply js_sort_perm. Qed.

Lemma SetupReason_eqb_eq (a b : SetupReason) : SetupReason_eqb a b = true <-> a = b.
Proof.
  split.
  - destruct a, b; simpl; intro H; try reflexivity; discriminate.
  - intros ->. destruct b; reflexivity.
Qed.

Lemma sorted_members_reason reason analyses a :
  In a (sorted_members reason analyses) -> setupReason a = reason.
Proof.
  unfold sorted_members, group_members. intro Hin.
  apply js_sort_In in Hin. apply filter_In in Hin. destruct Hin as [_ Heq].
  apply SetupReason_eqb_eq in Heq. congruence.
Qed.

(** ** Grouping and the merge loop *)

Lemma fold_push_group (analyses : list StockAnalysis) (groups : SetupGroups) reason :
  fold_left push_group analyses groups reason =
  (groups reason ++ group_members reason analyses)%list.
Proof.
  revert groups. induction analyses as [|a rest IH]; intro groups; simpl.
  - rewrite app_nil_r. reflexivity.
  - rewrite IH. unfold push_group.
    destruct (SetupReason_eqb reason (setupReason a)).
    + rewrite <- app_assoc. reflexivity.
    + reflexivity.
Qed.

Lemma groupAnalyses_members analyses reason :
  groupAnalyses analyses reason = group_members reason analyses.
Proof. unfold groupAnalyses. rewrite fold_push_group. reflexivity. Qed.

Lemma sortGroups_members analyses reason :
  sortGroups (groupAnalyses analyses) reason = sorted_members reason analyses.
Proof. unfold sortGroups, sorted_members. rewrite groupAnalyses_members. reflexivity. Qed.

Lemma Qn_le (n m : nat) : Qn n <= Qn m <-> (n <= m)%nat.
Proof. unfold Qn. rewrite <- Zle_Qle. lia. Qed.

Lemma Qn_lt (n m : nat) : Qn n < Qn m <-> (n < m)%nat.
Proof. unfold Qn. rewrite <- Zlt_Qlt. lia. Qed.

Lemma Qn_minus (n m : nat) : (m <= n)%nat -> Qn n - Qn m == Qn (n - m).
Proof.
  intro H. unfold Qn. rewrite Nat2Z.inj_sub by exact H.
  unfold Zminus. rewrite inject_Z_plus, inject_Z_opp. reflexivity.
Qed.

Lemma Qtrunc_of_nat (q : Q) (n : nat) : q == Qn n -> Qtrunc q = Z.of_nat n.
Proof.
  unfold Qeq, Qn, Qtrunc. destruct q as [a b]. simpl. intro H.
  rewrite Z.mul_1_r in H. subst a. apply Z.quot_mul. discriminate.
Qed.

Lemma slice_to_nat {A : Type} (q : Q) (n : nat) (xs : list A) :
  q == Qn n -> slice_to q xs = firstn n xs.
Proof.
  intro H. unfold slice_to. rewrite (Qtrunc_of_nat q n H).
  destruct (Z.of_nat n <? 0)%Z eqn:E; [apply Z.ltb_lt in E; lia|].
  rewrite Nat2Z.id. reflexivity.
Qed.

Lemma Qmin_cases (x y : Q) : (x <= y /\ Qmin x y = x) \/ (y < x /\ Qmin x y = y).
Proof.
  unfold Qmin, GenericMinMax.gmin.
  destruct (Qcompare x y) eqn:E.
  - left. split; [apply Qeq_alt in E; rewrite E; apply Qle_refl | reflexivity].
  - left. split; [apply Qlt_alt in E; apply Qlt_le_weak, E | reflexivity].
  - right. split; [apply Qgt_alt in E; exact E | reflexivity].
Qed.

Lemma walk_groups_at_cap {A : Type} (cap : nat) (groups : list (list A)) :
  walk_groups cap cap groups = [].
Proof.
  induction groups as [|g rest IH]; simpl; [reflexivity|].
  destruct (cap + length g <=? cap)%nat eqn:E.
  - apply Nat.leb_le in E. assert (length g = 0%nat) by lia.
    destruct g; [|discriminate]. simpl. rewrite Nat.add_0_r. exact IH.
  - rewrite Nat.sub_diag. reflexivity.
Qed.

(** From an integral [remaining], the merge loop is the walk with the
    running count. *)
Lemma mergeGroups_walk (setupGroups : SetupGroups) (order : list SetupReason) :
  forall (remaining : Q) (cap count : nat),
    (count <= cap)%nat ->
    remaining == Qn (cap - count) ->
    mergeGroups setupGroups order remaining =
    walk_groups cap count (map setupGroups order).
Proof.
  induction order as [|reason rest IH]; intros remaining cap count Hle Hrem;
    [reflexivity|].
  cbn [mergeGroups map walk_groups]. cbv zeta.
  set (group := setupGroups reason).
  destruct (Qmin_cases (len group) remaining) as [[Hfit Hmin] | [Hcut Hmin]];
    rewrite Hmin.
  - (* the whole group is taken *)
    rewrite Hrem in Hfit. unfold len in Hfit. apply Qn_le in Hfit.
    rewrite (slice_to_nat (len group) (length group)) by reflexivity.
    rewrite firstn_all.
    assert (Hfits : (count + length group <=? cap)%nat = true)
      by (apply Nat.leb_le; lia).
    rewrite Hfits.
    assert (Hrem' : remaining - len group == Qn (cap - (count + length group))).
    { rewrite Hrem. unfold len. rewrite Qn_minus by exact Hfit.
      replace (cap - count - length group)%nat with (cap - (count + length group))%nat
        by lia. reflexivity. }
    destruct (remaining - len group <=? 0) eqn:E.
    + apply Qle_bool_iff in E. rewrite Hrem' in E.
      change 0 with (Qn 0) in E. apply Qn_le in E.
      replace (count + length group)%nat with cap by lia.
      rewrite walk_groups_at_cap. reflexivity.
    + f_equal. apply IH; [lia | exact Hrem'].
  - (* the group is cut to the remaining slots *)
    rewrite Hrem in Hcut. unfold len in Hcut. apply Qn_lt in Hcut.
    rewrite (slice_to_nat remaining (cap - count)) by exact Hrem.
    assert (Hz : (remaining - remaining <=? 0) = true).
    { apply Qle_bool_iff. assert (Hd : remaining - remaining == 0) by ring.
      rewrite Hd. apply Qle_refl. }
    rewrite Hz, app_nil_r.
    assert (Hover : (count + length group <=? cap)%nat = false)
      by (apply Nat.leb_gt; lia).
    rewrite Hover. reflexivity.
Qed.

Lemma walk_groups_firstn {A : Type} (cap : nat) (groups : list (list A)) :
  forall count, (count <= cap)%nat ->
    walk_groups cap count groups = firstn (cap - count) (concat groups).
Proof.
  induction groups as [|g rest IH]; intros count Hle; simpl.
  - rewrite firstn_nil. reflexivity.
  - destruct (count + length g <=? cap)%nat eqn:E.
    + apply Nat.leb_le in E. rewrite IH by lia.
      rewrite firstn_app.
      rewrite (firstn_all2 (n := cap - count) g) by lia.
      replace (cap - count - length g)%nat with (cap - (count + length g))%nat by lia.
      reflexivity.
    + apply Nat.leb_gt in E. rewrite firstn_app.
      replace (cap - count - length g)%nat with 0%nat by lia.
      rewrite firstn_O, app_nil_r. reflexivity.
Qed.

Lemma walk_groups_length {A : Type} (cap count : nat) (groups : list (list A)) :
  (count <= cap)%nat -> (length (walk_groups cap count groups) <= cap - count)%nat.
Proof.
  intro Hle. rewrite walk_groups_firstn by exact Hle.
  rewrite length_firstn. lia.
Qed.

(** ** Validation *)

Lemma validateParams_first_match (p : ScreenerParams) :
  validateParams p =
  match first_match (guard_conditions p) with
  | Some e => inl e
  | None => inr p
  end.
Proof.
  unfold validateParams, guard_conditions, first_match, bind, throw_if, throw, ret.
  cbv zeta. cbn [find fst snd option_map].
  repeat match goal with
         | |- context [if ?b then _ else _] => destruct b; [reflexivity|]
         end.
  reflexivity.
Qed.

Lemma first_match_some {A : Type} (rules : list (bool * A)) (a : A) :
  In (true, a) rules -> exists a', first_match rules = Some a'.
Proof.
  unfold first_match. induction rules as [|[b r] rules IH]; simpl; [contradiction|].
  intros [Heq | Hin].
  - inversion Heq; subst. eexists. reflexivity.
  - destruct b; [eexists; reflexivity | apply IH, Hin].
Qed.

Lemma first_match_none {A : Type} (rules : list (bool * A)) :
  first_match rules = None -> Forall (fun r => fst r = false) rules.
Proof.
  unfold first_match. induction rules as [|[b r] rules IH]; simpl; [constructor|].
  destruct b; [discriminate|]. intro H. constructor; [reflexivity | apply IH, H].
Qed.

Lemma validateParams_throws (p : ScreenerParams) (e : EngineError) :
  In (true, e) (guard_conditions p) -> exists e', validateParams p = inl e'.
Proof.
  intro Hin. rewrite validateParams_first_match.
  destruct (first_match_some _ _ Hin) as [e' He']. rewrite He'. eauto.
Qed.

Lemma validateParams_inr (p m : ScreenerParams) :
  validateParams p = inr m ->
  m = p /\ Forall (fun r => fst r = false) (guard_conditions p).
Proof.
  rewrite validateParams_first_match.
  destruct (first_match (guard_conditions p)) eqn:E; [discriminate|].
  intro H. injection H as <-. split; [reflexivity | apply first_match_none, E].
Qed.

Lemma isInteger_positive (x : Q) :
  isInteger x = true -> 0 < x -> x == Qn (to_count x) /\ (0 < to_count x)%nat.
Proof.
  intros Hint Hpos. unfold isInteger in Hint. apply Pos.eqb_eq in Hint.
  pose proof (Qred_correct x) as Hred.
  destruct (Qred x) as [n d] eqn:E. simpl in Hint. subst d.
  assert (Hn : (0 < n)%Z).
  { rewrite <- Hred in Hpos. unfold Qlt in Hpos. simpl in Hpos. lia. }
  assert (Hx : x == Qn (Z.to_nat n)).
  { rewrite <- Hred. unfold Qn. rewrite Z2Nat.id by lia. reflexivity. }
  assert (Hc : to_count x = Z.to_nat n).
  { unfold to_count. rewrite (Qtrunc_of_nat x (Z.to_nat n) Hx).
    rewrite Nat2Z.id. reflexivity. }
  rewrite Hc. split; [exact Hx | lia].
Qed.

Lemma validateParams_max_results (p m : ScreenerParams) :
  validateParams p = inr m ->
  max_results p == Qn (to_count (max_results p)) /\ (0 < to_count (max_results p))%nat.
Proof.
  intro H. apply validateParams_inr in H. destruct H as [_ Hall].
  unfold guard_conditions in Hall.
  repeat (apply Forall_cons_iff in Hall; destruct Hall as [? Hall]).
  match goal with
  | H : fst (negb (isInteger (max_results p)) || _, MaxResults) = false |- _ =>
      cbn [fst] in H; apply orb_false_iff in H; destruct H as [Hint Hpos]
  end.
  apply negb_false_iff in Hint. apply Qle_bool_false_iff in Hpos.
  apply isInteger_positive; assumption.
Qed.

Lemma assertFixedFilters_passes : assertFixedFilters = inr tt.
Proof. reflexivity. Qed.

(** ** The run as a whole *)

Lemma runEngine_inr (input : EngineInput) (out : EngineOutput) :
  runEngine input = inr out ->
  exists analyses,
    validateParams (params input) = inr (params input) /\
    analyzeAll (params input) (metadata_of input) (entries_of input) = inr analyses /\
    out = {| out_as_of_date := as_of_date (params input);
             picks := map (toPick (params input))
                          (finalPicks (params input) analyses) |}.
Proof.
  unfold runEngine. rewrite assertFixedFilters_passes. cbn [bind].
  destruct (validateParams (params input)) as [e|m] eqn:Hv; [discriminate|].
  destruct (validateParams_inr _ _ Hv) as [-> _]. cbn [bind].
  fold (entries_of input). fold (metadata_of input).
  destruct (analyzeAll (params input) (metadata_of input) (entries_of input))
    as [e|analyses] eqn:Ha; [discriminate|].
  cbn [bind ret]. intro H. inversion H. exists analyses. auto.
Qed.

Lemma finalPicks_walk (p : ScreenerParams) (analyses : list StockAnalysis) :
  max_results p == Qn (to_count (max_results p)) ->
  finalPicks p analyses =
  walk_groups (to_count (max_results p)) 0
              (map (fun reason => sorted_members reason analyses) (priorityOrder p)).
Proof.
  intro Hint. unfold finalPicks.
  rewrite (mergeGroups_walk _ _ _ (to_count (max_results p)) 0).
  - f_equal. apply map_ext. intro reason. apply sortGroups_members.
  - lia.
  - rewrite Nat.sub_0_r. exact Hint.
Qed.

(** C2.  When the engine returns, its picks are the analyses selected by
    walking the priority order over the groups with a running count capped
    at [max_results] (whole groups while they fit, the first group that
    would exceed the cap cut to the remaining slots, the rest dropped), so
    there are at most [max_results] of them; each group holds the
    analyses of its reason, each once, in non-increasing order of score;
    the order puts the six Leo setups first exactly when Leo mode is
    enabled. *)
Theorem result_cap_and_priority_walk (input : EngineInput) (out : EngineOutput) :
  runEngine input = inr out ->
  let p := params input in
  let cap := to_count (max_results p) in
  exists analyses,
    analyzeAll p (metadata_of input) (entries_of input) = inr analyses /\
    picks out =
      map (toPick p)
          (walk_groups cap 0
             (map (fun reason => sorted_members reason analyses) (priorityOrder p))) /\
    (forall reason,
        Permutation (sorted_members reason analyses) (group_members reason analyses) /\
        StronglySorted never_higher (sorted_members reason analyses)) /\
    Qn (length (picks out)) <= max_results p /\
    forallb isLeoSetup (firstn 6 (priorityOrder p)) = leo_mode_enabled p /\
    forallb isLeoSetup (skipn 6 (priorityOrder p)) = negb (leo_mode_enabled p).
Proof.
  intros Hrun p cap.
  destruct (runEngine_inr _ _ Hrun) as [analyses [Hv [Ha Hout]]].
  destruct (validateParams_max_results _ _ Hv) as [Hint _].
  fold p in Hint, Ha, Hout.
  exists analyses. split; [exact Ha|].
  assert (Hpicks : picks out =
                   map (toPick p)
                       (walk_groups cap 0
                          (map (fun reason => sorted_members reason analyses)
                               (priorityOrder p)))).
  { rewrite Hout. cbn [picks]. rewrite (finalPicks_walk p analyses Hint). reflexivity. }
  split; [exact Hpicks|]. split; [|split].
  - intro reason. split;
      [apply sorted_members_perm | apply sorted_members_descending].
  - rewrite Hpicks, length_map. rewrite Hint. apply Qn_le.
    pose proof (walk_groups_length cap 0
                  (map (fun reason => sorted_members reason analyses) (priorityOrder p))
                  (Nat.le_0_l cap)) as Hlen.
    fold cap. lia.
  - unfold priorityOrder. destruct (leo_mode_enabled p); split; reflexivity.
Qed.

(** ** Score order inside a group *)

Lemma StronglySorted_app {A : Type} (R : A -> A -> Prop) (xs ys : list A) :
  StronglySorted R xs -> StronglySorted R ys ->
  (forall x y, In x xs -> In y ys -> R x y) ->
  StronglySorted R (xs ++ ys).
Proof.
  induction xs as [|x xs IH]; intros Hxs Hys Hcross; simpl; [exact Hys|].
  apply StronglySorted_inv in Hxs. destruct Hxs as [Hxs Hx].
  constructor.
  - apply IH; [exact Hxs | exact Hys |].
    intros a b Ha Hb. apply Hcross; [now right | exact Hb].
  - apply Forall_app. split; [exact Hx|].
    apply Forall_forall. intros y Hy. apply Hcross; [now left | exact Hy].
Qed.

Lemma StronglySorted_firstn {A : Type} (R : A -> A -> Prop) (n : nat) (xs : list A) :
  StronglySorted R xs -> StronglySorted R (firstn n xs).
Proof.
  revert n. induction xs as [|x xs IH]; intros n Hs.
  - rewrite firstn_nil. constructor.
  - destruct n as [|n]; [constructor|].
    apply StronglySorted_inv in Hs. destruct Hs as [Hxs Hx].
    rewrite firstn_cons. constructor; [apply IH, Hxs|].
    rewrite Forall_forall in *. intros y Hy. apply Hx.
    rewrite <- (firstn_skipn n xs). apply in_or_app. now left.
Qed.

Lemma StronglySorted_nth_error {A : Type} (R : A -> A -> Prop) (xs : list A) :
  StronglySorted R xs ->
  forall i j a b,
    (i < j)%nat -> nth_error xs i = Some a -> nth_error xs j = Some b -> R a b.
Proof.
  induction 1 as [|x xs Hxs IH Hx]; intros i j a b Hij Hi Hj.
  - destruct i; discriminate.
  - destruct j as [|j]; [lia|]. simpl in Hj.
    destruct i as [|i]; simpl in Hi.
    + inversion Hi; subst. rewrite Forall_forall in Hx.
      apply Hx. eapply nth_error_In, Hj.
    + apply (IH i j); [lia | exact Hi | exact Hj].
Qed.

Lemma sorted_groups_ordered (analyses : list StockAnalysis) (order : list SetupReason) :
  NoDup order ->
  StronglySorted group_ordered
    (concat (map (fun reason => sorted_members reason analyses) order)).
Proof.
  induction order as [|reason rest IH]; intro Hnd; simpl; [constructor|].
  apply NoDup_cons_iff in Hnd. destruct Hnd as [Hfresh Hnd].
  apply StronglySorted_app.
  - pose proof (sorted_members_descending reason analyses) as Hs.
    induction Hs as [|x xs Hxs IHs Hall]; constructor; [exact IHs|].
    rewrite Forall_forall in *. intros y Hy _. apply Hall, Hy.
  - apply IH, Hnd.
  - intros x y Hx Hy Hsame.
    apply sorted_members_reason in Hx.
    apply in_concat in Hy. destruct Hy as [group [Hgroup Hy]].
    apply in_map_iff in Hgroup. destruct Hgroup as [reason' [<- Hin]].
    apply sorted_members_reason in Hy.
    exfalso. apply Hfresh. congruence.
Qed.

Lemma priorityOrder_NoDup (p : ScreenerParams) : NoDup (priorityOrder p).
Proof.
  unfold priorityOrder.
  destruct (leo_mode_enabled p);
    repeat (constructor; [cbn [In]; intuition discriminate|]); constructor.
Qed.

(** C5.  When the engine returns, any two of its picks that carry the
    same reason are in non-increasing order of the score the classifier
    gave them. *)
Theorem scores_non_increasing_within_groups (input : EngineInput) (out : EngineOutput) :
  runEngine input = inr out ->
  let p := params input in
  exists analyses,
    analyzeAll p (metadata_of input) (entries_of input) = inr analyses /\
    picks out = map (toPick p) (finalPicks p analyses) /\
    map SelectionReason (picks out) = map setupReason (finalPicks p analyses) /\
    forall i j a b,
      (i < j)%nat ->
      nth_error (finalPicks p analyses) i = Some a ->
      nth_error (finalPicks p analyses) j = Some b ->
      setupReason a = setupReason b ->
      score b <= score a.
Proof.
  intros Hrun p.
  destruct (runEngine_inr _ _ Hrun) as [analyses [Hv [Ha Hout]]].
  destruct (validateParams_max_results _ _ Hv) as [Hint _].
  fold p in Hint, Ha, Hout.
  exists analyses. split; [exact Ha|].
  split; [rewrite Hout; reflexivity|].
  split; [rewrite Hout; cbn [picks]; rewrite map_map; reflexivity|].
  rewrite (finalPicks_walk p analyses Hint).
  rewrite walk_groups_firstn by lia.
  apply (StronglySorted_nth_error group_ordered).
  apply StronglySorted_firstn, sorted_groups_ordered, priorityOrder_NoDup.
Qed.

(** ** Malformed parameters *)

Lemma includes_true_iff (xs : list string) (s : string) :
  includes xs s = true <-> In s xs.
Proof.
  unfold includes. rewrite existsb_exists. split.
  - intros [x [Hin Heq]]. apply String.eqb_eq in Heq. congruence.
  - intro Hin. exists s. split; [exact Hin | apply String.eqb_refl].
Qed.

Lemma unknown_key_not_in (s : string) (literals : list string) :
  unknown_key s literals -> negb (js_in s literals) = true.
Proof.
  intros [Hown Hproto]. unfold js_in.
  destruct (includes literals s) eqn:E1;
    [apply includes_true_iff in E1; contradiction|].
  destruct (includes Object_prototype_keys s) eqn:E2;
    [apply includes_true_iff in E2; contradiction|].
  reflexivity.
Qed.

Lemma bounds_malformed_caught (lo hi : Q) :
  bounds_malformed lo hi ->
  negb (inRange lo 0 100) || negb (inRange hi 0 100) || (lo >? hi) = true.
Proof.
  assert (Hin : forall x, ~ (0 <= x /\ x <= 100) -> negb (inRange x 0 100) = true).
  { intros x Hx. unfold inRange, isFinite. cbn [andb].
    destruct (x >=? 0) eqn:E1; [|reflexivity].
    destruct (x <=? 100) eqn:E2; [|reflexivity].
    exfalso. apply Hx. split; apply Qle_bool_iff; assumption. }
  intros [Hlo | [Hhi | Hcross]].
  - rewrite (Hin lo Hlo). reflexivity.
  - rewrite (Hin hi Hhi). rewrite orb_true_r. reflexivity.
  - apply Qlt_bool_iff in Hcross. rewrite Hcross. apply orb_true_r.
Qed.

Lemma guard_hit (p : ScreenerParams) (cond : bool) (e : EngineError) :
  In (cond, e) (guard_conditions p) -> cond = true ->
  exists e', validateParams p = inl e'.
Proof. intros Hin ->. exact (validateParams_throws p e Hin). Qed.

Ltac find_guard := unfold guard_conditions; cbn [In]; repeat (first [left; reflexivity | right]).

Lemma malformed_caught (p : ScreenerParams) :
  numbers_malformed p \/ guarded_enum_invalid p ->
  exists e, validateParams p = inl e.
Proof.
  intros [Hnum | Henum].
  - destruct Hnum as [H | [H | [H | [H | [H | [H | H]]]]]].
    + eapply guard_hit with (e := MarketCapBounds); [find_guard|].
      apply Qlt_bool_iff, H.
    + eapply guard_hit with (e := AsOfDateFormat); [find_guard|].
      rewrite H. reflexivity.
    + eapply guard_hit with (e := RsiBounds); [find_guard|].
      apply bounds_malformed_caught, H.
    + eapply guard_hit with (e := StochBounds); [find_guard|].
      apply bounds_malformed_caught, H.
    + eapply guard_hit with (e := TrendLookback); [find_guard|].
      apply Qle_bool_iff in H. rewrite H. apply orb_true_r.
    + eapply guard_hit with (e := AtrLookback); [find_guard|].
      apply Qle_bool_iff in H. rewrite H. cbn [isFinite negb orb]. reflexivity.
    + eapply guard_hit with (e := MaxResults); [find_guard|].
      apply Qle_bool_iff in H. rewrite H. apply orb_true_r.
  - destruct Henum as [H | [H | [H | H]]].
    + eapply guard_hit with (e := MaCrossEnum); [find_guard|].
      apply unknown_key_not_in, H.
    + eapply guard_hit with (e := TrendTypeEnum); [find_guard|].
      apply unknown_key_not_in, H.
    + eapply guard_hit with (e := FibReferenceEnum); [find_guard|].
      apply unknown_key_not_in, H.
    + eapply guard_hit with (e := FibZoneEnum); [find_guard|].
      apply unknown_key_not_in, H.
Qed.

(** C8, amended.  Parameters with [market_cap_min] above
    [market_cap_max], an [as_of_date] that does not match the date
    pattern, RSI or Stochastic bounds outside 0 to 100 or crossed, a
    non-positive [trend_lookback], [atr_lookback] or [max_results], or a
    [ma_cross], [trend_type], [fib_reference] or [fib_zone] that is
    neither a literal of its union nor a name inherited from
    [Object.prototype], make the engine stop with the one error
    [validateParams] throws, whatever the tickers are, and no picks are
    produced. *)
Theorem malformed_params_abort (input : EngineInput) :
  numbers_malformed (params input) \/ guarded_enum_invalid (params input) ->
  exists e,
    validateParams (params input) = inl e /\
    runEngine input = inl e /\
    forall series meta,
      runEngine {| params := params input; timeseries := series; metadata := meta |}
      = inl e.
Proof.
  intro Hbad. destruct (malformed_caught _ Hbad) as [e He].
  exists e. split; [exact He|].
  split; [|intros series meta];
    unfold runEngine; rewrite assertFixedFilters_passes; cbn [bind params];
    rewrite He; reflexivity.
Qed.

(** ** Price targets *)

Lemma flat_map_filter_map {A B : Type} (f : A -> list B) (keep : A -> bool) (g : A -> B)
      (xs : list A) :
  (forall x, f x = if keep x then [g x] else []) ->
  flat_map f xs = map g (filter keep xs).
Proof.
  intro Hf. induction xs as [|x xs IH]; simpl; [reflexivity|].
  rewrite Hf, IH. destruct (keep x); reflexivity.
Qed.

Lemma price_targets_unfold (candles : list Candle) (indicators : Indicators) :
  (20 <= length candles)%nat ->
  calculatePriceTargetsFromIndicators candles indicators =
  price_targets_of_last_three candles indicators.
Proof.
  intro Hlen. unfold calculatePriceTargetsFromIndicators, price_targets_of_last_three.
  destruct (length candles <? 20)%nat eqn:E; [apply Nat.ltb_lt in E; lia|].
  cbv zeta. rewrite (slice_to_nat 5 5) by reflexivity.
  f_equal. unfold by_price. f_equal. f_equal; [|f_equal].
  - unfold zones_of. destruct (fvgZones indicators) as [zones|]; [|reflexivity].
    apply flat_map_filter_map. intro fvg. unfold fvg_eligible, fvg_target.
    destruct (isFilled fvg), (fvg_type fvg); cbn [negb andb];
      try reflexivity;
      match goal with |- context [if ?b then _ else _] => destruct b end; reflexivity.
  - unfold highs_of. destruct (swingHighs indicators) as [highs|]; [|reflexivity].
    apply flat_map_filter_map. intro high. reflexivity.
Qed.

(** C9, amended.  For at least 20 candles the price targets are the first
    five, in ascending order of price, of: the midpoints of the unfilled
    bullish zones above the current price and of the unfilled bearish
    zones below it, at confidence 80; those of the three most recent swing
    highs that lie above the current price, at confidence 70; and the
    current price times 1.10 at confidence 50. *)
Theorem price_targets_from_last_three_swings
    (candles : list Candle) (indicators : Indicators) :
  (20 <= length candles)%nat ->
  let currentPrice := c (last_candle candles) in
  let targets := calculatePriceTargetsFromIndicators candles indicators in
  targets =
    firstn 5
      (js_sort by_price
         (map fvg_target (filter (fvg_eligible currentPrice) (zones_of indicators)) ++
          map swing_target
            (filter (above currentPrice) (slice_last 3 (highs_of indicators))) ++
          [percentage_target currentPrice])%list) /\
  StronglySorted price_le targets /\
  (length targets <= 5)%nat /\
  (forall target, In target targets ->
     (pt_confidence target = 80 /\
      exists fvg, In fvg (zones_of indicators) /\ fvg_eligible currentPrice fvg = true /\
                  pt_price target = midpoint fvg) \/
     (pt_confidence target = 70 /\
      exists high, In high (slice_last 3 (highs_of indicators)) /\
                   above currentPrice high = true /\ pt_price target = sp_price high) \/
     (pt_confidence target = 50 /\ pt_price target = currentPrice * (110 # 100))).
Proof.
  intros Hlen currentPrice targets.
  assert (Heq : targets = price_targets_of_last_three candles indicators)
    by (apply price_targets_unfold, Hlen).
  split; [exact Heq|]. rewrite Heq. unfold price_targets_of_last_three.
  fold currentPrice. split; [|split].
  - apply StronglySorted_firstn.
    apply (js_sort_sorted by_price pt_price ascending_compare_key).
  - rewrite length_firstn. lia.
  - intros target Hin.
    assert (Hin' : In target
              (map fvg_target (filter (fvg_eligible currentPrice) (zones_of indicators)) ++
               map swing_target
                 (filter (above currentPrice) (slice_last 3 (highs_of indicators))) ++
               [percentage_target currentPrice])%list).
    { apply (js_sort_In by_price).
      rewrite <- (firstn_skipn 5 (js_sort by_price _)). apply in_or_app. left. exact Hin. }
    apply in_app_or in Hin'. destruct Hin' as [Hfvg | Hrest].
    + left. apply in_map_iff in Hfvg. destruct Hfvg as [fvg [<- Hf]].
      apply filter_In in Hf. destruct Hf as [Hf1 Hf2].
      split; [reflexivity|]. exists fvg. auto.
    + apply in_app_or in Hrest. destruct Hrest as [Hswing | Hpct].
      * right. left. apply in_map_iff in Hswing. destruct Hswing as [high [<- Hh]].
        apply filter_In in Hh. destruct Hh as [Hh1 Hh2].
        split; [reflexivity|]. exists high. auto.
      * right. right. destruct Hpct as [<- | []]. split; reflexivity.
Qed.

(** ** The engine on concrete series *)

(** C3, at the scenario.  On 260 flat bars followed by a bar that closes
    5% above the prior 20-bar high on twice the average volume, under
    default parameters, the engine lists the ticker as [Fib_Pullback]:
    the 20-bar high of the indicators is the high of the final bar itself
    and the breakout predicate is false. *)
Theorem breakout_scenario_outcome :
  let prior := removelast breakout_candles in
  let prior' := removelast breakout_candles_avg20 in
  c (last_candle breakout_candles) == (105 # 100) * Math_max (map h (slice_last 20 prior)) /\
  v (last_candle breakout_candles) == 2 * (sum (map v (slice_last 20 prior)) / 20) /\
  c (last_candle breakout_candles_avg20)
    == (105 # 100) * Math_max (map h (slice_last 20 prior')) /\
  v (last_candle breakout_candles_avg20)
    == 2 * (sum (map v (slice_last 20 breakout_candles_avg20)) / 20) /\
  hh20 (calculateIndicators breakout_candles default_params (Some flat_meta)) = Some 105 /\
  isBreakout breakout_candles
    (calculateIndicators breakout_candles default_params (Some flat_meta)) = false /\
  outcome (runEngine (input_of default_params breakout_candles))
    = inr [("FLAT", Fib_Pullback)] /\
  outcome (runEngine (input_of default_params breakout_candles_avg20))
    = inr [("FLAT", Fib_Pullback)].
Proof. vm_compute. repeat split. Qed.

(** C1, at the boundary.  A ticker whose 20-bar average volume is exactly
    1,000,000, or whose relative volume is exactly 1, passes the fixed
    filters and is listed; a last close of exactly 30 is turned down. *)
Theorem fixed_filter_boundary_outcome :
  sum (map v (slice_last 20 boundary_candles)) / 20 == 1000000 /\
  v (last_candle boundary_candles) / (sum (map v (slice_last 20 boundary_candles)) / 20) == 1 /\
  sum (map v (slice_last 20 avg_boundary_candles)) / 20 == 1000000 /\
  passesFixedFilters boundary_candles flat_meta = true /\
  passesFixedFilters avg_boundary_candles flat_meta = true /\
  passesFixedFilters price_boundary_candles flat_meta = false /\
  outcome (runEngine (input_of default_params boundary_candles))
    = inr [("FLAT", Momentum)] /\
  outcome (runEngine (input_of default_params avg_boundary_candles))
    = inr [("FLAT", Momentum)] /\
  outcome (runEngine (input_of default_params price_boundary_candles)) = inr [].
Proof. vm_compute. repeat split. Qed.

Lemma fold_volume_sum (bars : list Candle) (acc : Q) :
  fold_left (fun s k => s + v k) bars acc = fold_left Qplus (map v bars) acc.
Proof.
  revert acc. induction bars as [|k ks IH]; intro acc; simpl; [reflexivity | apply IH].
Qed.

(** Values strictly above the three constants pass the fixed filters. *)
Lemma passesFixedFilters_strict (candles : list Candle) (meta : TickerMeta) :
  (250 <= length candles)%nat ->
  let avgVol20 := sum (map v (slice_last 20 candles)) / len (slice_last 20 candles) in
  30 < c (last_candle candles) ->
  1000000 < avgVol20 ->
  1 < v (last_candle candles) / avgVol20 ->
  passesFixedFilters candles meta = true.
Proof.
  intros Hlen avgVol20 Hprice Havg Hrel. unfold passesFixedFilters.
  assert (H1 : (len candles <? minBars FIXED_FILTERS) = false).
  { apply Qlt_bool_false_iff. change (minBars FIXED_FILTERS) with (Qn 250).
    apply Qn_le, Hlen. }
  rewrite H1.
  assert (H2 : (c (last_candle candles) <=? minPrice FIXED_FILTERS) = false)
    by (apply Qle_bool_false_iff, Hprice).
  rewrite H2. cbv zeta.
  rewrite (fold_volume_sum (slice_last 20 candles) 0). fold (sum (map v (slice_last 20 candles))).
  fold avgVol20.
  assert (H3 : (avgVol20 <? minAvgVol20 FIXED_FILTERS) = false)
    by (apply Qlt_bool_false_iff, Qlt_le_weak, Havg).
  rewrite H3.
  assert (H4 : (v (last_candle candles) / avgVol20 <? minRelativeVol FIXED_FILTERS) = false)
    by (apply Qlt_bool_false_iff, Qlt_le_weak, Hrel).
  rewrite H4. reflexivity.
Qed.

(** A timeframe outside its union, and an inherited property name as
    [ma_cross], both get past [validateParams]. *)
Lemma unchecked_enums_run :
  malformed hourly_params /\
  outcome (runEngine (input_of hourly_params breakout_candles))
    = inr [("FLAT", Fib_Pullback)] /\
  ~ In (ma_cross toString_params) maSet /\
  validateParams toString_params = inr toString_params.
Proof.
  split; [|split; [|split]].
  - right. unfold invalid_enum. do 4 right. left.
    cbn. intuition discriminate.
  - vm_compute. reflexivity.
  - cbn. intuition discriminate.
  - vm_compute. reflexivity.
Qed.

(** ** Ranges of the indicators *)

Lemma fold_min_le_init (xs : list Q) (a : Q) : fold_left Qmin xs a <= a.
Proof.
  revert a. induction xs as [|x xs IH]; intro a; simpl.
  - apply Qle_refl.
  - eapply Qle_trans; [apply IH | apply Q.le_min_l].
Qed.

Lemma fold_min_le_in (xs : list Q) (a x : Q) : In x xs -> fold_left Qmin xs a <= x.
Proof.
  revert a. induction xs as [|y xs IH]; intros a Hin; simpl in *.
  - contradiction.
  - destruct Hin as [-> | Hin].
    + eapply Qle_trans; [apply fold_min_le_init | apply Q.le_min_r].
    + apply IH, Hin.
Qed.

Lemma Math_min_le (xs : list Q) (x : Q) : In x xs -> Math_min xs <= x.
Proof.
  destruct xs as [|a xs]; simpl; [contradiction|].
  intros [-> | Hin]; [apply fold_min_le_init | apply fold_min_le_in, Hin].
Qed.

Lemma Qn_pos (n : nat) : (0 < n)%nat -> 0 < Qn n.
Proof. intro H. change 0 with (Qn 0). apply Qn_lt, H. Qed.

Lemma Qn_S (n : nat) : Qn (S n) == Qn n + 1.
Proof.
  unfold Qn. rewrite Nat2Z.inj_succ. unfold Z.succ.
  rewrite inject_Z_plus. reflexivity.
Qed.

Lemma fold_sum_shift (xs : list Q) (a : Q) :
  fold_left Qplus xs a == a + fold_left Qplus xs 0.
Proof.
  revert a. induction xs as [|x xs IH]; intro a; simpl.
  - ring.
  - rewrite (IH (a + x)), (IH (0 + x)). ring.
Qed.

Lemma sum_cons (x : Q) (xs : list Q) : sum (x :: xs) == x + sum xs.
Proof. unfold sum. simpl. rewrite fold_sum_shift. ring. Qed.

Lemma sum_bounds (xs : list Q) (lo hi : Q) :
  (forall x, In x xs -> lo <= x /\ x <= hi) ->
  Qn (length xs) * lo <= sum xs /\ sum xs <= Qn (length xs) * hi.
Proof.
  induction xs as [|x xs IH]; intro Hall.
  - unfold sum. cbn [length fold_left]. change (Qn 0) with 0. split; lra.
  - destruct (Hall x (or_introl eq_refl)) as [Hlo Hhi].
    destruct IH as [IHlo IHhi]; [intros y Hy; apply Hall; now right|].
    rewrite sum_cons. cbn [length]. rewrite Qn_S. split; lra.
Qed.

Lemma slice_last_length {A : Type} (n : nat) (xs : list A) :
  (0 < n <= length xs)%nat -> length (slice_last n xs) = n.
Proof.
  intros [Hpos Hle]. unfold slice_last. destruct n as [|n]; [lia|].
  rewrite length_skipn. lia.
Qed.

Lemma slice_last_In {A : Type} (n : nat) (xs : list A) (x : A) :
  In x (slice_last n xs) -> In x xs.
Proof.
  unfold slice_last. destruct n as [|n]; [auto|].
  intro Hin. rewrite <- (firstn_skipn (length xs - S n) xs).
  apply in_or_app. now right.
Qed.

Lemma sma_None_iff (values : list Q) (period : nat) :
  sma values period = None <-> (length values < period)%nat.
Proof.
  unfold sma. destruct (length values <? period)%nat eqn:E.
  - apply Nat.ltb_lt in E. split; [intros _; exact E | reflexivity].
  - apply Nat.ltb_ge in E. split; [discriminate | lia].
Qed.

Lemma sma_Some (values : list Q) (period : nat) :
  (period <= length values)%nat ->
  sma values period = Some (sum (slice_last period values) / Qn period).
Proof.
  intro H. unfold sma.
  destruct (length values <? period)%nat eqn:E; [apply Nat.ltb_lt in E; lia|].
  reflexivity.
Qed.

Lemma slice_last_idempotent {A : Type} (n : nat) (xs : list A) :
  (n <= length xs)%nat -> slice_last n (slice_last n xs) = slice_last n xs.
Proof.
  intro Hle. destruct n as [|n]; [reflexivity|].
  unfold slice_last at 1.
  rewrite (slice_last_length (S n) xs) by lia.
  rewrite Nat.sub_diag. reflexivity.
Qed.

Lemma Forall2_skipn {A : Type} (R : A -> A -> Prop) (n : nat) (xs ys : list A) :
  Forall2 R xs ys -> Forall2 R (skipn n xs) (skipn n ys).
Proof.
  intro H. revert n. induction H as [|x y xs ys Hxy Hrest IH]; intro n.
  - rewrite !skipn_nil. constructor.
  - destruct n as [|n]; [constructor; assumption | apply IH].
Qed.

Lemma Forall2_slice_last {A : Type} (R : A -> A -> Prop) (n : nat) (xs ys : list A) :
  Forall2 R xs ys -> Forall2 R (slice_last n xs) (slice_last n ys).
Proof.
  intro H. unfold slice_last. destruct n as [|n]; [exact H|].
  rewrite (Forall2_length H). apply Forall2_skipn, H.
Qed.

Lemma fold_sum_monotone (xs ys : list Q) (a b : Q) :
  Forall2 Qle xs ys -> a <= b -> fold_left Qplus xs a <= fold_left Qplus ys b.
Proof.
  intro H. revert a b. induction H as [|x y xs ys Hxy Hrest IH]; intros a b Hab.
  - exact Hab.
  - cbn [fold_left]. apply IH. apply Qplus_le_compat; assumption.
Qed.

(** The simple moving average is absent exactly when there are fewer
    values than the period.  Otherwise only the last [period] values
    count, and the average never falls when values rise: it is the
    average of the window alone, and a series that is nowhere below
    another has an average that is not below the other's. *)
Theorem sma_window_monotone (values : list Q) (period : nat) :
  (sma values period = None <-> (length values < period)%nat) /\
  ((0 < period <= length values)%nat ->
   sma values period = sma (slice_last period values) period) /\
  ((0 < period)%nat ->
   forall others a b,
     Forall2 Qle values others ->
     sma values period = Some a -> sma others period = Some b -> a <= b).
Proof.
  split; [apply sma_None_iff|]. split.
  - intros [Hpos Hle].
    rewrite (sma_Some values period Hle).
    rewrite (sma_Some (slice_last period values) period)
      by (rewrite slice_last_length; lia).
    rewrite slice_last_idempotent by exact Hle. reflexivity.
  - intros Hpos others a b Hall Ha Hb.
    pose proof (Forall2_length Hall) as Hlen.
    destruct (Nat.lt_ge_cases (length values) period) as [Hlt | Hge];
      [apply sma_None_iff in Hlt; congruence|].
    rewrite (sma_Some values period Hge) in Ha.
    rewrite (sma_Some others period) in Hb by (rewrite <- Hlen; exact Hge).
    injection Ha as <-. injection Hb as <-.
    unfold Qdiv. apply Qmult_le_compat_r.
    + unfold sum. apply fold_sum_monotone;
        [apply Forall2_slice_last, Hall | apply Qle_refl].
    + apply Qlt_le_weak, Qinv_lt_0_compat, Qn_pos, Hpos.
Qed.

Lemma sma_nonneg (values : list Q) (period : nat) (m : Q) :
  (forall x, In x values -> 0 <= x) ->
  (0 < period)%nat ->
  sma values period = Some m -> 0 <= m.
Proof.
  intros Hall Hpos Hsma.
  destruct (Nat.lt_ge_cases (length values) period) as [Hlt | Hge].
  - apply sma_None_iff in Hlt. congruence.
  - rewrite (sma_Some _ _ Hge) in Hsma. inversion Hsma; subst m.
    pose proof (Qn_pos period Hpos) as Hp.
    destruct (sum_bounds (slice_last period values) 0
                (Math_max (slice_last period values))) as [Hlo _].
    { intros x Hx. split; [apply Hall, (slice_last_In _ _ _ Hx) | apply Math_max_ge, Hx]. }
    apply Qle_shift_div_l; [exact Hp|]. lra.
Qed.

Lemma rsi_fold_nonneg (closes : list Q) (idx : list nat) (g ls : Q) :
  0 <= g -> 0 <= ls ->
  let '(gains, losses) :=
    fold_left
      (fun '(gains, losses) i =>
         let change := nth i closes 0 - nth (i - 1) closes 0 in
         if change >? 0 then (gains + change, losses) else (gains, losses - change))
      idx (g, ls) in
  0 <= gains /\ 0 <= losses.
Proof.
  revert g ls. induction idx as [|i idx IH]; intros g ls Hg Hls; simpl.
  - split; assumption.
  - destruct (nth i closes 0 - nth (i - 1) closes 0 >? 0) eqn:E.
    + apply Qlt_bool_iff in E. apply IH; [lra | exact Hls].
    + apply Qlt_bool_false_iff in E. apply IH; [exact Hg | lra].
Qed.

Lemma Qdiv_nonneg (a b : Q) : 0 <= a -> 0 < b -> 0 <= a / b.
Proof. intros Ha Hb. apply Qle_shift_div_l; [exact Hb | lra]. Qed.

Lemma Qdiv_le_1 (a b : Q) : 0 < b -> a <= b -> a / b <= 1.
Proof. intros Hb Hab. apply Qle_shift_div_r; [exact Hb | lra]. Qed.

(** RSI is absent exactly when there are fewer than [period + 1] closes,
    and otherwise lies between 0 and 100. *)
Theorem rsi_in_range (closes : list Q) (period : nat) :
  (rsi closes period = None <-> (length closes < period + 1)%nat) /\
  ((0 < period)%nat ->
   forall r, rsi closes period = Some r -> 0 <= r /\ r <= 100).
Proof.
  unfold rsi.
  destruct (length closes <? period + 1)%nat eqn:E.
  - apply Nat.ltb_lt in E. split; [split; [intros _; exact E | reflexivity] | discriminate].
  - apply Nat.ltb_ge in E.
    pose proof (rsi_fold_nonneg closes (seq (length closes - period) period) 0 0
                  (Qle_refl 0) (Qle_refl 0)) as Hfold.
    destruct (fold_left _ (seq (length closes - period) period) (0, 0))
      as [gains losses].
    destruct Hfold as [Hg Hl].
    split.
    + split; [|lia].
      cbv zeta. destruct (losses / Qn period =? 0); discriminate.
    + intros Hpos r. pose proof (Qn_pos period Hpos) as Hp. cbv zeta.
      destruct (losses / Qn period =? 0) eqn:Ez.
      * intro H. inversion H; subst r. split; lra.
      * intro H. inversion H; subst r. clear H.
        apply Qeq_bool_neq in Ez.
        pose proof (Qdiv_nonneg _ _ Hl Hp) as Hal.
        pose proof (Qdiv_nonneg _ _ Hg Hp) as Hag.
        assert (Hal' : 0 < losses / Qn period).
        { apply Qle_lteq in Hal. destruct Hal as [Hlt | Heq]; [exact Hlt|].
          exfalso. apply Ez. symmetry. exact Heq. }
        pose proof (Qdiv_nonneg _ _ Hag Hal') as Hrs.
        set (rs := gains / Qn period / (losses / Qn period)) in *.
        assert (Hd : 0 < 1 + rs) by lra.
        assert (H1 : 0 <= 100 / (1 + rs)) by (apply Qdiv_nonneg; [lra | exact Hd]).
        assert (H2 : 100 / (1 + rs) <= 100)
          by (apply Qle_shift_div_r; [exact Hd | lra]).
        split; lra.
Qed.

Lemma last_candle_in_slice (f : Candle -> Q) (candles : list Candle) (n : nat) :
  candles <> [] ->
  In (f (last_candle candles)) (map f (slice_last n candles)).
Proof.
  intro Hne. apply in_map. unfold last_candle. apply last_in_slice_last, Hne.
Qed.

(** On a window whose latest bar closes between its own low and high,
    Stochastic %K lies between 0 and 100. *)
Theorem stochasticK_in_range (candles : list Candle) (kPeriod dPeriod : nat) (k : Q) :
  candles <> [] ->
  l (last_candle candles) <= c (last_candle candles) ->
  c (last_candle candles) <= h (last_candle candles) ->
  stochasticK candles kPeriod dPeriod = Some k ->
  0 <= k /\ k <= 100.
Proof.
  intros Hne Hlow Hhigh. unfold stochasticK.
  destruct (length candles <? kPeriod)%nat; [discriminate|]. cbv zeta.
  pose proof (Math_max_ge _ _ (last_candle_in_slice h candles kPeriod Hne)) as Hmax.
  pose proof (Math_min_le _ _ (last_candle_in_slice l candles kPeriod Hne)) as Hmin.
  set (high := Math_max (map h (slice_last kPeriod candles))) in *.
  set (low := Math_min (map l (slice_last kPeriod candles))) in *.
  destruct (high =? low) eqn:E.
  - intro H. inversion H; subst k. split; lra.
  - intro H. inversion H; subst k. clear H.
    apply Qeq_bool_neq in E.
    assert (Hrange : 0 < high - low).
    { assert (Hle : low <= high) by lra.
      apply Qle_lteq in Hle. destruct Hle as [Hlt | Heq]; [lra|].
      exfalso. apply E. symmetry. exact Heq. }
    pose proof (Qdiv_nonneg (c (last_candle candles) - low) (high - low)) as H0.
    pose proof (Qdiv_le_1 (c (last_candle candles) - low) (high - low) Hrange) as H1.
    split; [assert (0 <= (c (last_candle candles) - low) / (high - low))
              by (apply H0; [lra | exact Hrange]); lra
           | assert ((c (last_candle candles) - low) / (high - low) <= 1)
               by (apply H1; lra); lra].
Qed.

Lemma num_or_nonneg (o : option Q) (d : Q) :
  0 <= d -> (forall x, o = Some x -> 0 <= x) -> 0 <= num_or o d.
Proof.
  intros Hd Ho. unfold num_or. destruct o as [x|]; [|exact Hd].
  destruct (x =? 0); [exact Hd | apply Ho; reflexivity].
Qed.

(** The directional measure is absent exactly when there are fewer than
    twice [period] candles, and otherwise lies between 0 and 100. *)
Theorem adx_in_range (candles : list Candle) (period : nat) :
  (adx candles period = None <-> (length candles < period * 2)%nat) /\
  ((0 < period)%nat ->
   forall a, adx candles period = Some a -> 0 <= a /\ a <= 100).
Proof.
  unfold adx.
  destruct (length candles <? period * 2)%nat eqn:E.
  - apply Nat.ltb_lt in E. split; [split; [intros _; exact E | reflexivity] | discriminate].
  - apply Nat.ltb_ge in E. cbv zeta.
    set (dms := map _ (bar_pairs candles)).
    split.
    + split; [|lia]. destruct (_ =? 0); discriminate.
    + intros Hpos a.
      assert (Hplus : 0 <= num_or (sma (map fst dms) period) 0).
      { apply num_or_nonneg; [apply Qle_refl|]. intros x Hx.
        apply (sma_nonneg (map fst dms) period x); [|exact Hpos | exact Hx].
        intros y Hy. apply in_map_iff in Hy. destruct Hy as [[p m] [<- Hin]].
        unfold dms in Hin. apply in_map_iff in Hin.
        destruct Hin as [[previous current] [Heq _]].
        inversion Heq; subst. cbn [fst].
        destruct ((h current - h previous >? l previous - l current) &&
                  (h current - h previous >? 0)) eqn:Ec; [|apply Qle_refl].
        apply andb_true_iff in Ec. destruct Ec as [_ Ec].
        apply Qlt_bool_iff in Ec. lra. }
      assert (Hminus : 0 <= num_or (sma (map snd dms) period) 0).
      { apply num_or_nonneg; [apply Qle_refl|]. intros x Hx.
        apply (sma_nonneg (map snd dms) period x); [|exact Hpos | exact Hx].
        intros y Hy. apply in_map_iff in Hy. destruct Hy as [[p m] [<- Hin]].
        unfold dms in Hin. apply in_map_iff in Hin.
        destruct Hin as [[previous current] [Heq _]].
        inversion Heq; subst. cbn [snd].
        destruct ((l previous - l current >? h current - h previous) &&
                  (l previous - l current >? 0)) eqn:Ec; [|apply Qle_refl].
        apply andb_true_iff in Ec. destruct Ec as [_ Ec].
        apply Qlt_bool_iff in Ec. lra. }
      set (plusDI := num_or (sma (map fst dms) period) 0) in *.
      set (minusDI := num_or (sma (map snd dms) period) 0) in *.
      destruct (plusDI + minusDI =? 0) eqn:Ez.
      * intro H. injection H as <-. split; lra.
      * intro H. injection H as <-.
        apply Qeq_bool_neq in Ez.
        assert (Hsum : 0 < plusDI + minusDI).
        { assert (Hle : 0 <= plusDI + minusDI) by lra.
          apply Qle_lteq in Hle. destruct Hle as [Hlt | Heq]; [exact Hlt|].
          exfalso. apply Ez. symmetry. exact Heq. }
        assert (Habs : Qabs (plusDI - minusDI) <= plusDI + minusDI)
          by (apply Qabs_Qle_condition; split; lra).
        pose proof (Qabs_nonneg (plusDI - minusDI)) as Habs0.
        pose proof (Qdiv_nonneg _ _ Habs0 Hsum) as H0.
        pose proof (Qdiv_le_1 _ _ Hsum Habs) as H1.
        change (0 <= Qabs (plusDI - minusDI) / (plusDI + minusDI) * 100 /\
                Qabs (plusDI - minusDI) / (plusDI + minusDI) * 100 <= 100).
        set (q := Qabs (plusDI - minusDI) / (plusDI + minusDI)) in *.
        clearbody q. split; lra.
Qed.

(** The average true range is absent exactly when there are fewer than
    [period + 1] candles, and otherwise is not negative. *)
Theorem atr_nonneg (candles : list Candle) (period : nat) :
  (atr candles period = None <-> (length candles < period + 1)%nat) /\
  ((0 < period)%nat -> forall a, atr candles period = Some a -> 0 <= a).
Proof.
  unfold atr.
  destruct (length candles <? period + 1)%nat eqn:E.
  - apply Nat.ltb_lt in E. split; [split; [intros _; exact E | reflexivity] | discriminate].
  - apply Nat.ltb_ge in E. cbv zeta. split.
    + rewrite sma_None_iff, length_map. unfold bar_pairs.
      rewrite length_combine.
      replace (length (tl candles)) with (length candles - 1)%nat
        by (destruct candles; simpl; lia).
      lia.
    + intros Hpos a Ha. eapply sma_nonneg; [|exact Hpos | exact Ha].
      intros x Hx. apply in_map_iff in Hx.
      destruct Hx as [[previous current] [<- _]].
      eapply Qle_trans; [apply (Qabs_nonneg (l current - c previous))|].
      apply Q.le_max_r.
Qed.

(** ** Leo indicators *)

Lemma volume_fold_nonneg (bars : list Candle) (b s : Q) :
  (forall k, In k bars -> 0 <= v k) -> 0 <= b -> 0 <= s ->
  let '(buyerVolume, sellerVolume) :=
    fold_left
      (fun '(buyerVolume, sellerVolume) candle =>
         if c candle >? o candle then (buyerVolume + v candle, sellerVolume)
         else if c candle <? o candle then (buyerVolume, sellerVolume + v candle)
         else (buyerVolume + v candle / 2, sellerVolume + v candle / 2))
      bars (b, s) in
  0 <= buyerVolume /\ 0 <= sellerVolume.
Proof.
  revert b s. induction bars as [|k bars IH]; intros b s Hall Hb Hs; simpl.
  - split; assumption.
  - assert (Hk : 0 <= v k) by (apply Hall; now left).
    assert (Hrest : forall k', In k' bars -> 0 <= v k') by (intros; apply Hall; now right).
    destruct (c k >? o k); [apply IH; [exact Hrest | lra | exact Hs]|].
    destruct (c k <? o k); [apply IH; [exact Hrest | exact Hb | lra]|].
    apply IH; [exact Hrest | |];
      (assert (0 <= v k / 2) by (apply Qdiv_nonneg; lra); lra).
Qed.

Lemma Qdiv_mult_cancel (a b : Q) : ~ b == 0 -> a / b * b == a.
Proof. intro Hb. field. exact Hb. Qed.

(** The volume-shift analysis on volumes that are not negative: a buyer
    shift means the buyer volume is more than 1.5 times the seller
    volume, a seller shift the reverse, both with a strength above 20 and
    at most 100; a neutral shift has strength 0; fewer candles than the
    lookback give a neutral shift. *)
Theorem volume_shift_meaning (candles : list Candle) (lookback : nat) :
  (forall k, In k candles -> 0 <= v k) ->
  let analysis := analyzeVolumeShift candles lookback in
  match va_shift analysis with
  | buyer =>
      (15 # 10) * sellerVolume analysis < buyerVolume analysis /\
      20 < va_strength analysis /\ va_strength analysis <= 100
  | seller =>
      (15 # 10) * buyerVolume analysis < sellerVolume analysis /\
      20 < va_strength analysis /\ va_strength analysis <= 100
  | neutral => va_strength analysis = 0
  end /\
  ((length candles < lookback)%nat -> va_shift analysis = neutral).
Proof.
  intros Hvol. unfold analyzeVolumeShift. cbv zeta.
  destruct (length candles <? lookback)%nat eqn:E.
  - cbn. split; [reflexivity | reflexivity].
  - apply Nat.ltb_ge in E. split; [|lia].
    pose proof (volume_fold_nonneg (slice_last lookback candles) 0 0) as Hfold.
    destruct (fold_left _ (slice_last lookback candles) (0, 0)) as [bv sv].
    destruct Hfold as [Hb Hs];
      [intros k Hk; apply Hvol, (slice_last_In _ _ _ Hk) | lra | lra |].
    destruct (bv + sv =? 0) eqn:Ez; [reflexivity|].
    apply Qeq_bool_neq in Ez.
    assert (Htotal : 0 < bv + sv).
    { assert (Hle : 0 <= bv + sv) by lra.
      apply Qle_lteq in Hle. destruct Hle as [Hlt | Heq]; [exact Hlt|].
      exfalso. apply Ez. symmetry. exact Heq. }
    pose proof (Qdiv_mult_cancel bv (bv + sv) Ez) as Hratio.
    set (ratio := bv / (bv + sv)) in *.
    destruct (ratio >? 6 # 10) eqn:Ebuy.
    + apply Qlt_bool_iff in Ebuy. cbn [va_shift va_strength buyerVolume sellerVolume].
      assert (Hm : (6 # 10) * (bv + sv) < ratio * (bv + sv))
        by (apply Qmult_lt_compat_r; assumption).
      split; [lra|]. split; [|apply Q.le_min_r].
      apply Q.min_glb_lt; lra.
    + destruct (ratio <? 4 # 10) eqn:Esell.
      * apply Qlt_bool_iff in Esell.
        cbn [va_shift va_strength buyerVolume sellerVolume].
        assert (Hm : ratio * (bv + sv) < (4 # 10) * (bv + sv))
          by (apply Qmult_lt_compat_r; assumption).
        split; [lra|]. split; [|apply Q.le_min_r].
        apply Q.min_glb_lt; lra.
      * reflexivity.
Qed.

(** Every fair-value gap found has its bottom strictly below its top,
    its midpoint halfway between them, and is marked filled exactly when
    the latest close lies between bottom and top; with fewer than
    [lookback + 2] candles none is found. *)
Theorem fvg_zones_geometry (candles : list Candle) (lookback : nat) :
  ((length candles < lookback + 2)%nat -> detectFVGs candles lookback = []) /\
  (forall zone, In zone (detectFVGs candles lookback) ->
     bottomPrice zone < topPrice zone /\
     midpoint zone == (topPrice zone + bottomPrice zone) / 2 /\
     bottomPrice zone < midpoint zone /\ midpoint zone < topPrice zone /\
     (isFilled zone = true <->
      bottomPrice zone <= c (last_candle candles) /\
      c (last_candle candles) <= topPrice zone)).
Proof.
  unfold detectFVGs.
  destruct (length candles <? lookback + 2)%nat eqn:E.
  - split; [reflexivity | intros zone []].
  - apply Nat.ltb_ge in E. split; [lia|]. cbv zeta.
    intros zone Hin. apply in_flat_map in Hin.
    destruct Hin as [[prev current] [_ Hzone]].
    apply in_app_or in Hzone. destruct Hzone as [Hbull | Hbear].
    + destruct (l current >? h prev) eqn:Egap; [|contradiction].
      destruct Hbull as [<- | []]. apply Qlt_bool_iff in Egap.
      cbn [bottomPrice topPrice midpoint isFilled].
      assert (Hmid : (l current + h prev) / 2 == (l current + h prev) * (1 # 2))
        by field.
      split; [exact Egap|]. split; [reflexivity|].
      split; [rewrite Hmid; lra|]. split; [rewrite Hmid; lra|]. split.
      * intro H. apply andb_true_iff in H. destruct H as [Ha Hb].
        apply Qle_bool_iff in Ha, Hb. split; assumption.
      * intros [H1 H2]. apply andb_true_iff.
        split; apply Qle_bool_iff; assumption.
    + destruct (h current <? l prev) eqn:Egap; [|contradiction].
      destruct Hbear as [<- | []]. apply Qlt_bool_iff in Egap.
      cbn [bottomPrice topPrice midpoint isFilled].
      assert (Hmid : (l prev + h current) / 2 == (l prev + h current) * (1 # 2))
        by field.
      split; [exact Egap|]. split; [reflexivity|].
      split; [rewrite Hmid; lra|]. split; [rewrite Hmid; lra|]. split.
      * intro H. apply andb_true_iff in H. destruct H as [Ha Hb].
        apply Qle_bool_iff in Ha, Hb. split; assumption.
      * intros [H1 H2]. apply andb_true_iff.
        split; apply Qle_bool_iff; assumption.
Qed.
Ltac bool_props :=
  repeat match goal with
         | H : (_ && _) = true |- _ => apply andb_true_iff in H; destruct H
         | H : negb _ = true |- _ => apply negb_true_iff in H
         | H : Qlt_bool _ _ = true |- _ => apply Qlt_bool_iff in H
         | H : Qle_bool _ _ = true |- _ => apply Qle_bool_iff in H
         | H : Qlt_bool _ _ = false |- _ => apply Qlt_bool_false_iff in H
         | H : Qle_bool _ _ = false |- _ => apply Qle_bool_false_iff in H
         end.

Lemma forallb_seq_iff (f : nat -> bool) (first count : nat) :
  forallb f (seq first count) = true <->
  forall j, (first <= j < first + count)%nat -> f j = true.
Proof.
  rewrite forallb_forall. split.
  - intros H j Hj. apply H, in_seq, Hj.
  - intros H j Hj. apply H, in_seq, Hj.
Qed.

(** A swing high is reported exactly for each bar, at least [strength]
    bars from either end, whose high is strictly above the highs of the
    [strength] bars on both sides; a swing low likewise with lows strictly
    below. *)
Theorem swing_points_characterised (candles : list Candle) (strength : nat) :
  let bar i := nth i candles no_candle in
  (forall point,
      In point (fst (detectSwingPoints candles strength)) <->
      exists i,
        (strength <= i /\ i + strength < length candles)%nat /\
        point = {| sp_date := t (bar i); sp_price := h (bar i);
                   sp_type := swing_high; sp_strength := strength |} /\
        forall j, (1 <= j <= strength)%nat ->
                  h (bar (i - j)%nat) < h (bar i) /\ h (bar (i + j)%nat) < h (bar i)) /\
  (forall point,
      In point (snd (detectSwingPoints candles strength)) <->
      exists i,
        (strength <= i /\ i + strength < length candles)%nat /\
        point = {| sp_date := t (bar i); sp_price := l (bar i);
                   sp_type := swing_low; sp_strength := strength |} /\
        forall j, (1 <= j <= strength)%nat ->
                  l (bar i) < l (bar (i - j)%nat) /\ l (bar i) < l (bar (i + j)%nat)).
Proof.
  intro bar. unfold detectSwingPoints.
  destruct (length candles <? strength * 2 + 1)%nat eqn:E.
  - apply Nat.ltb_lt in E.
    split; intro point; (split; [intros [] | intros [i [Hi _]]; lia]).
  - apply Nat.ltb_ge in E. cbv zeta. cbn [fst snd]. fold bar.
    split; intro point; rewrite in_flat_map; split.
    + intros [i [Hi Hpoint]]. apply in_seq in Hi.
      destruct (forallb _ (seq 1 strength)) eqn:Ehigh; [|contradiction].
      destruct Hpoint as [<- | []].
      exists i. split; [lia|]. split; [reflexivity|].
      intros j Hj. rewrite forallb_seq_iff in Ehigh.
      specialize (Ehigh j ltac:(lia)).
      apply negb_true_iff, orb_false_iff in Ehigh. destruct Ehigh as [H1 H2].
      bool_props. split; assumption.
    + intros [i [Hi [-> Hall]]]. exists i. split; [apply in_seq; lia|].
      match goal with
      | |- In _ (if ?b then _ else _) => assert (Ehigh : b = true)
      end.
      { apply forallb_seq_iff. intros j Hj. cbv beta.
        destruct (Hall j ltac:(lia)) as [H1 H2].
        apply negb_true_iff, orb_false_iff.
        split; apply Qle_bool_false_iff; assumption. }
      rewrite Ehigh. now left.
    + intros [i [Hi Hpoint]]. apply in_seq in Hi.
      destruct (forallb _ (seq 1 strength)) eqn:Elow; [|contradiction].
      destruct Hpoint as [<- | []].
      exists i. split; [lia|]. split; [reflexivity|].
      intros j Hj. rewrite forallb_seq_iff in Elow.
      specialize (Elow j ltac:(lia)).
      apply negb_true_iff, orb_false_iff in Elow. destruct Elow as [H1 H2].
      bool_props. split; assumption.
    + intros [i [Hi [-> Hall]]]. exists i. split; [apply in_seq; lia|].
      match goal with
      | |- In _ (if ?b then _ else _) => assert (Elow : b = true)
      end.
      { apply forallb_seq_iff. intros j Hj. cbv beta.
        destruct (Hall j ltac:(lia)) as [H1 H2].
        apply negb_true_iff, orb_false_iff.
        split; apply Qle_bool_false_iff; assumption. }
      rewrite Elow. now left.
Qed.

(** ** Bands, trend and Fibonacci zones *)

(** The extended Bollinger bands are the plain bands with a position
    added.  For a positive period (a period of 0 divides by zero), a
    square root that is never negative and a multiplier that is not
    negative, the lower band is at most the middle and the middle at most
    the upper; the position is 1/2 when the bands coincide and lies
    between 0 and 1 when the latest close lies inside the bands. *)
Theorem bollinger_extended_agrees (closes : list Q) (period : nat) (mult : Q) :
  (0 < period)%nat ->
  (forall x, 0 <= Math_sqrt x) ->
  0 <= mult ->
  (bollingerBandsExtended closes period mult = None <->
   bollingerBands closes period mult = None) /\
  forall e,
    bollingerBandsExtended closes period mult = Some e ->
    bollingerBands closes period mult =
      Some {| upper := ext_upper e; lower := ext_lower e;
              band_middle := ext_middle e |} /\
    sma closes period = Some (ext_middle e) /\
    ext_lower e <= ext_middle e /\ ext_middle e <= ext_upper e /\
    (ext_upper e == ext_lower e -> percentB e = 5 # 10) /\
    (ext_lower e <= last closes 0 -> last closes 0 <= ext_upper e ->
     0 <= percentB e /\ percentB e <= 1).
Proof.
  intros _ Hsqrt Hmult. unfold bollingerBandsExtended, bollingerBands.
  destruct (length closes <? period)%nat; [split; [tauto | discriminate]|].
  destruct (sma closes period) as [mid|]; [|split; [tauto | discriminate]].
  cbv zeta.
  set (std := Math_sqrt _).
  assert (Hstd : 0 <= std * mult)
    by (apply Qmult_le_0_compat; [apply Hsqrt | exact Hmult]).
  split; [split; discriminate|].
  intros e He. injection He as <-.
  cbn [ext_upper ext_lower ext_middle percentB].
  split; [reflexivity|]. split; [reflexivity|].
  split; [lra|]. split; [lra|]. split.
  - intro Heq. apply Qeq_bool_iff in Heq. rewrite Heq. reflexivity.
  - intros Hlow Hhigh.
    destruct (mid + std * mult =? mid - std * mult) eqn:E; cbn [negb].
    + split; lra.
    + apply Qeq_bool_neq in E.
      assert (Hwidth : 0 < mid + std * mult - (mid - std * mult)).
      { assert (Hle : 0 <= std * mult + std * mult) by lra.
        apply Qle_lteq in Hle. destruct Hle as [Hlt | Heq]; [lra|].
        exfalso. apply E. lra. }
      split.
      * apply Qdiv_nonneg; [lra | exact Hwidth].
      * apply Qdiv_le_1; [exact Hwidth | lra].
Qed.

Lemma hd_skipn_nth {A : Type} (xs : list A) (d : A) (k : nat) :
  hd d (skipn k xs) = nth k xs d.
Proof.
  revert k. induction xs as [|x xs IH]; intro k.
  - destruct k; reflexivity.
  - destruct k as [|k]; [reflexivity | apply IH].
Qed.

Lemma last_skipn {A : Type} (xs : list A) (d : A) (k : nat) :
  (k < length xs)%nat -> last (skipn k xs) d = last xs d.
Proof.
  revert k. induction xs as [|x xs IH]; intros k Hk; [simpl in Hk; lia|].
  destruct k as [|k]; [reflexivity|].
  change (skipn (S k) (x :: xs)) with (skipn k xs).
  simpl in Hk. rewrite IH by lia.
  destruct xs as [|y ys]; [simpl in Hk; lia | reflexivity].
Qed.

Lemma Qdiv_gt_iff (k a b : Q) : 0 < b -> (k < a / b <-> k * b < a).
Proof.
  intro Hb. split; intro H.
  - apply Qnot_le_lt. intro Hle.
    apply (Qlt_not_le _ _ H). apply Qle_shift_div_r; assumption.
  - apply Qlt_shift_div_l; assumption.
Qed.

Lemma Qdiv_lt_iff (k a b : Q) : 0 < b -> (a / b < k <-> a < k * b).
Proof.
  intro Hb. split; intro H.
  - apply Qnot_le_lt. intro Hle.
    apply (Qlt_not_le _ _ H). apply Qle_shift_div_l; assumption.
  - apply Qlt_shift_div_r; assumption.
Qed.

Lemma determineTrend_closes (candles : list Candle) (lookback : nat) :
  (0 < lookback <= length candles)%nat ->
  let first := c (nth (length candles - lookback) candles no_candle) in
  let latest := c (last_candle candles) in
  determineTrend candles lookback =
    if (latest - first) / first >? 5 # 100 then up
    else if (latest - first) / first <? - (5 # 100) then down
    else sideways.
Proof.
  intros [Hpos Hle]. unfold determineTrend.
  destruct (length candles <? lookback)%nat eqn:E; [apply Nat.ltb_lt in E; lia|].
  cbv zeta.
  assert (Hhd : c (hd no_candle (slice_last lookback candles))
                = c (nth (length candles - lookback) candles no_candle)).
  { unfold slice_last. destruct lookback as [|n]; [lia|].
    rewrite hd_skipn_nth. reflexivity. }
  assert (Hlast : c (last_candle (slice_last lookback candles)) = c (last_candle candles)).
  { unfold slice_last, last_candle. destruct lookback as [|n]; [lia|].
    rewrite last_skipn by lia. reflexivity. }
  rewrite Hhd, Hlast. reflexivity.
Qed.

(** The trend looks at two closes only, the latest and the one at the
    start of the lookback window: series that agree on them have the same
    trend.  With a positive first close, [up] is given only when the
    latest close is above it and [down] only when it is below, so a window
    that ends where it began is [sideways]; so is a series shorter than
    the lookback. *)
Theorem trend_follows_the_closes (candles : list Candle) (lookback : nat) :
  ((length candles < lookback)%nat -> determineTrend candles lookback = sideways) /\
  ((0 < lookback <= length candles)%nat ->
   let first := c (nth (length candles - lookback) candles no_candle) in
   let latest := c (last_candle candles) in
   (forall others,
       (lookback <= length others)%nat ->
       c (nth (length others - lookback) others no_candle) = first ->
       c (last_candle others) = latest ->
       determineTrend others lookback = determineTrend candles lookback) /\
   (0 < first ->
    (determineTrend candles lookback = up -> first < latest) /\
    (determineTrend candles lookback = down -> latest < first) /\
    (latest == first -> determineTrend candles lookback = sideways))).
Proof.
  split.
  - intro Hshort. unfold determineTrend.
    destruct (length candles <? lookback)%nat eqn:E; [reflexivity|].
    apply Nat.ltb_ge in E. lia.
  - intros Hrange first latest. split.
    + intros others Hlen Hfirst Hlatest.
      rewrite (determineTrend_closes candles lookback Hrange).
      rewrite (determineTrend_closes others lookback) by lia.
      cbv zeta. rewrite Hfirst, Hlatest. reflexivity.
    + intro Hfirst.
      rewrite (determineTrend_closes candles lookback Hrange). cbv zeta.
      fold first latest.
      pose proof (Qdiv_gt_iff (5 # 100) (latest - first) first Hfirst) as Hup.
      pose proof (Qdiv_lt_iff (- (5 # 100)) (latest - first) first Hfirst) as Hdown.
      destruct ((latest - first) / first >? 5 # 100) eqn:Eup.
      * apply Qlt_bool_iff in Eup. apply Hup in Eup.
        split; [intros _; lra|]. split; [discriminate|].
        intro Heq. rewrite Heq in Eup. lra.
      * destruct ((latest - first) / first <? - (5 # 100)) eqn:Edown.
        -- apply Qlt_bool_iff in Edown. apply Hdown in Edown.
           split; [discriminate|]. split; [intros _; lra|].
           intro Heq. rewrite Heq in Edown. lra.
        -- split; [discriminate|]. split; [discriminate | reflexivity].
Qed.

(** The distance to the nearest 20-bar support or resistance is absent
    exactly when there are fewer than 20 candles; for a positive latest
    close it is not negative, and it is zero when the close sits on the
    20-bar high or the 20-bar low. *)
Theorem sr_distance_nonneg (candles : list Candle) (proximityPct : Q) :
  (calculateSRDistance candles proximityPct = None <-> (length candles < 20)%nat) /\
  (0 < c (last_candle candles) ->
   forall d, calculateSRDistance candles proximityPct = Some d ->
     0 <= d /\
     (c (last_candle candles) == Math_max (map h (slice_last 20 candles)) \/
      c (last_candle candles) == Math_min (map l (slice_last 20 candles)) -> d == 0)).
Proof.
  unfold calculateSRDistance.
  destruct (length candles <? 20)%nat eqn:E.
  - apply Nat.ltb_lt in E. split; [split; [intros _; exact E | reflexivity] | discriminate].
  - apply Nat.ltb_ge in E. split; [split; [discriminate | lia]|].
    intros Hprice d Hd. cbv zeta in Hd. injection Hd as <-.
    set (price := c (last_candle candles)) in *.
    set (resistance := Math_max (map h (slice_last 20 candles))).
    set (support := Math_min (map l (slice_last 20 candles))).
    assert (Hr : 0 <= Qabs (price - resistance) / price * 100).
    { pose proof (Qdiv_nonneg _ _ (Qabs_nonneg (price - resistance)) Hprice). lra. }
    assert (Hs : 0 <= Qabs (price - support) / price * 100).
    { pose proof (Qdiv_nonneg _ _ (Qabs_nonneg (price - support)) Hprice). lra. }
    split; [apply Q.min_glb; assumption|].
    assert (Hzero : forall level, price == level ->
                                  Qabs (price - level) / price * 100 == 0).
    { intros level Heq.
      assert (Hd0 : price - level == 0) by lra.
      rewrite Hd0. change (Qabs 0) with 0. unfold Qdiv. ring. }
    intros [Heq | Heq].
    + apply Qle_antisym; [|apply Q.min_glb; assumption].
      eapply Qle_trans; [apply Q.le_min_l|]. apply Qle_lteq. right. exact (Hzero _ Heq).
    + apply Qle_antisym; [|apply Q.min_glb; assumption].
      eapply Qle_trans; [apply Q.le_min_r|]. apply Qle_lteq. right. exact (Hzero _ Heq).
Qed.

Ltac decide_literals :=
  repeat match goal with
         | |- context [String.eqb (String ?a ?s) (String ?b ?u)] =>
             let r := eval vm_compute in (String.eqb (String a s) (String b u)) in
             change (String.eqb (String a s) (String b u)) with r
         end;
  cbv iota.

(** Fibonacci zones.  With fewer than 50 candles nothing is hit; a
    bullish reaction is only reported together with a hit and means the
    latest close is above the previous one; the wildcard zone is always
    hit; and, measured from swing low to swing high on bars whose latest
    low is not above its high, a hit of the 38.2-50 zone or of the 50-61.8
    zone is a hit of the 38.2-61.8 zone. *)
Theorem fibonacci_zone_hits (candles : list Candle) (reference : string) :
  (forall zone, (length candles < 50)%nat ->
                analyzeFibonacci candles reference zone = (false, false)) /\
  (forall zone, snd (analyzeFibonacci candles reference zone) = true ->
                fst (analyzeFibonacci candles reference zone) = true /\
                c (prev_candle candles) < c (last_candle candles)) /\
  ((50 <= length candles)%nat -> fst (analyzeFibonacci candles reference "*") = true) /\
  (String.eqb reference "swing_high_to_low" = false ->
   l (last_candle candles) <= h (last_candle candles) ->
   (fst (analyzeFibonacci candles reference "38.2-50") = true \/
    fst (analyzeFibonacci candles reference "50-61.8") = true) ->
   fst (analyzeFibonacci candles reference "38.2-61.8") = true).
Proof.
  split; [|split; [|split]].
  - intros zone Hshort. unfold analyzeFibonacci.
    apply Nat.ltb_lt in Hshort. rewrite Hshort. reflexivity.
  - intro zone. unfold analyzeFibonacci.
    destruct (length candles <? 50)%nat; [discriminate|]. cbv zeta.
    destruct (if String.eqb reference "swing_high_to_low" then _ else _)
      as [swingHigh swingLow].
    cbn [fst snd]. intro H. apply andb_true_iff in H. destruct H as [H Hup].
    apply andb_true_iff in H. destruct H as [Hhit _].
    split; [exact Hhit | apply Qlt_bool_iff, Hup].
  - intro Hlen. unfold analyzeFibonacci.
    destruct (length candles <? 50)%nat eqn:E; [apply Nat.ltb_lt in E; lia|].
    cbv zeta.
    destruct (if String.eqb reference "swing_high_to_low" then _ else _)
      as [swingHigh swingLow].
    cbn [fst]. decide_literals. reflexivity.
  - intros Href Hbar. unfold analyzeFibonacci.
    destruct (length candles <? 50)%nat eqn:E; [cbn; intros [H | H]; discriminate|].
    apply Nat.ltb_ge in E. cbv zeta. rewrite Href. cbn [fst].
    assert (Hne : candles <> []) by (destruct candles; [simpl in E; lia | discriminate]).
    pose proof (Math_max_ge _ _ (last_candle_in_slice h candles 50 Hne)) as Hmax.
    pose proof (Math_min_le _ _ (last_candle_in_slice l candles 50 Hne)) as Hmin.
    set (swingHigh := Math_max (map h (slice_last 50 candles))) in *.
    set (swingLow := Math_min (map l (slice_last 50 candles))) in *.
    set (price := c (last_candle candles)).
    decide_literals.
    intros [H | H]; apply andb_true_iff in H; destruct H as [H1 H2];
      apply Qle_bool_iff in H1, H2; apply andb_true_iff;
      split; apply Qle_bool_iff; lra.
Qed.

(** Measured from swing high to swing low over a window whose highest
    high is above its lowest low, no zone but the wildcard is ever hit. *)
Theorem fibonacci_high_to_low_hits_nothing (candles : list Candle) (zone : string) :
  Math_min (map l (slice_last 50 candles)) < Math_max (map h (slice_last 50 candles)) ->
  String.eqb zone "*" = false ->
  analyzeFibonacci candles "swing_high_to_low" zone = (false, false).
Proof.
  intros Hrange Hzone. unfold analyzeFibonacci.
  destruct (length candles <? 50)%nat; [reflexivity|]. cbv zeta.
  change (String.eqb "swing_high_to_low" "swing_high_to_low") with true. cbv iota.
  set (high := Math_max (map h (slice_last 50 candles))) in *.
  set (low := Math_min (map l (slice_last 50 candles))) in *.
  set (price := c (last_candle candles)).
  rewrite Hzone.
  assert (Hhit : forall a b : bool, a && b = false -> (a && b, a && b && (2 <=? length candles)%nat && (price >? c (prev_candle candles))) = (false, false))
    by (intros a b ->; reflexivity).
  assert (Hpair : forall a b, ~ (a <= b) ->
                              (price >=? a) && (price <=? b) = false).
  { intros a b Hab.
    destruct (price >=? a) eqn:E1; [|reflexivity].
    destruct (price <=? b) eqn:E2; [|reflexivity].
    bool_props. exfalso. apply Hab. lra. }
  assert (Habs : forall level, (Qabs (price - level) <=? (low - high) * (1 # 100)) = false).
  { intro level. apply Qle_bool_false_iff.
    pose proof (Qabs_nonneg (price - level)). lra. }
  repeat match goal with
         | |- context [if String.eqb zone ?s then _ else _] =>
             destruct (String.eqb zone s)
         end;
    rewrite ?Habs; try reflexivity;
    apply Hhit, Hpair; intro Hle; lra.
Qed.

(** ** Scores *)

Lemma calculateLeoReversalScore_le_100 indicators direction strength :
  calculateLeoReversalScore indicators direction strength <= 100.
Proof. unfold calculateLeoReversalScore. cbv zeta. apply Q.le_min_r. Qed.

(** The score that comes with each Leo reason: accumulation and
    distribution scores are at most 100, a lower-band bounce scores at
    least 155, an upper-band rejection at least 75, and the two stochastic
    reversals at least 65; no other reason is returned.  A band bounce
    therefore never scores below an accumulation. *)
Theorem leo_score_by_reason candles indicators params reason s :
  classifyLeoReversal candles indicators params = Some (reason, s) ->
  match reason with
  | Reversal_Accumulation | Reversal_Distribution => s <= 100
  | BB_Lower_Bounce => 155 <= s
  | BB_Upper_Reject => 75 <= s
  | Stoch_Oversold_Reversal | Stoch_Overbought_Reversal => 65 <= s
  | _ => False
  end.
Proof.
  unfold classifyLeoReversal. cbv zeta.
  destruct (negb (leo_mode_enabled params)); [discriminate|].
  destruct (bbPercentB indicators) as [bb|], (stochK indicators) as [k|];
    try discriminate.
  repeat (match goal with
          | |- context [if ?b then _ else _] =>
              let E := fresh "E" in destruct b eqn:E
          end; cbv iota);
    intro H; inversion H; subst; clear H;
    try apply calculateLeoReversalScore_le_100;
    bool_props; lra.
Qed.

(** The scores of the standard setups: a breakout score is at most 100;
    consolidation and reversal scores are not negative; pullback and
    Fibonacci pullback scores are not negative when the 20-bar average
    they divide by is present and not zero; and a ticker that satisfies
    the momentum predicate scores above 35. *)
Theorem standard_score_bounds (candles : list Candle) (indicators : Indicators) :
  calculateBreakoutScore candles indicators <= 100 /\
  0 <= calculateConsolidationScore candles indicators /\
  0 <= calculateReversalScore candles indicators /\
  (falsy (sma20 indicators) = false ->
   0 <= calculatePullbackScore candles indicators /\
   0 <= calculateFibPullbackScore candles indicators) /\
  (isMomentum candles indicators = true ->
   35 < calculateMomentumScore candles indicators).
Proof.
  assert (Hpull : 0 <= calculatePullbackScore candles indicators).
  { unfold calculatePullbackScore. cbv zeta.
    pose proof (Q.le_max_l 0 (100 - Qabs (c (last_candle candles) - num_or (sma20 indicators) 0)
                                     / num_or (sma20 indicators) 0 * 100)).
    pose proof (Q.le_max_l 0 (50 - num_or (rsi14 indicators) 50)).
    lra. }
  split; [unfold calculateBreakoutScore; cbv zeta; apply Q.le_min_r|].
  split.
  - unfold calculateConsolidationScore. cbv zeta.
    pose proof (Q.le_max_l 0 (100 - num_or (bbWidth indicators) 1 * 1000)) as H1.
    pose proof (Q.le_max_l 0 (50 - num_or (adx14 indicators) 50)) as H2.
    set (x := Qmax 0 (100 - num_or (bbWidth indicators) 1 * 1000)) in *.
    set (y := Qmax 0 (50 - num_or (adx14 indicators) 50)) in *.
    lra.
  - split.
    + unfold calculateReversalScore. cbv zeta.
      pose proof (Q.le_max_l 0 (Qabs (num_or (rsi14 indicators) 50 - 50) - 20)).
      pose proof (Q.le_max_l 0 (10 - num_or (srDistancePct indicators) 10)).
      set (x := Qmax 0 (10 - num_or (srDistancePct indicators) 10)) in *.
      set (y := Qmax 0 (Qabs (num_or (rsi14 indicators) 50 - 50) - 20)) in *.
      lra.
    + split.
      * intros _. split; [exact Hpull|].
        unfold calculateFibPullbackScore. lra.
      * unfold isMomentum, calculateMomentumScore.
        destruct (rsi14 indicators) as [r|]; [|discriminate].
        destruct (adx14 indicators) as [a|]; [|discriminate].
        intro H. bool_props. cbv zeta.
        rewrite !num_or_nonzero; [lra | intro Hz; lra | intro Hz; lra].
Qed.

(** ** Where the picks come from *)

Lemma passesFixedFilters_true_inv (candles : list Candle) (meta : TickerMeta) :
  passesFixedFilters candles meta = true ->
  (250 <= length candles)%nat /\
  30 < c (last_candle candles) /\
  1000000 <= sum (map v (slice_last 20 candles)) / 20 /\
  1 <= v (last_candle candles) / (sum (map v (slice_last 20 candles)) / 20).
Proof.
  unfold passesFixedFilters.
  destruct (len candles <? minBars FIXED_FILTERS) eqn:E1; [discriminate|].
  destruct (c (last_candle candles) <=? minPrice FIXED_FILTERS) eqn:E2; [discriminate|].
  cbv zeta. rewrite (fold_volume_sum (slice_last 20 candles) 0).
  fold (sum (map v (slice_last 20 candles))).
  apply Qlt_bool_false_iff in E1. change (minBars FIXED_FILTERS) with (Qn 250) in E1.
  apply Qn_le in E1.
  assert (Hlen : len (slice_last 20 candles) = 20).
  { unfold len. rewrite slice_last_length by lia. reflexivity. }
  rewrite Hlen.
  destruct (_ <? minAvgVol20 FIXED_FILTERS) eqn:E3; [discriminate|].
  destruct (_ <? minRelativeVol FIXED_FILTERS) eqn:E4; [discriminate|].
  intros _. bool_props. repeat split; assumption.
Qed.

Lemma passesUserFilters_true_inv (meta : TickerMeta) (p : ScreenerParams) :
  passesUserFilters meta p = true ->
  (user_sector p = "*" \/ sector meta = Some (user_sector p)) /\
  (user_industry p = "*" \/ industry meta = Some (user_industry p)) /\
  market_cap_min p <= num_or (marketCap meta) 0 /\
  num_or (marketCap meta) 0 <= market_cap_max p.
Proof.
  unfold passesUserFilters.
  assert (Hfield : forall wanted (field : option string),
             negb (String.eqb wanted "*") &&
             negb (match field with
                   | Some s => String.eqb s wanted
                   | None => false
                   end) = false ->
             wanted = "*" \/ field = Some wanted).
  { intros wanted field H. apply andb_false_iff in H. destruct H as [H | H].
    - left. apply negb_false_iff, String.eqb_eq in H. exact H.
    - right. apply negb_false_iff in H. destruct field as [s|]; [|discriminate].
      apply String.eqb_eq in H. congruence. }
  destruct (negb (String.eqb (user_sector p) "*") && _) eqn:E1; [discriminate|].
  destruct (negb (String.eqb (user_industry p) "*") && _) eqn:E2; [discriminate|].
  cbv zeta.
  destruct ((_ <? market_cap_min p) || _) eqn:E3; [discriminate|].
  intros _. apply orb_false_iff in E3. destruct E3 as [E3 E4]. bool_props.
  split; [apply Hfield, E1|]. split; [apply Hfield, E2|]. split; assumption.
Qed.

Lemma analyzeTicker_Some
      (p : ScreenerParams) (md : list (string * TickerMeta))
      (name : string) (candles : list Candle) (a : StockAnalysis) :
  analyzeTicker p md (name, candles) = inr (Some a) ->
  sa_ticker a = name /\ sa_candles a = candles /\
  metadata_at md name = Some (sa_meta a) /\
  passesFixedFilters candles (sa_meta a) = true /\
  passesUserFilters (sa_meta a) p = true /\
  passesLeoFilters name candles p = inr true /\
  sa_indicators a = calculateIndicators candles p (Some (sa_meta a)) /\
  passesIndicatorFilters (sa_indicators a) p = true /\
  classifySetup candles (sa_indicators a) p = Some (setupReason a, score a).
Proof.
  unfold analyzeTicker.
  destruct (metadata_at md name) as [meta|]; [|discriminate].
  destruct (len candles <? minBars FIXED_FILTERS); [discriminate|].
  destruct (passesFixedFilters candles meta) eqn:Efixed; [|discriminate].
  destruct (passesUserFilters meta p) eqn:Euser; [|discriminate].
  cbn [negb].
  destruct (passesLeoFilters name candles p) as [e|[|]] eqn:Eleo;
    cbn [bind negb]; try discriminate.
  cbv zeta.
  destruct (passesIndicatorFilters _ p) eqn:Eind; [|discriminate]. cbn [negb].
  destruct (classifySetup candles _ p) as [[reason s]|] eqn:Eclass; [|discriminate].
  intro H. injection H as <-. cbn.
  repeat split; try reflexivity; assumption.
Qed.

Lemma analyzeAll_In
      (p : ScreenerParams) (md : list (string * TickerMeta))
      (entries : list (string * list Candle)) (analyses : list StockAnalysis)
      (a : StockAnalysis) :
  analyzeAll p md entries = inr analyses ->
  In a analyses ->
  exists entry, In entry entries /\ analyzeTicker p md entry = inr (Some a).
Proof.
  revert analyses. induction entries as [|entry rest IH]; intros analyses Hall Hin.
  - injection Hall as <-. contradiction.
  - cbn [analyzeAll] in Hall.
    destruct (analyzeTicker p md entry) as [e|first] eqn:Efirst; [discriminate|].
    cbn [bind] in Hall.
    destruct (analyzeAll p md rest) as [e|others] eqn:Erest; [discriminate|].
    cbn [bind ret] in Hall. injection Hall as <-.
    destruct first as [a0|].
    + destruct Hin as [<- | Hin].
      * exists entry. split; [now left | exact Efirst].
      * destruct (IH others eq_refl Hin) as [entry' [Hin' He]].
        exists entry'. split; [now right | exact He].
    + destruct (IH others eq_refl Hin) as [entry' [Hin' He]].
      exists entry'. split; [now right | exact He].
Qed.

Lemma In_firstn {A : Type} (n : nat) (xs : list A) (x : A) :
  In x (firstn n xs) -> In x xs.
Proof.
  intro H. rewrite <- (firstn_skipn n xs). apply in_or_app. now left.
Qed.

Lemma finalPicks_In (p : ScreenerParams) (analyses : list StockAnalysis) (a : StockAnalysis) :
  max_results p == Qn (to_count (max_results p)) ->
  In a (finalPicks p analyses) -> In a analyses.
Proof.
  intros Hint Hin. rewrite (finalPicks_walk p analyses Hint) in Hin.
  rewrite walk_groups_firstn in Hin by lia.
  apply In_firstn in Hin.
  apply in_concat in Hin. destruct Hin as [group [Hgroup Hin]].
  apply in_map_iff in Hgroup. destruct Hgroup as [reason [<- _]].
  unfold sorted_members, group_members in Hin.
  apply js_sort_In in Hin. apply filter_In in Hin. exact (proj1 Hin).
Qed.

Lemma pick_origin (input : EngineInput) (out : EngineOutput) (pick : ClassifiedPick) :
  runEngine input = inr out ->
  In pick (picks out) ->
  exists a candles,
    pick = toPick (params input) a /\
    In (sa_ticker a, candles) (entries_of input) /\
    analyzeTicker (params input) (metadata_of input) (sa_ticker a, candles)
      = inr (Some a).
Proof.
  intros Hrun Hin.
  destruct (runEngine_inr _ _ Hrun) as [analyses [Hv [Ha Hout]]].
  destruct (validateParams_max_results _ _ Hv) as [Hint _].
  rewrite Hout in Hin. cbn [picks] in Hin.
  apply in_map_iff in Hin. destruct Hin as [a [<- Hfinal]].
  apply (finalPicks_In _ _ _ Hint) in Hfinal.
  destruct (analyzeAll_In _ _ _ _ _ Ha Hfinal) as [[name candles] [Hentry Hone]].
  pose proof (analyzeTicker_Some _ _ _ _ _ Hone) as [Hname _].
  exists a, candles. subst name. auto.
Qed.

(** Every pick comes from a ticker of the input that [metadata[ticker]]
    finds (as an own key, or as a name inherited from [Object.prototype])
    and that has at least 250 candles; its price and volume are those of the
    latest candle, the price is above 30, the 20-bar average volume is at
    least 1,000,000, the market capitalisation (0 when absent) lies within
    the configured bounds, and in Leo mode the price is at least the Leo
    minimum. *)
Theorem picks_pass_the_filters
    (input : EngineInput) (out : EngineOutput) (pick : ClassifiedPick) :
  runEngine input = inr out ->
  In pick (picks out) ->
  let p := params input in
  exists candles meta,
    In (Ticker pick, candles) (entries_of input) /\
    metadata_at (metadata_of input) (Ticker pick) = Some meta /\
    (250 <= length candles)%nat /\
    Price pick = c (last_candle candles) /\
    Volume pick = v (last_candle candles) /\
    30 < Price pick /\
    1000000 <= sum (map v (slice_last 20 candles)) / 20 /\
    market_cap_min p <= num_or (marketCap meta) 0 /\
    num_or (marketCap meta) 0 <= market_cap_max p /\
    (leo_mode_enabled p = true -> min_price_leo p <= Price pick).
Proof.
  intros Hrun Hin p.
  destruct (pick_origin _ _ _ Hrun Hin) as [a [candles [-> [Hentry Hone]]]].
  destruct (analyzeTicker_Some _ _ _ _ _ Hone)
    as [_ [Hcandles [Hmeta [Hfixed [Huser [Hleo _]]]]]].
  destruct (passesFixedFilters_true_inv _ _ Hfixed) as [Hlen [Hprice [Havg _]]].
  destruct (passesUserFilters_true_inv _ _ Huser) as [_ [_ [Hmin Hmax]]].
  exists candles, (sa_meta a). cbn [Ticker Price Volume toPick]. rewrite Hcandles.
  repeat split; try assumption.
  fold p in Hleo. intro Henabled. unfold passesLeoFilters in Hleo.
  rewrite Henabled in Hleo.
  destruct (c (last_candle candles) <? min_price_leo p) eqn:E; [discriminate|].
  apply Qlt_bool_false_iff, E.
Qed.

Lemma passesIndicatorFilters_rsi (indicators : Indicators) (p : ScreenerParams) :
  passesIndicatorFilters indicators p = true ->
  exists r a,
    rsi14 indicators = Some r /\ rsi_min p <= r /\ r <= rsi_max p /\
    adx14 indicators = Some a /\ adx_min p <= a /\
    (leo_mode_enabled p = false ->
     exists k, stochK indicators = Some k /\ stoch_k_min p <= k /\ k <= stoch_k_max p) /\
    (forall d, srDistancePct indicators = Some d -> d <= sr_proximity_pct p).
Proof.
  unfold passesIndicatorFilters.
  destruct (rsi14 indicators) as [r|]; [|discriminate].
  destruct ((r <? rsi_min p) || (r >? rsi_max p)) eqn:Ersi; [discriminate|].
  apply orb_false_iff in Ersi. destruct Ersi as [Er1 Er2].
  destruct (negb (leo_mode_enabled p) && _) eqn:Estoch; [discriminate|].
  destruct (negb (String.eqb (trend_type p) "*") && _); [discriminate|].
  destruct (adx14 indicators) as [a|]; [|discriminate].
  destruct (a <? adx_min p) eqn:Eadx; [discriminate|].
  destruct (negb (String.eqb (ma_cross p) "none") && _); [discriminate|].
  destruct (match srDistancePct indicators with
            | Some d => d >? sr_proximity_pct p
            | None => false
            end) eqn:Esr; [discriminate|].
  intros _. bool_props. exists r, a. repeat split; try assumption.
  - intro Hleo. rewrite Hleo in Estoch. cbn [negb andb] in Estoch.
    destruct (stochK indicators) as [k|]; [|discriminate].
    apply orb_false_iff in Estoch. destruct Estoch as [E1 E2]. bool_props.
    exists k. repeat split; assumption.
  - intros d Hd. rewrite Hd in Esr. bool_props. exact Esr.
Qed.

Lemma classifySetup_standard_reason candles indicators p reason s :
  leo_mode_enabled p = false ->
  classifySetup candles indicators p = Some (reason, s) ->
  isLeoSetup reason = false.
Proof.
  intros Hleo. unfold classifySetup. rewrite Hleo.
  repeat match goal with
         | |- context [if ?b then _ else _] => destruct b
         end;
    intro H; try discriminate; injection H as <- _; reflexivity.
Qed.

Lemma price_targets_without_leo
      (candles : list Candle) (p : ScreenerParams) (meta : option TickerMeta) :
  (20 <= length candles)%nat ->
  leo_mode_enabled p = false ->
  calculatePriceTargetsFromIndicators candles (calculateIndicators candles p meta)
    = [percentage_target (c (last_candle candles))].
Proof.
  intros Hlen Hleo. rewrite (price_targets_unfold candles _ Hlen).
  unfold price_targets_of_last_three, zones_of, highs_of, calculateIndicators.
  cbn [fvgZones swingHighs]. rewrite Hleo. reflexivity.
Qed.

Lemma slice_last_map {A B : Type} (f : A -> B) (n : nat) (xs : list A) :
  slice_last n (map f xs) = map f (slice_last n xs).
Proof.
  unfold slice_last. destruct n as [|n]; [reflexivity|].
  rewrite length_map. apply skipn_map.
Qed.

Lemma num_or_at_least (x d lo : Q) : 0 < lo -> lo <= x -> lo <= num_or (Some x) d.
Proof.
  intros Hpos Hle. rewrite num_or_nonzero; [exact Hle|].
  intro Hz. rewrite Hz in Hle. lra.
Qed.

Lemma relVol_calculateIndicators
      (candles : list Candle) (p : ScreenerParams) (meta : option TickerMeta)
      (checked : TickerMeta) :
  passesFixedFilters candles checked = true ->
  1 <= num_or (relVol (calculateIndicators candles p meta)) 0.
Proof.
  intro Hfixed.
  destruct (passesFixedFilters_true_inv _ _ Hfixed) as [Hlen [_ [Havg Hrel]]].
  unfold calculateIndicators. cbn [relVol].
  rewrite (sma_Some (map v candles) 20) by (rewrite length_map; lia).
  rewrite slice_last_map. change (Qn 20) with 20.
  set (avg := sum (map v (slice_last 20 candles)) / 20) in *.
  assert (Havg0 : ~ avg == 0) by (intro Hz; rewrite Hz in Havg; lra).
  assert (Hfalsy : falsy (Some avg) = false).
  { cbn [falsy]. destruct (avg =? 0) eqn:E; [|reflexivity].
    apply Qeq_bool_iff in E. contradiction. }
  rewrite Hfalsy, (num_or_nonzero avg 0 Havg0).
  apply num_or_at_least; [lra | exact Hrel].
Qed.

Lemma passesIndicatorFilters_trend (indicators : Indicators) (p : ScreenerParams) :
  passesIndicatorFilters indicators p = true ->
  trend_type p = "*" \/
  exists x, trend indicators = Some x /\ Trend_name x = trend_type p.
Proof.
  unfold passesIndicatorFilters.
  destruct (match rsi14 indicators with
            | Some r => _
            | None => true
            end); [discriminate|].
  destruct (negb (leo_mode_enabled p) && _); [discriminate|].
  destruct (negb (String.eqb (trend_type p) "*") && _) eqn:Etrend; [discriminate|].
  intros _. apply andb_false_iff in Etrend. destruct Etrend as [E | E].
  - left. apply negb_false_iff, String.eqb_eq in E. exact E.
  - right. apply negb_false_iff in E.
    destruct (trend indicators) as [x|]; [|discriminate].
    exists x. split; [reflexivity | apply String.eqb_eq, E].
Qed.

(** What a pick's own fields say about the indicator filters it passed:
    its RSI lies inside the configured RSI bounds; its trend is the
    configured trend unless that is ["*"]; its relative volume is at
    least 1; and outside Leo mode its Stochastic %K, listed as [null]
    when it is 0, lies inside the configured bounds, its reason is none
    of the six Leo setups, and its only price target is the 10% one. *)
Theorem picks_respect_indicator_filters
    (input : EngineInput) (out : EngineOutput) (pick : ClassifiedPick) :
  runEngine input = inr out ->
  In pick (picks out) ->
  let p := params input in
  (rsi_min p <= RSI pick /\ RSI pick <= rsi_max p) /\
  (trend_type p = "*" \/ Trend_name (Trend_ pick) = trend_type p) /\
  1 <= RelativeVolume pick /\
  (leo_mode_enabled p = false ->
   match StochK pick with
   | Some k => stoch_k_min p <= k /\ k <= stoch_k_max p
   | None => stoch_k_min p <= 0 /\ 0 <= stoch_k_max p
   end /\
   isLeoSetup (SelectionReason pick) = false /\
   PriceTargets pick = Some [percentage_target (Price pick)]).
Proof.
  intros Hrun Hin p.
  destruct (pick_origin _ _ _ Hrun Hin) as [x [candles [-> [Hentry Hone]]]].
  destruct (analyzeTicker_Some _ _ _ _ _ Hone)
    as [_ [Hcandles [_ [Hfixed [_ [_ [Hind [Hfilters Hclass]]]]]]]].
  fold p in Hind, Hfilters, Hclass.
  destruct (passesIndicatorFilters_rsi _ _ Hfilters)
    as [r [a [Hr [Hr1 [Hr2 [_ [_ [Hstoch _]]]]]]]].
  pose proof (passesIndicatorFilters_trend _ _ Hfilters) as Htrend.
  destruct (passesFixedFilters_true_inv _ _ Hfixed) as [Hlen _].
  cbn [RSI Trend_ RelativeVolume StochK SelectionReason PriceTargets Price toPick].
  split; [|split; [|split]].
  - rewrite Hr. cbn [num_or].
    destruct (r =? 0) eqn:E; [apply Qeq_bool_iff in E; lra | split; assumption].
  - destruct Htrend as [Hany | [t0 [Ht <-]]]; [left; exact Hany | right].
    rewrite Ht. reflexivity.
  - rewrite Hind. exact (relVol_calculateIndicators candles p _ _ Hfixed).
  - intro Hleo. destruct (Hstoch Hleo) as [k [Hk [Hk1 Hk2]]].
    split; [|split].
    + rewrite Hk. cbn [num_or_null].
      destruct (k =? 0) eqn:E; [apply Qeq_bool_iff in E; lra | split; assumption].
    + exact (classifySetup_standard_reason _ _ _ _ _ Hleo Hclass).
    + rewrite Hcandles, Hind.
      rewrite (price_targets_without_leo candles p _) by (assumption || lia).
      reflexivity.
Qed.

(** ** When the engine fails *)

Lemma index_loop_inl (upperTicker : string) (filters : list string) (e : EngineError) :
  index_loop upperTicker filters = inl e ->
  e = IndexTypeError /\ exists idx, In idx filters /\ INDEX_CONSTITUENTS idx = None.
Proof.
  induction filters as [|idx rest IH]; cbn [index_loop]; [discriminate|].
  destruct (INDEX_CONSTITUENTS idx) as [tickers|] eqn:E.
  - destruct (includes tickers upperTicker); [discriminate|].
    intro H. destruct (IH H) as [He [idx' [Hin Hnone]]].
    split; [exact He|]. exists idx'. split; [now right | exact Hnone].
  - intro H. injection H as <-. split; [reflexivity|].
    exists idx. split; [now left | exact E].
Qed.

Lemma analyzeTicker_inl
      (p : ScreenerParams) (md : list (string * TickerMeta))
      (entry : string * list Candle) (e : EngineError) :
  analyzeTicker p md entry = inl e ->
  e = IndexTypeError /\ leo_mode_enabled p = true /\
  exists idx, In idx (index_filters p) /\ INDEX_CONSTITUENTS idx = None.
Proof.
  destruct entry as [name candles]. unfold analyzeTicker.
  destruct (metadata_at md name) as [meta|]; [|discriminate].
  destruct (len candles <? minBars FIXED_FILTERS); [discriminate|].
  destruct (negb (passesFixedFilters candles meta)); [discriminate|].
  destruct (negb (passesUserFilters meta p)); [discriminate|].
  destruct (passesLeoFilters name candles p) as [e'|ok] eqn:Eleo.
  - cbn [bind]. intro H. injection H as <-.
    unfold passesLeoFilters in Eleo.
    destruct (leo_mode_enabled p); [|discriminate].
    destruct (c (last_candle candles) <? min_price_leo p); [discriminate|].
    destruct (0 <? length (index_filters p))%nat; [|discriminate].
    unfold isTickerInIndices in Eleo.
    destruct (length (index_filters p) =? 0)%nat; [discriminate|].
    destruct (index_loop (toUpperCase name) (index_filters p)) as [e''|b] eqn:Eloop;
      [|discriminate].
    cbn [bind] in Eleo. injection Eleo as <-.
    destruct (index_loop_inl _ _ _ Eloop) as [He Hidx]. auto.
  - cbn [bind]. destruct (negb ok); [discriminate|]. cbv zeta.
    destruct (negb (passesIndicatorFilters _ p)); [discriminate|].
    destruct (classifySetup candles _ p) as [[reason s]|]; discriminate.
Qed.

Lemma analyzeAll_inl
      (p : ScreenerParams) (md : list (string * TickerMeta))
      (entries : list (string * list Candle)) (e : EngineError) :
  analyzeAll p md entries = inl e ->
  exists entry, In entry entries /\ analyzeTicker p md entry = inl e.
Proof.
  induction entries as [|entry rest IH]; cbn [analyzeAll]; [discriminate|].
  destruct (analyzeTicker p md entry) as [e'|first] eqn:Efirst.
  - cbn [bind]. intro H. injection H as <-.
    exists entry. split; [now left | exact Efirst].
  - cbn [bind].
    destruct (analyzeAll p md rest) as [e'|others]; [|discriminate].
    cbn [bind]. intro H. injection H as <-.
    destruct (IH eq_refl) as [entry' [Hin He]].
    exists entry'. split; [now right | exact He].
Qed.

(** The engine fails in two ways only: with the error [validateParams]
    throws, or, in Leo mode, with a type error on an index filter that is
    not a key of the index table.  With valid parameters and, in Leo mode,
    index filters among the four index names, it always returns, and the
    date it returns is the date of the parameters. *)
Theorem engine_fails_only_on_configuration (input : EngineInput) :
  let p := params input in
  (forall e, runEngine input = inl e ->
     validateParams p = inl e \/
     (e = IndexTypeError /\ leo_mode_enabled p = true /\
      exists idx, In idx (index_filters p) /\ INDEX_CONSTITUENTS idx = None)) /\
  (validateParams p = inr p ->
   (leo_mode_enabled p = false \/
    forall idx, In idx (index_filters p) -> In idx index_names) ->
   exists out, runEngine input = inr out /\ out_as_of_date out = as_of_date p).
Proof.
  intro p.
  assert (Hfail : forall e, runEngine input = inl e ->
     validateParams p = inl e \/
     (e = IndexTypeError /\ leo_mode_enabled p = true /\
      exists idx, In idx (index_filters p) /\ INDEX_CONSTITUENTS idx = None)).
  { intros e. unfold runEngine. rewrite assertFixedFilters_passes. cbn [bind].
    fold p. destruct (validateParams p) as [e'|m] eqn:Hv.
    - cbn [bind]. intro H. injection H as <-. now left.
    - destruct (validateParams_inr _ _ Hv) as [-> _]. cbn [bind].
      destruct (analyzeAll p _ _) as [e'|analyses] eqn:Ha; [|discriminate].
      cbn [bind]. intro H. injection H as <-.
      destruct (analyzeAll_inl _ _ _ _ Ha) as [entry [_ Hentry]].
      right. exact (analyzeTicker_inl _ _ _ _ Hentry). }
  split; [exact Hfail|].
  intros Hvalid Hindex.
  destruct (runEngine input) as [e|out] eqn:Hrun.
  - exfalso. destruct (Hfail e eq_refl) as [Hv | [_ [Hleo [idx [Hin Hnone]]]]].
    + congruence.
    + destruct Hindex as [Hoff | Hnames]; [congruence|].
      specialize (Hnames idx Hin). cbn in Hnames.
      destruct Hnames as [<- | [<- | [<- | [<- | []]]]]; discriminate.
  - exists out. split; [reflexivity|].
    destruct (runEngine_inr _ _ Hrun) as [analyses [_ [_ ->]]]. reflexivity.
Qed.

(** ** No survivors, and fewer survivors than the cap *)

Lemma analyzeAll_none_pass
      (p : ScreenerParams) (md : list (string * TickerMeta))
      (entries : list (string * list Candle)) :
  (forall name candles meta,
      In (name, candles) entries -> metadata_at md name = Some meta ->
      passesFixedFilters candles meta = false) ->
  analyzeAll p md entries = inr [].
Proof.
  induction entries as [|[name candles] rest IH]; intro Hnone; [reflexivity|].
  cbn [analyzeAll].
  assert (Hfirst : analyzeTicker p md (name, candles) = inr None).
  { unfold analyzeTicker.
    destruct (metadata_at md name) as [meta|] eqn:Em; [|reflexivity].
    destruct (len candles <? minBars FIXED_FILTERS); [reflexivity|].
    rewrite (Hnone name candles meta (or_introl eq_refl) Em). reflexivity. }
  rewrite Hfirst. cbn [bind].
  rewrite IH; [reflexivity|].
  intros name' candles' meta Hin. apply Hnone. now right.
Qed.

Lemma concat_map_nil {A B : Type} (xs : list A) :
  concat (map (fun _ : A => @nil B) xs) = [].
Proof. induction xs as [|x xs IH]; [reflexivity | exact IH]. Qed.

(** When no ticker with a metadata entry passes the fixed filters, and
    in particular when there are no tickers at all, valid parameters give
    an empty list of picks under the date of the parameters. *)
Theorem no_survivors_no_picks (input : EngineInput) :
  let p := params input in
  validateParams p = inr p ->
  (forall name candles meta,
      In (name, candles) (entries_of input) ->
      metadata_at (metadata_of input) name = Some meta ->
      passesFixedFilters candles meta = false) ->
  runEngine input = inr {| out_as_of_date := as_of_date p; picks := [] |}.
Proof.
  intros p Hvalid Hnone.
  destruct (validateParams_max_results _ _ Hvalid) as [Hint _].
  unfold runEngine. rewrite assertFixedFilters_passes. cbn [bind].
  fold p. rewrite Hvalid. cbn [bind].
  fold (entries_of input). fold (metadata_of input).
  rewrite (analyzeAll_none_pass p _ _ Hnone). cbn [bind ret].
  rewrite (finalPicks_walk p [] Hint).
  rewrite walk_groups_firstn by lia.
  change (map (fun reason => sorted_members reason []) (priorityOrder p))
    with (map (fun _ : SetupReason => @nil StockAnalysis) (priorityOrder p)).
  rewrite concat_map_nil, firstn_nil. reflexivity.
Qed.

Lemma filter_disjoint_perm {A : Type} (f g : A -> bool) (xs : list A) :
  (forall x, f x = true -> g x = false) ->
  Permutation (filter f xs ++ filter g xs) (filter (fun x => f x || g x) xs).
Proof.
  intro Hdisj. induction xs as [|x xs IH]; simpl; [apply Permutation_refl|].
  destruct (f x) eqn:Ef.
  - rewrite (Hdisj x Ef). simpl. apply perm_skip, IH.
  - destruct (g x); simpl.
    + apply Permutation_sym. eapply Permutation_trans;
        [apply perm_skip, Permutation_sym, IH | apply Permutation_middle].
    + exact IH.
Qed.

Lemma groups_partition (analyses : list StockAnalysis) (order : list SetupReason) :
  NoDup order ->
  Permutation
    (concat (map (fun reason => sorted_members reason analyses) order))
    (filter (fun a => existsb (fun reason => SetupReason_eqb reason (setupReason a)) order)
            analyses).
Proof.
  induction order as [|reason rest IH]; intro Hnd; cbn [map concat existsb].
  - induction analyses as [|a analyses IHa]; [apply Permutation_refl | exact IHa].
  - apply NoDup_cons_iff in Hnd. destruct Hnd as [Hfresh Hnd].
    eapply Permutation_trans.
    + apply Permutation_app; [apply js_sort_perm | apply IH, Hnd].
    + unfold group_members. apply filter_disjoint_perm.
      intros a Ha. apply SetupReason_eqb_eq in Ha. subst reason.
      destruct (existsb _ rest) eqn:E; [|reflexivity].
      apply existsb_exists in E. destruct E as [r [Hin Heq]].
      apply SetupReason_eqb_eq in Heq. subst r. contradiction.
Qed.

Lemma priorityOrder_complete (p : ScreenerParams) (reason : SetupReason) :
  In reason (priorityOrder p).
Proof.
  unfold priorityOrder. destruct (leo_mode_enabled p), reason; cbn; auto 20.
Qed.

Lemma all_groups_perm (p : ScreenerParams) (analyses : list StockAnalysis) :
  Permutation
    (concat (map (fun reason => sorted_members reason analyses) (priorityOrder p)))
    analyses.
Proof.
  eapply Permutation_trans; [apply groups_partition, priorityOrder_NoDup|].
  assert (Hall : forall a,
             existsb (fun reason => SetupReason_eqb reason (setupReason a))
                     (priorityOrder p) = true).
  { intro a. apply existsb_exists. exists (setupReason a).
    split; [apply priorityOrder_complete | apply SetupReason_eqb_eq; reflexivity]. }
  induction analyses as [|a analyses IH]; simpl; [apply Permutation_refl|].
  rewrite Hall. apply perm_skip, IH.
Qed.

(** The number of picks is the number of classified tickers or
    [max_results], whichever is smaller; when the classified tickers do not
    exceed [max_results], the picks are all of them, each exactly once. *)
Theorem picks_count (input : EngineInput) (out : EngineOutput) :
  runEngine input = inr out ->
  let p := params input in
  exists analyses,
    analyzeAll p (metadata_of input) (entries_of input) = inr analyses /\
    picks out = map (toPick p) (finalPicks p analyses) /\
    length (picks out) = Nat.min (to_count (max_results p)) (length analyses) /\
    ((length analyses <= to_count (max_results p))%nat ->
     Permutation (finalPicks p analyses) analyses).
Proof.
  intros Hrun p.
  destruct (runEngine_inr _ _ Hrun) as [analyses [Hv [Ha Hout]]].
  destruct (validateParams_max_results _ _ Hv) as [Hint _].
  fold p in Hint, Ha, Hout.
  pose proof (Permutation_length (all_groups_perm p analyses)) as Hlen.
  exists analyses. split; [exact Ha|].
  split; [rewrite Hout; reflexivity|].
  rewrite Hout. cbn [picks]. rewrite length_map.
  rewrite (finalPicks_walk p analyses Hint), walk_groups_firstn by lia.
  rewrite Nat.sub_0_r. split.
  - rewrite length_firstn, Hlen. reflexivity.
  - intro Hunder. rewrite firstn_all2 by lia. apply all_groups_perm.
Qed.

(** ** Index lists *)

Lemma set_add_includes (s : list string) (x u : string) :
  includes (set_add s x) u = includes s u || String.eqb u x.
Proof.
  unfold set_add. destruct (includes s x) eqn:E.
  - destruct (String.eqb u x) eqn:Eu; [|rewrite orb_false_r; reflexivity].
    apply String.eqb_eq in Eu. subst u. rewrite E. reflexivity.
  - unfold includes. rewrite existsb_app. cbn [existsb]. rewrite orb_false_r.
    reflexivity.
Qed.

Lemma fold_set_add_includes (xs s : list string) (u : string) :
  includes (fold_left set_add xs s) u = includes s u || includes xs u.
Proof.
  revert s. induction xs as [|x xs IH]; intro s; cbn [fold_left].
  - cbn. rewrite orb_false_r. reflexivity.
  - rewrite IH, set_add_includes. unfold includes at 4. cbn [existsb].
    rewrite orb_assoc. reflexivity.
Qed.

Lemma set_add_NoDup (s : list string) (x : string) : NoDup s -> NoDup (set_add s x).
Proof.
  intro Hnd. unfold set_add. destruct (includes s x) eqn:E; [exact Hnd|].
  apply NoDup_app; [exact Hnd | repeat constructor; intros [] |].
  intros y Hy [<- | []].
  apply includes_true_iff in Hy. congruence.
Qed.

Lemma fold_set_add_NoDup (xs s : list string) :
  NoDup s -> NoDup (fold_left set_add xs s).
Proof.
  revert s. induction xs as [|x xs IH]; intros s Hnd; [exact Hnd|].
  apply IH, set_add_NoDup, Hnd.
Qed.

Lemma index_names_known (idx : string) :
  In idx index_names -> exists constituents, INDEX_CONSTITUENTS idx = Some constituents.
Proof.
  intros [<- | [<- | [<- | [<- | []]]]]; eexists; reflexivity.
Qed.

Lemma index_loop_known (upperTicker : string) (filters : list string) :
  (forall idx, In idx filters -> In idx index_names) ->
  index_loop upperTicker filters =
  inr (existsb (fun idx => match INDEX_CONSTITUENTS idx with
                           | Some constituents => includes constituents upperTicker
                           | None => false
                           end) filters).
Proof.
  induction filters as [|idx rest IH]; intro Hknown; [reflexivity|].
  cbn [index_loop existsb].
  destruct (index_names_known idx (Hknown idx (or_introl eq_refl))) as [cs Hcs].
  rewrite Hcs. destruct (includes cs upperTicker); [reflexivity|].
  apply IH. intros idx' Hin. apply Hknown. now right.
Qed.

Lemma combine_indices_known (filters combined : list string) :
  (forall idx, In idx filters -> In idx index_names) ->
  exists all,
    combine_indices combined filters = inr all /\
    forall u, includes all u =
              includes combined u ||
              existsb (fun idx => match INDEX_CONSTITUENTS idx with
                                  | Some constituents => includes constituents u
                                  | None => false
                                  end) filters.
Proof.
  revert combined. induction filters as [|idx rest IH]; intros combined Hknown.
  - exists combined. split; [reflexivity|]. intro u. cbn. rewrite orb_false_r.
    reflexivity.
  - cbn [combine_indices existsb].
    destruct (index_names_known idx (Hknown idx (or_introl eq_refl))) as [cs Hcs].
    rewrite Hcs.
    destruct (IH (fold_left set_add cs combined)) as [all [Hall Hin]];
      [intros idx' Hin; apply Hknown; now right|].
    exists all. split; [exact Hall|].
    intro u. rewrite Hin, fold_set_add_includes, orb_assoc. reflexivity.
Qed.

(** With index filters among the four index names, [filterByIndices]
    keeps exactly the tickers for which [isTickerInIndices] answers true,
    in their order, and neither function throws; on a single index
    [filterByIndex] gives the same list; with no filter every ticker is
    kept. *)
Theorem index_filters_agree (tickers filters : list string) :
  (forall idx, In idx filters -> In idx index_names) ->
  filterByIndices tickers filters =
    inr (filter (fun ticker => in_some_index ticker filters) tickers) /\
  (forall ticker, exists answer, isTickerInIndices ticker filters = inr answer) /\
  (filters = [] -> filterByIndices tickers filters = inr tickers) /\
  (forall idx, filters = [idx] -> filterByIndex tickers idx = filterByIndices tickers filters).
Proof.
  intro Hknown.
  assert (Hanswer : forall ticker,
             isTickerInIndices ticker filters =
             inr (match filters with
                  | [] => true
                  | _ => existsb (fun idx => match INDEX_CONSTITUENTS idx with
                                             | Some cs => includes cs (toUpperCase ticker)
                                             | None => false
                                             end) filters
                  end)).
  { intro ticker. unfold isTickerInIndices.
    destruct filters as [|idx rest]; [reflexivity|].
    cbn [length Nat.eqb]. apply index_loop_known, Hknown. }
  split; [|split; [|split]].
  - unfold filterByIndices. destruct filters as [|idx rest].
    + cbn [length Nat.eqb]. unfold ret. f_equal. symmetry.
      induction tickers as [|x xs IH]; [reflexivity|].
      cbn [filter]. unfold in_some_index at 1. rewrite Hanswer. f_equal. exact IH.
    + cbn [length Nat.eqb].
      destruct (combine_indices_known (idx :: rest) [] Hknown) as [all [Hall Hin]].
      rewrite Hall. cbn [bind]. unfold ret. f_equal. apply filter_ext.
      intro ticker. rewrite Hin. unfold in_some_index. rewrite Hanswer. reflexivity.
  - intro ticker. rewrite Hanswer. eexists. reflexivity.
  - intros ->. reflexivity.
  - intros idx ->. unfold filterByIndex, filterByIndices.
    cbn [length Nat.eqb combine_indices].
    destruct (Hknown idx (or_introl eq_refl)) as [<- | [<- | [<- | [<- | []]]]];
      reflexivity.
Qed.

Lemma Set_of_In (xs : list string) (u : string) : In u (Set_of xs) <-> In u xs.
Proof.
  rewrite <- !includes_true_iff. unfold Set_of.
  rewrite fold_set_add_includes. reflexivity.
Qed.

(** The list for ["*"] holds no ticker twice, although the index lists
    overlap, and holds exactly the tickers that the four named indices
    return. *)
Theorem getIndexTickers_combined :
  exists all,
    getIndexTickers "*" = inr all /\
    NoDup all /\
    forall ticker,
      In ticker all <->
      exists idx tickers,
        In idx index_names /\ getIndexTickers idx = inr tickers /\
        In ticker tickers.
Proof.
  exists (Set_of (DOW_JONES ++ NASDAQ_100 ++ SP500 ++ RUSSELL_2000_SAMPLE)%list).
  split; [reflexivity|]. split; [apply fold_set_add_NoDup; constructor|].
  intro ticker. rewrite Set_of_In, !in_app_iff. split.
  - intros [H | [H | [H | H]]].
    + exists "dowjones", DOW_JONES. cbn. auto.
    + exists "nasdaq100", NASDAQ_100. cbn. auto.
    + exists "sp500", SP500. cbn. auto.
    + exists "russell2000", RUSSELL_2000_SAMPLE. cbn. auto 6.
  - intros [idx [cs [Hidx [Hcs Hin]]]].
    destruct Hidx as [<- | [<- | [<- | [<- | []]]]];
      injection Hcs as <-; auto.
Qed.

Lemma index_loop_true (upperTicker : string) (filters : list string) :
  index_loop upperTicker filters = inr true ->
  exists idx constituents,
    In idx filters /\ INDEX_CONSTITUENTS idx = Some constituents /\
    In upperTicker constituents.
Proof.
  induction filters as [|idx rest IH]; cbn [index_loop]; [discriminate|].
  destruct (INDEX_CONSTITUENTS idx) as [cs|] eqn:E; [|discriminate].
  destruct (includes cs upperTicker) eqn:Ein.
  - intros _. exists idx, cs. apply includes_true_iff in Ein.
    split; [now left | split; [exact E | exact Ein]].
  - intro H. destruct (IH H) as [idx' [cs' [Hin [Hcs Hmem]]]].
    exists idx', cs'. split; [now right | split; assumption].
Qed.

(** In Leo mode with index filters, the upper-cased ticker of every pick
    is a constituent of one of the selected indices. *)
Theorem leo_picks_in_selected_indices
    (input : EngineInput) (out : EngineOutput) (pick : ClassifiedPick) :
  runEngine input = inr out ->
  In pick (picks out) ->
  leo_mode_enabled (params input) = true ->
  index_filters (params input) <> [] ->
  exists idx constituents,
    In idx (index_filters (params input)) /\
    INDEX_CONSTITUENTS idx = Some constituents /\
    In (toUpperCase (Ticker pick)) constituents.
Proof.
  intros Hrun Hin Hleo Hfilters.
  destruct (pick_origin _ _ _ Hrun Hin) as [a [candles [-> [_ Hone]]]].
  destruct (analyzeTicker_Some _ _ _ _ _ Hone) as [_ [_ [_ [_ [_ [Hpass _]]]]]].
  unfold passesLeoFilters in Hpass. rewrite Hleo in Hpass.
  destruct (c (last_candle candles) <? min_price_leo (params input));
    [discriminate|].
  destruct (index_filters (params input)) as [|idx rest] eqn:Ef; [congruence|].
  cbn [length Nat.ltb Nat.leb] in Hpass.
  unfold isTickerInIndices in Hpass. cbn [length Nat.eqb] in Hpass.
  destruct (index_loop (toUpperCase (sa_ticker a)) (idx :: rest))
    as [e|answer] eqn:Eloop; [discriminate|].
  cbn [bind ret] in Hpass. injection Hpass as ->.
  exact (index_loop_true _ _ Eloop).
Qed.

(** ** Earnings warning and price targets *)

Lemma Qdiv_ge_iff (k a b : Q) : 0 < b -> (k <= a / b <-> k * b <= a).
Proof.
  intro Hb. split; intro H.
  - apply Qnot_lt_le. intro Hlt.
    apply (Qle_not_lt _ _ H). apply Qlt_shift_div_r; assumption.
  - apply Qle_shift_div_l; assumption.
Qed.

Lemma Qdiv_le_iff (k a b : Q) : 0 < b -> (a / b <= k <-> a <= k * b).
Proof.
  intro Hb. split; intro H.
  - apply Qnot_lt_le. intro Hlt.
    apply (Qle_not_lt _ _ H). apply Qlt_shift_div_l; assumption.
  - apply Qle_shift_div_r; assumption.
Qed.

(** The earnings warning is raised exactly when the next earnings date
    parses to an instant from now up to [warningDays] days of 86,400,000
    milliseconds ahead, both ends included; a missing, empty or unparsable
    date raises none. *)
Theorem earnings_warning_window (meta : TickerMeta) (warningDays : Q) :
  (str_or_null (nextEarningsDate meta) = None ->
   checkEarningsWarning meta warningDays = false) /\
  (forall date,
      nextEarningsDate meta = Some date -> date <> "" ->
      match Date_getTime date with
      | None => checkEarningsWarning meta warningDays = false
      | Some earnings_ms =>
          checkEarningsWarning meta warningDays = true <->
          now_ms <= earnings_ms /\ earnings_ms <= now_ms + warningDays * 86400000
      end).
Proof.
  unfold checkEarningsWarning. split.
  - intros ->. reflexivity.
  - intros date Hdate Hne. rewrite Hdate. cbn [str_or_null].
    destruct (String.eqb date "") eqn:E; [apply String.eqb_eq in E; contradiction|].
    destruct (Date_getTime date) as [ems|]; [|reflexivity].
    cbv zeta.
    assert (Hday : 0 < 1000 * 60 * 60 * 24) by reflexivity.
    assert (Hms : 1000 * 60 * 60 * 24 == 86400000) by reflexivity.
    rewrite andb_true_iff, !Qle_bool_iff.
    rewrite (Qdiv_ge_iff 0 _ _ Hday), (Qdiv_le_iff warningDays _ _ Hday).
    rewrite Hms. split; intros [H1 H2]; split; lra.
Qed.

Lemma js_sort_nonempty {A : Type} (compare : A -> A -> Q) (xs : list A) :
  xs <> [] -> js_sort compare xs <> [].
Proof.
  intros Hne Hnil. apply Hne. apply length_zero_iff_nil.
  rewrite <- (js_sort_length compare xs), Hnil. reflexivity.
Qed.

(** Price targets: none with fewer than 20 candles; otherwise the list
    is never empty and its first, lowest target is at most 10% above the
    current price; and without FVG zones and swing highs, as in every run
    outside Leo mode, it is the 10% target alone. *)
Theorem price_targets_shape
    (candles : list Candle) (indicators : Indicators)
    (p : ScreenerParams) (meta : option TickerMeta) :
  let currentPrice := c (last_candle candles) in
  ((length candles < 20)%nat ->
   calculatePriceTargetsFromIndicators candles indicators = []) /\
  ((20 <= length candles)%nat ->
   (exists first rest,
       calculatePriceTargetsFromIndicators candles indicators = first :: rest /\
       pt_price first <= currentPrice * (110 # 100)) /\
   (fvgZones indicators = None -> swingHighs indicators = None ->
    calculatePriceTargetsFromIndicators candles indicators
      = [percentage_target currentPrice]) /\
   (leo_mode_enabled p = false ->
    calculatePriceTargetsFromIndicators candles (calculateIndicators candles p meta)
      = [percentage_target currentPrice])).
Proof.
  intro currentPrice. split.
  - intro Hshort. unfold calculatePriceTargetsFromIndicators.
    apply Nat.ltb_lt in Hshort. rewrite Hshort. reflexivity.
  - intro Hlen.
    assert (Hbare : forall ind,
               fvgZones ind = None -> swingHighs ind = None ->
               calculatePriceTargetsFromIndicators candles ind
               = [percentage_target currentPrice]).
    { intros ind Hz Hs. rewrite (price_targets_unfold candles ind Hlen).
      unfold price_targets_of_last_three, zones_of, highs_of.
      rewrite Hz, Hs. reflexivity. }
    split; [|split].
    + rewrite (price_targets_unfold candles indicators Hlen).
      unfold price_targets_of_last_three. fold currentPrice.
      set (candidates :=
             (map fvg_target (filter (fvg_eligible currentPrice) (zones_of indicators)) ++
              map swing_target
                (filter (above currentPrice) (slice_last 3 (highs_of indicators))) ++
              [percentage_target currentPrice])%list).
      assert (Hin : In (percentage_target currentPrice) (js_sort by_price candidates)).
      { apply js_sort_In. unfold candidates.
        apply in_or_app. right. apply in_or_app. right. now left. }
      pose proof (js_sort_sorted by_price pt_price ascending_compare_key candidates)
        as Hsorted.
      destruct (js_sort by_price candidates) as [|first rest]; [contradiction|].
      exists first, (firstn 4 rest). split; [reflexivity|].
      apply StronglySorted_inv in Hsorted. destruct Hsorted as [_ Hfirst].
      destruct Hin as [Heq | Hin]; [rewrite Heq; apply Qle_refl|].
      rewrite Forall_forall in Hfirst. exact (Hfirst _ Hin).
    + apply Hbare.
    + intro Hleo. apply Hbare; unfold calculateIndicators; cbn [fvgZones swingHighs];
        rewrite Hleo; reflexivity.
Qed.

End Engine.

(** ** The properties at concrete inputs *)

Local Notation "'run'" := (runEngine sqrt_micro sample_now sample_dates upper_letters).
Local Notation "'indicators_of'" :=
  (calculateIndicators sqrt_micro sample_now sample_dates).
Local Notation "'analyses_of'" :=
  (analyzeAll sqrt_micro sample_now sample_dates upper_letters).

Lemma breakout_candles_wellformed (k : Candle) : In k breakout_candles -> c k <= h k.
Proof.
  unfold breakout_candles. intro Hin. apply in_app_or in Hin.
  destruct Hin as [Hflat | [<- | []]].
  - apply repeat_spec in Hflat. subst k. apply Qle_refl.
  - apply Qle_refl.
Qed.

Lemma breakout_never_witness :
  (20 <= length breakout_candles)%nat /\
  (forall k, In k breakout_candles -> c k <= h k) /\
  isBreakout breakout_candles
    (indicators_of breakout_candles default_params (Some flat_meta)) = false.
Proof.
  assert (Hlen : (20 <= length breakout_candles)%nat) by (vm_compute; lia).
  split; [exact Hlen|]. split; [exact breakout_candles_wellformed|].
  exact (proj1 (breakout_never_on_wellformed_bars
                  sqrt_micro sample_now sample_dates
                  breakout_candles default_params (Some flat_meta)
                  Hlen breakout_candles_wellformed)).
Defined.

Lemma rsi_stochastic_degenerate_witness :
  rsi [7; 7; 7; 7] 3 = Some 100 /\
  stochasticK [flat_bar 1000; flat_bar 2000; flat_bar 3000] 2 3 = Some 50.
Proof.
  split.
  - apply (proj1 rsi_stochastic_degenerate); [lia | simpl; lia |].
    intros x y Hx Hy. simpl in Hx, Hy.
    destruct Hx as [<- | [<- | [<- | [<- | []]]]];
      destruct Hy as [<- | [<- | [<- | [<- | []]]]]; reflexivity.
  - apply (proj2 rsi_stochastic_degenerate); [discriminate | simpl; lia | reflexivity].
Defined.

Lemma single_classification_witness :
  map fst
    (all_matches
       (setup_rules boundary_candles
          (indicators_of boundary_candles default_params (Some flat_meta))
          default_params))
    = [Momentum; Fib_Pullback; Reversal] /\
  option_map fst
    (classifySetup boundary_candles
       (indicators_of boundary_candles default_params (Some flat_meta)) default_params)
    = Some Momentum.
Proof.
  split; [vm_compute; reflexivity|].
  rewrite (proj1 (single_classification boundary_candles
                    (indicators_of boundary_candles default_params (Some flat_meta))
                    default_params)).
  vm_compute. reflexivity.
Defined.

Lemma leo_accumulation_witness :
  leo_mode_enabled leo_params = true /\
  classifySetup breakout_candles accumulation_indicators leo_params =
  Some (Reversal_Accumulation,
        calculateLeoReversalScore accumulation_indicators dir_bullish 60).
Proof.
  split; [reflexivity|].
  apply (leo_accumulation_scenario breakout_candles accumulation_indicators leo_params
           (5 # 100) 10 60); reflexivity.
Defined.

(** The four tickers of [ranked_timeseries] are all classified; with room
    for two picks the engine keeps the two highest-scoring momentum
    tickers, cuts the third and drops the Fibonacci pullback. *)
Lemma capped_run_facts :
  (exists analyses,
      analyses_of (params capped_input) (metadata_of capped_input) (entries_of capped_input)
        = inr analyses /\
      map (fun a => (sa_ticker a, setupReason a)) analyses
        = [("DIP", Momentum); ("FIB", Fib_Pullback); ("TOP", Momentum); ("MID", Momentum)]) /\
  outcome (run capped_input) = inr [("TOP", Momentum); ("MID", Momentum)].
Proof.
  split; [eexists; split; [vm_compute; reflexivity|]|]; vm_compute; reflexivity.
Qed.

Lemma result_cap_witness :
  exists out analyses,
    run capped_input = inr out /\
    max_results (params capped_input) == 2 /\
    map (fun a => (sa_ticker a, setupReason a)) analyses
      = [("DIP", Momentum); ("FIB", Fib_Pullback); ("TOP", Momentum); ("MID", Momentum)] /\
    map (fun pick => (Ticker pick, SelectionReason pick)) (picks out)
      = [("TOP", Momentum); ("MID", Momentum)] /\
    picks out =
      map (toPick (params capped_input))
          (walk_groups (to_count (max_results (params capped_input))) 0
             (map (fun reason => sorted_members reason analyses)
                  (priorityOrder (params capped_input)))) /\
    StronglySorted never_higher (sorted_members Momentum analyses) /\
    Qn (length (picks out)) <= max_results (params capped_input).
Proof.
  destruct capped_run_facts as [[analyses' [Ha' Hclassified]] Houtcome].
  destruct (run capped_input) as [e|out] eqn:E; [discriminate Houtcome|].
  destruct (result_cap_and_priority_walk _ _ _ _ _ _ E)
    as [analyses [Ha [Hpicks [Hgroups [Hcap _]]]]].
  pose proof (eq_trans (eq_sym Ha') Ha) as Hsame. injection Hsame as ->.
  exists out, analyses. split; [reflexivity|]. split; [reflexivity|].
  split; [exact Hclassified|]. split.
  - unfold outcome in Houtcome. injection Houtcome as Hlisted. exact Hlisted.
  - split; [exact Hpicks|]. split; [exact (proj2 (Hgroups Momentum)) | exact Hcap].
Defined.

(** Under the default cap all four tickers of [ranked_timeseries] are
    listed: the momentum group leads with TOP before MID before DIP, and
    TOP scores strictly above DIP. *)
Lemma ranked_input_scores :
  exists analyses a b,
    analyses_of (params ranked_input) (metadata_of ranked_input) (entries_of ranked_input)
      = inr analyses /\
    nth_error (finalPicks (params ranked_input) analyses) 0 = Some a /\
    nth_error (finalPicks (params ranked_input) analyses) 2 = Some b /\
    (sa_ticker a, setupReason a) = ("TOP", Momentum) /\
    (sa_ticker b, setupReason b) = ("DIP", Momentum) /\
    score b < score a.
Proof.
  eexists. eexists. eexists. split; [vm_compute; reflexivity|].
  split; [vm_compute; reflexivity|]. split; [vm_compute; reflexivity|].
  repeat split; vm_compute; reflexivity.
Qed.

Lemma ranked_run_outcome :
  outcome (run ranked_input)
    = inr [("TOP", Momentum); ("MID", Momentum); ("DIP", Momentum); ("FIB", Fib_Pullback)].
Proof. vm_compute. reflexivity. Qed.

Lemma score_order_witness :
  exists out analyses a b,
    run ranked_input = inr out /\
    picks out = map (toPick (params ranked_input)) (finalPicks (params ranked_input) analyses) /\
    nth_error (finalPicks (params ranked_input) analyses) 0 = Some a /\
    nth_error (finalPicks (params ranked_input) analyses) 2 = Some b /\
    (sa_ticker a, setupReason a) = ("TOP", Momentum) /\
    (sa_ticker b, setupReason b) = ("DIP", Momentum) /\
    score b <= score a /\ score b < score a.
Proof.
  destruct ranked_input_scores as [analyses' [a [b [Ha' [Hfirst [Hthird [Htop [Hdip Hlt]]]]]]]].
  destruct (run ranked_input) as [e|out] eqn:E.
  { pose proof (eq_trans (eq_sym ranked_run_outcome) (f_equal outcome E)) as Hboth.
    discriminate Hboth. }
  destruct (scores_non_increasing_within_groups _ _ _ _ _ _ E)
    as [analyses [Ha [Hpicks [_ Horder]]]].
  pose proof (eq_trans (eq_sym Ha') Ha) as Hsame. injection Hsame as ->.
  exists out, analyses, a, b. split; [reflexivity|]. split; [exact Hpicks|].
  split; [exact Hfirst|]. split; [exact Hthird|]. split; [exact Htop|].
  split; [exact Hdip|]. split; [|exact Hlt].
  apply (Horder 0%nat 2%nat a b); [lia | exact Hfirst | exact Hthird |].
  injection Htop as _ Hra. injection Hdip as _ Hrb. congruence.
Defined.

Lemma malformed_params_witness :
  guarded_enum_invalid bad_ma_params /\
  exists e, run (input_of bad_ma_params breakout_candles) = inl e.
Proof.
  assert (Hbad : guarded_enum_invalid bad_ma_params).
  { left. split; cbn; intuition discriminate. }
  split; [exact Hbad|].
  destruct (malformed_params_abort sqrt_micro sample_now sample_dates upper_letters
              (input_of bad_ma_params breakout_candles) (or_intror Hbad))
    as [e [_ [He _]]].
  exists e. exact He.
Defined.

(** The swing series is classified in Leo mode; its pick carries the
    engine's price-target list, which holds the 10% target only, while the
    list of the three most recent swing highs above the price holds the
    older high of 120 as well. *)
Lemma swing_run_targets :
  exists out pick,
    run swing_input = inr out /\ picks out = [pick] /\
    SelectionReason pick = Stoch_Overbought_Reversal /\
    PriceTargets pick =
      Some (calculatePriceTargetsFromIndicators classified_swing_candles
              (indicators_of classified_swing_candles leo_params (Some (meta_of "aapl")))) /\
    option_map (map pt_price) (PriceTargets pick) = Some [100 * (110 # 100)] /\
    map pt_price
      (price_targets_three_above classified_swing_candles
         (indicators_of classified_swing_candles leo_params (Some (meta_of "aapl"))))
      = [100 * (110 # 100); 120].
Proof.
  eexists. eexists. split; [vm_compute; reflexivity|].
  split; [reflexivity|]. repeat split; vm_compute; reflexivity.
Qed.

Lemma price_targets_witness :
  exists out pick targets,
    run swing_input = inr out /\ In pick (picks out) /\
    PriceTargets pick = Some targets /\
    (20 <= length classified_swing_candles)%nat /\
    StronglySorted price_le targets /\
    (length targets <= 5)%nat /\
    forall target, In target targets ->
      pt_confidence target = 80 \/ pt_confidence target = 70 \/
      (pt_confidence target = 50 /\
       pt_price target = c (last_candle classified_swing_candles) * (110 # 100)).
Proof.
  destruct swing_run_targets as [out [pick [Hrun [Hpicks [_ [Htargets _]]]]]].
  assert (Hlen : (20 <= length classified_swing_candles)%nat) by (vm_compute; lia).
  destruct (price_targets_from_last_three_swings classified_swing_candles
              (indicators_of classified_swing_candles leo_params (Some (meta_of "aapl")))
              Hlen)
    as [_ [Hsorted [Hfive Hkinds]]].
  exists out, pick,
    (calculatePriceTargetsFromIndicators classified_swing_candles
       (indicators_of classified_swing_candles leo_params (Some (meta_of "aapl")))).
  split; [exact Hrun|].
  split; [rewrite Hpicks; left; reflexivity|]. split; [exact Htargets|].
  split; [exact Hlen|]. split; [exact Hsorted|]. split; [exact Hfive|].
  intros target Hin.
  destruct (Hkinds target Hin) as [[H80 _] | [[H70 _] | H50]];
    [left; exact H80 | right; left; exact H70 | right; right; exact H50].
Defined.

(** A whole run in Leo mode: the hammer series is listed as
    [Reversal_Accumulation]. *)
Lemma leo_accumulation_run :
  candlestickPattern (indicators_of hammer_candles leo_params (Some flat_meta))
    = Some hammer /\
  volumeShift (indicators_of hammer_candles leo_params (Some flat_meta)) = Some buyer /\
  outcome (run leo_input) = inr [("aapl", Reversal_Accumulation)].
Proof. vm_compute. repeat split. Qed.

(** C8 as stated fails: with a timeframe outside its union the parameters
    are malformed, yet the engine runs and lists the ticker. *)
Lemma unchecked_timeframe_counterexample :
  malformed (params (input_of hourly_params breakout_candles)) /\
  (forall e, run (input_of hourly_params breakout_candles) <> inl e) /\
  outcome (run (input_of hourly_params breakout_candles)) = inr [("FLAT", Fib_Pullback)].
Proof.
  destruct (unchecked_enums_run sqrt_micro sample_now sample_dates upper_letters)
    as [Hbad [Hrun _]].
  split; [exact Hbad|]. split; [|exact Hrun].
  intros e He.
  pose proof (eq_trans (eq_sym Hrun) (f_equal outcome He)) as Hboth.
  discriminate Hboth.
Qed.

(** C9 as stated fails: for a ticker the engine classifies in Leo mode,
    the pick's list leaves out a swing high above the current price that is
    among the three most recent ones above it. *)
Lemma three_above_counterexample :
  exists out pick,
    run swing_input = inr out /\ In pick (picks out) /\
    leo_mode_enabled (params swing_input) = true /\
    (20 <= length classified_swing_candles)%nat /\
    PriceTargets pick <>
      Some (price_targets_three_above classified_swing_candles
              (indicators_of classified_swing_candles leo_params (Some (meta_of "aapl")))).
Proof.
  destruct swing_run_targets as [out [pick [Hrun [Hpicks [_ [_ [Hcode Hclaim]]]]]]].
  exists out, pick. split; [exact Hrun|].
  split; [rewrite Hpicks; left; reflexivity|]. split; [reflexivity|].
  split; [vm_compute; lia|].
  intro Heq.
  pose proof (eq_trans (eq_sym Hcode)
                (eq_trans (f_equal (option_map (map pt_price)) Heq)
                          (f_equal Some Hclaim))) as Hboth.
  discriminate Hboth.
Qed.

(** ** The further properties at concrete inputs *)

Lemma sqrt_micro_nonneg (x : Q) : 0 <= sqrt_micro x.
Proof.
  unfold sqrt_micro. apply Qle_shift_div_l; [reflexivity|].
  rewrite Qmult_0_l. change 0 with (inject_Z 0).
  rewrite <- Zle_Qle. apply Z.sqrt_nonneg.
Qed.

(** A run whose outcome is one listed ticker returns one pick. *)
Lemma run_with_one_pick (r : Exc EngineOutput) (name : string) (reason : SetupReason) :
  outcome r = inr [(name, reason)] ->
  exists out pick,
    r = inr out /\ picks out = [pick] /\
    Ticker pick = name /\ SelectionReason pick = reason.
Proof.
  destruct r as [e|out]; [discriminate|].
  unfold outcome. destruct (picks out) as [|pick [|other rest]] eqn:Hpicks;
    try discriminate.
  intro H. injection H as Hname Hreason.
  exists out, pick. repeat split; assumption.
Qed.

Lemma breakout_run_outcome :
  outcome (run (input_of default_params breakout_candles)) = inr [("FLAT", Fib_Pullback)].
Proof. vm_compute. reflexivity. Qed.

Lemma leo_run_outcome : outcome (run leo_input) = inr [("aapl", Reversal_Accumulation)].
Proof. vm_compute. reflexivity. Qed.

Lemma sma_monotone_witness :
  exists a b,
    sma [1; 2; 3; 4] 2 = Some a /\ sma [1; 2; 4; 5] 2 = Some b /\ a <= b /\
    sma [1; 2; 3; 4] 2 = sma [3; 4] 2.
Proof.
  destruct (sma_window_monotone [1; 2; 3; 4] 2) as [_ [Hwindow Hmonotone]].
  destruct (sma [1; 2; 3; 4] 2) as [a|] eqn:Ea; [|vm_compute in Ea; discriminate].
  destruct (sma [1; 2; 4; 5] 2) as [b|] eqn:Eb; [|vm_compute in Eb; discriminate].
  exists a, b. split; [reflexivity|]. split; [reflexivity|]. split.
  - apply (Hmonotone ltac:(lia) [1; 2; 4; 5] a b); [|reflexivity | exact Eb].
    repeat constructor; vm_compute; discriminate.
  - apply Hwindow. simpl. lia.
Defined.

Lemma rsi_range_witness :
  exists r, rsi [1; 3; 2; 5] 3 = Some r /\ 0 <= r /\ r <= 100.
Proof.
  destruct (rsi [1; 3; 2; 5] 3) as [r|] eqn:E; [|vm_compute in E; discriminate].
  exists r. split; [reflexivity|].
  apply (proj2 (rsi_in_range [1; 3; 2; 5] 3)); [lia | exact E].
Defined.

Lemma stochasticK_range_witness :
  exists k,
    stochasticK (map swing_bar [50; 60; 55]) 2 3 = Some k /\ 0 <= k /\ k <= 100.
Proof.
  destruct (stochasticK (map swing_bar [50; 60; 55]) 2 3) as [k|] eqn:E;
    [|vm_compute in E; discriminate].
  exists k. split; [reflexivity|].
  apply (stochasticK_in_range (map swing_bar [50; 60; 55]) 2 3 k);
    [discriminate | vm_compute; discriminate | vm_compute; discriminate | exact E].
Defined.

Lemma adx_range_witness :
  exists a, adx breakout_candles 14 = Some a /\ 0 <= a /\ a <= 100.
Proof.
  destruct (adx breakout_candles 14) as [a|] eqn:E; [|vm_compute in E; discriminate].
  exists a. split; [reflexivity|].
  apply (proj2 (adx_in_range breakout_candles 14)); [lia | exact E].
Defined.

Lemma atr_nonneg_witness :
  exists a, atr breakout_candles 14 = Some a /\ 0 <= a.
Proof.
  destruct (atr breakout_candles 14) as [a|] eqn:E; [|vm_compute in E; discriminate].
  exists a. split; [reflexivity|].
  apply (proj2 (atr_nonneg breakout_candles 14)); [lia | exact E].
Defined.

Lemma volume_shift_witness :
  let candles := [rising_bar 105 3000; rising_bar 104 2000; flat_bar 1000] in
  let analysis := analyzeVolumeShift candles 3 in
  va_shift analysis = buyer /\
  (15 # 10) * sellerVolume analysis < buyerVolume analysis /\
  20 < va_strength analysis /\ va_strength analysis <= 100.
Proof.
  intros candles analysis.
  assert (Hvol : forall k, In k candles -> 0 <= v k).
  { intros k [<- | [<- | [<- | []]]]; vm_compute; discriminate. }
  pose proof (volume_shift_meaning candles 3 Hvol) as H.
  cbv zeta in H. destruct H as [H _].
  change (analyzeVolumeShift candles 3) with analysis in H.
  assert (E : va_shift analysis = buyer) by reflexivity.
  rewrite E in H. split; [exact E | exact H].
Defined.

Lemma fvg_geometry_witness :
  exists zone,
    In zone (detectFVGs [level_bar 10 1000; level_bar 11 1000; level_bar 12 1000] 1) /\
    bottomPrice zone < midpoint zone /\ midpoint zone < topPrice zone.
Proof.
  set (candles := [level_bar 10 1000; level_bar 11 1000; level_bar 12 1000]).
  destruct (detectFVGs candles 1) as [|zone rest] eqn:E; [vm_compute in E; discriminate|].
  exists zone. split; [left; reflexivity|].
  assert (Hin : In zone (detectFVGs candles 1)) by (rewrite E; left; reflexivity).
  destruct (proj2 (fvg_zones_geometry candles 1) zone Hin) as [_ [_ [Hlow [Hhigh _]]]].
  split; assumption.
Defined.

Lemma swing_points_witness :
  In {| sp_date := "2025-10-01"; sp_price := 120; sp_type := swing_high; sp_strength := 3 |}
     (fst (detectSwingPoints swing_candles 3)).
Proof.
  apply (proj1 (swing_points_characterised swing_candles 3)).
  exists 3%nat. split; [vm_compute; lia|]. split; [reflexivity|].
  intros j Hj.
  assert (Hcases : j = 1%nat \/ j = 2%nat \/ j = 3%nat) by lia.
  destruct Hcases as [-> | [-> | ->]]; vm_compute; split; reflexivity.
Defined.

Lemma bollinger_extended_witness :
  exists e,
    bollingerBandsExtended sqrt_micro [1; 2; 3; 4] 2 2 = Some e /\
    bollingerBands sqrt_micro [1; 2; 3; 4] 2 2 =
      Some {| upper := ext_upper e; lower := ext_lower e; band_middle := ext_middle e |} /\
    ext_lower e <= ext_middle e /\ ext_middle e <= ext_upper e.
Proof.
  destruct (bollingerBandsExtended sqrt_micro [1; 2; 3; 4] 2 2) as [e|] eqn:E;
    [|vm_compute in E; discriminate].
  exists e. split; [reflexivity|].
  assert (Hperiod : (0 < 2)%nat) by lia.
  assert (Hmult : 0 <= 2) by (vm_compute; discriminate).
  destruct (proj2 (bollinger_extended_agrees sqrt_micro [1; 2; 3; 4] 2 2
                     Hperiod sqrt_micro_nonneg Hmult) e E)
    as [Hbands [_ [Hlow [Hhigh _]]]].
  repeat split; assumption.
Defined.

Lemma trend_witness :
  determineTrend boundary_candles 60 = up /\
  c (nth (length boundary_candles - 60) boundary_candles no_candle)
    < c (last_candle boundary_candles).
Proof.
  assert (Hup : determineTrend boundary_candles 60 = up) by (vm_compute; reflexivity).
  split; [exact Hup|].
  assert (Hrange : (0 < 60 <= length boundary_candles)%nat) by (vm_compute; lia).
  assert (Hpos : 0 < c (nth (length boundary_candles - 60) boundary_candles no_candle))
    by (vm_compute; reflexivity).
  exact (proj1 (proj2 (proj2 (trend_follows_the_closes boundary_candles 60) Hrange) Hpos)
           Hup).
Defined.

Lemma sr_distance_witness :
  exists d, calculateSRDistance breakout_candles 3 = Some d /\ 0 <= d /\ d == 0.
Proof.
  destruct (calculateSRDistance breakout_candles 3) as [d|] eqn:E;
    [|vm_compute in E; discriminate].
  exists d. split; [reflexivity|].
  assert (Hpos : 0 < c (last_candle breakout_candles)) by (vm_compute; reflexivity).
  destruct (proj2 (sr_distance_nonneg breakout_candles 3) Hpos d E) as [Hnonneg Hzero].
  split; [exact Hnonneg|]. apply Hzero. left. vm_compute. reflexivity.
Defined.

Lemma fibonacci_any_zone_witness :
  fst (analyzeFibonacci breakout_candles "swing_low_to_high" "*") = true.
Proof.
  apply (proj1 (proj2 (proj2 (fibonacci_zone_hits breakout_candles "swing_low_to_high")))).
  vm_compute. lia.
Defined.

Lemma fibonacci_high_to_low_witness :
  analyzeFibonacci breakout_candles "swing_high_to_low" "38.2-50" = (false, false).
Proof.
  apply (fibonacci_high_to_low_hits_nothing breakout_candles "38.2-50");
    vm_compute; reflexivity.
Defined.

Lemma leo_score_witness :
  exists s,
    classifyLeoReversal breakout_candles accumulation_indicators leo_params
      = Some (Reversal_Accumulation, s) /\
    s <= 100.
Proof.
  destruct (classifyLeoReversal breakout_candles accumulation_indicators leo_params)
    as [[reason s]|] eqn:E; [|vm_compute in E; discriminate].
  assert (Hreason : reason = Reversal_Accumulation).
  { vm_compute in E. injection E as <- _. reflexivity. }
  subst reason. exists s. split; [reflexivity|].
  exact (leo_score_by_reason breakout_candles accumulation_indicators leo_params
           Reversal_Accumulation s E).
Defined.

Lemma standard_score_witness :
  35 < calculateMomentumScore boundary_candles
         (indicators_of boundary_candles default_params (Some flat_meta)) /\
  0 <= calculatePullbackScore boundary_candles
         (indicators_of boundary_candles default_params (Some flat_meta)).
Proof.
  destruct (standard_score_bounds boundary_candles
              (indicators_of boundary_candles default_params (Some flat_meta)))
    as [_ [_ [_ [Hpullback Hmomentum]]]].
  split.
  - apply Hmomentum. vm_compute. reflexivity.
  - apply Hpullback. vm_compute. reflexivity.
Defined.

Lemma inherited_run_outcome :
  outcome (run inherited_input) = inr [("constructor", Momentum)].
Proof. vm_compute. reflexivity. Qed.

Lemma picks_pass_the_filters_witness :
  exists out pick,
    run inherited_input = inr out /\
    In pick (picks out) /\
    Ticker pick = "constructor" /\
    metadata_at (metadata_of inherited_input) (Ticker pick) = Some inherited_meta /\
    30 < Price pick.
Proof.
  destruct (run_with_one_pick _ _ _ inherited_run_outcome)
    as [out [pick [Hrun [Hpicks [Hname _]]]]].
  assert (Hin : In pick (picks out)) by (rewrite Hpicks; left; reflexivity).
  destruct (picks_pass_the_filters sqrt_micro sample_now sample_dates upper_letters
              _ out pick Hrun Hin)
    as [candles [meta [_ [_ [_ [_ [_ [Hmin _]]]]]]]].
  exists out, pick. split; [exact Hrun|]. split; [exact Hin|]. split; [exact Hname|].
  split; [rewrite Hname; reflexivity | exact Hmin].
Defined.

Lemma picks_respect_indicator_filters_witness :
  exists out pick,
    run (input_of default_params breakout_candles) = inr out /\
    In pick (picks out) /\
    rsi_min default_params <= RSI pick /\ RSI pick <= rsi_max default_params /\
    1 <= RelativeVolume pick /\
    isLeoSetup (SelectionReason pick) = false /\
    PriceTargets pick = Some [percentage_target (Price pick)].
Proof.
  destruct (run_with_one_pick _ _ _ breakout_run_outcome)
    as [out [pick [Hrun [Hpicks _]]]].
  assert (Hin : In pick (picks out)) by (rewrite Hpicks; left; reflexivity).
  destruct (picks_respect_indicator_filters
              sqrt_micro sample_now sample_dates upper_letters _ out pick Hrun Hin)
    as [[Hlow Hhigh] [_ [Hvolume Hstandard]]].
  destruct (Hstandard eq_refl) as [_ [Hreason Htargets]].
  exists out, pick. repeat split; assumption.
Defined.

Lemma engine_runs_witness :
  exists out,
    run (input_of default_params breakout_candles) = inr out /\
    out_as_of_date out = "2025-10-31".
Proof.
  apply (proj2 (engine_fails_only_on_configuration
                  sqrt_micro sample_now sample_dates upper_letters
                  (input_of default_params breakout_candles))).
  - reflexivity.
  - left. reflexivity.
Defined.

Lemma no_survivors_witness :
  run (input_of default_params price_boundary_candles)
    = inr {| out_as_of_date := "2025-10-31"; picks := [] |}.
Proof.
  apply (no_survivors_no_picks sqrt_micro sample_now sample_dates upper_letters
           (input_of default_params price_boundary_candles)).
  - reflexivity.
  - intros name candles meta [Hentry | []] Hmeta.
    injection Hentry as <- <-.
    injection Hmeta as <-.
    vm_compute. reflexivity.
Defined.

Lemma picks_count_witness :
  exists (out : EngineOutput) (analyses : list StockAnalysis),
    run capped_input = inr out /\
    length analyses = 4%nat /\
    to_count (max_results (params capped_input)) = 2%nat /\
    length (picks out)
      = Nat.min (to_count (max_results (params capped_input))) (length analyses).
Proof.
  destruct capped_run_facts as [[analyses' [Ha' Hclassified]] Houtcome].
  destruct (run capped_input) as [e|out] eqn:E; [discriminate Houtcome|].
  destruct (picks_count sqrt_micro sample_now sample_dates upper_letters _ out E)
    as [analyses [Ha [_ [Hlen _]]]].
  pose proof (eq_trans (eq_sym Ha') Ha) as Hsame. injection Hsame as ->.
  exists out, analyses. split; [reflexivity|]. split.
  - rewrite <- (length_map (fun a => (sa_ticker a, setupReason a))), Hclassified.
    reflexivity.
  - split; [reflexivity | exact Hlen].
Defined.

Lemma index_filters_witness :
  filterByIndices upper_letters ["aapl"; "zzzz"] ["dowjones"]
    = inr (filter (fun ticker => in_some_index upper_letters ticker ["dowjones"])
                  ["aapl"; "zzzz"]) /\
  filterByIndex upper_letters ["aapl"; "zzzz"] "dowjones"
    = filterByIndices upper_letters ["aapl"; "zzzz"] ["dowjones"].
Proof.
  assert (Hknown : forall idx, In idx ["dowjones"] -> In idx index_names).
  { intros idx [<- | []]. right. left. reflexivity. }
  destruct (index_filters_agree upper_letters ["aapl"; "zzzz"] ["dowjones"] Hknown)
    as [Hfilter [_ [_ Hsingle]]].
  split; [exact Hfilter | exact (Hsingle "dowjones" eq_refl)].
Defined.

Lemma leo_picks_witness :
  exists out pick idx constituents,
    run leo_input = inr out /\
    In pick (picks out) /\
    In idx (index_filters leo_params) /\
    INDEX_CONSTITUENTS idx = Some constituents /\
    In (upper_letters (Ticker pick)) constituents.
Proof.
  destruct (run_with_one_pick _ _ _ leo_run_outcome)
    as [out [pick [Hrun [Hpicks _]]]].
  assert (Hin : In pick (picks out)) by (rewrite Hpicks; left; reflexivity).
  assert (Hfilters : index_filters (params leo_input) <> []) by discriminate.
  destruct (leo_picks_in_selected_indices sqrt_micro sample_now sample_dates upper_letters
              leo_input out pick Hrun Hin eq_refl Hfilters)
    as [idx [constituents [Hidx [Hindex Hticker]]]].
  exists out, pick, idx, constituents. repeat split; assumption.
Defined.

Lemma earnings_warning_witness :
  checkEarningsWarning sample_now sample_dates flat_meta 45 = true /\
  checkEarningsWarning sample_now sample_dates flat_meta 30 = false.
Proof.
  assert (Hdate : "2025-12-12" <> ""%string) by discriminate.
  pose proof (proj2 (earnings_warning_window sample_now sample_dates flat_meta 45)
                "2025-12-12" eq_refl Hdate) as Hlate.
  pose proof (proj2 (earnings_warning_window sample_now sample_dates flat_meta 30)
                "2025-12-12" eq_refl Hdate) as Hearly.
  change (sample_dates "2025-12-12") with (Some 1765497600000) in Hlate, Hearly.
  split.
  - apply Hlate. split; vm_compute; discriminate.
  - destruct (checkEarningsWarning sample_now sample_dates flat_meta 30) eqn:E;
      [|reflexivity].
    destruct (proj1 Hearly eq_refl) as [_ Hwithin].
    vm_compute in Hwithin. contradiction Hwithin. reflexivity.
Defined.

Lemma price_targets_shape_witness :
  exists first rest,
    calculatePriceTargetsFromIndicators swing_candles
      (indicators_of swing_candles leo_params (Some flat_meta)) = first :: rest /\
    pt_price first <= c (last_candle swing_candles) * (110 # 100).
Proof.
  assert (Hlen : (20 <= length swing_candles)%nat) by (vm_compute; lia).
  exact (proj1 (proj2 (price_targets_shape sqrt_micro sample_now sample_dates
                         swing_candles
                         (indicators_of swing_candles leo_params (Some flat_meta))
                         leo_params (Some flat_meta)) Hlen)).
Defined.
